(** * Compiler idle game: a shallow embedding of the simulation engine

    The development follows the JavaScript sources module by module:
    [utils/constants.js], [modules/codeGenerator.js],
    [modules/codeOptimizer.js], [modules/performanceAnalyzer.js],
    [core/gameState.js], [core/game.js], [storage/storageManager.js] and
    [modules/tokenizer.js].

    Modelling conventions.
    - [Decimal] values (decimal.js, an external library) are rationals
      [Qc].  [main.js] configures the library with
      [Decimal.set({ precision: 100, rounding: 4 })]: the library rounds the
      result of an operation to 100 significant digits, half away from zero.
      [Decimal.round] is that rounding.  The definitions apply it,
      operation by operation, in the price of an upgrade level, in the cost
      loop of a purchase and in the prestige gain with its square root.  The
      other sums and products are taken exactly.
    - JavaScript numbers that hold counters and levels are [Z]; the few that
      hold fractions (efficiencies, the elapsed time of a tick) are [Qc].
    - A JavaScript object used as a string-keyed dictionary is a
      [gmap string _]; a constant catalogue that the code iterates with
      [Object.keys(..).forEach] is an association list in declaration order.
    - Methods that mutate [this] return the new object value; [Date.now()] is
      an explicit argument.
    - A JavaScript string is the list of its UTF-16 code units.  A regular
      expression is the function that gives its match; the bounded
      backtracking stack of the engine that runs it is an argument of
      [Tokenizer.tokenizeOn]. *)

From Stdlib Require Import QArith Qcanon Qround Qpower ZArith NArith Lia Lqa.
From stdpp Require Import base numbers gmap strings list.

Local Open Scope Z_scope.

(** ** decimal.js *)

Module Decimal.
Local Open Scope Qc_scope.

(** [new Decimal(x)] for a literal [x]. *)
Definition new (q : Q) : Qc := Q2Qc q.

(** [new Decimal(n)] for an integer-valued JavaScript number. *)
Definition of_Z (n : Z) : Qc := Q2Qc (inject_Z n).

Definition add (x y : Qc) : Qc := x + y.
Definition sub (x y : Qc) : Qc := x - y.
Definition mul (x y : Qc) : Qc := x * y.
Definition div (x y : Qc) : Qc := x / y.

(** [x.pow(n)] for an integer exponent. *)
Definition pow (x : Qc) (n : Z) : Qc :=
  match n with
  | Z0 => 1
  | Zpos p => x ^ Pos.to_nat p
  | Zneg p => / (x ^ Pos.to_nat p)
  end.

Definition lt (x y : Qc) : bool := bool_decide (x < y).
Definition lte (x y : Qc) : bool := bool_decide (x <= y).
Definition gt (x y : Qc) : bool := bool_decide (y < x).
Definition gte (x y : Qc) : bool := bool_decide (y <= x).

Definition floor (x : Qc) : Qc := of_Z (Qfloor x).

(** [Decimal.set({ precision: 100, rounding: 4 })]. *)
Definition precision : Z := 100.

(** The number of decimal digits of a positive integer, by division. *)
Fixpoint digitsFrom (fuel : nat) (n : Z) : Z :=
  match fuel with
  | O => 0
  | S fuel' => if (n <? 10)%Z then 1 else (1 + digitsFrom fuel' (n / 10))%Z
  end.

Definition digits (n : Z) : Z := digitsFrom (S (Z.to_nat (Z.log2 n))) n.

(** The decimal exponent of a positive value: the [e] with
    [10^e <= x < 10^(e+1)]. *)
Definition exponent (x : Q) : Z :=
  let e := (digits (Qnum x) - digits (Zpos (Qden x)))%Z in
  if Qle_bool (10 ^ e)%Q x then e else (e - 1)%Z.

(** A positive value rounded to [sd] significant digits, a half going up:
    the nearest multiple of the unit of the last kept digit. *)
Definition roundPositive (sd : Z) (x : Q) : Q :=
  let ulp := (10 ^ (exponent x + 1 - sd))%Q in
  (inject_Z (Qfloor (x / ulp + (1 # 2))) * ulp)%Q.

(** Rounding mode 4, ROUND_HALF_UP: to the nearest value of [sd] digits,
    a half away from zero. *)
Definition roundQ (sd : Z) (x : Q) : Q :=
  match Qnum x with
  | Z0 => 0%Q
  | Zpos _ => roundPositive sd x
  | Zneg _ => (- roundPositive sd (- x))%Q
  end.

(** What decimal.js does to the result of an operation. *)
Definition round (x : Qc) : Qc := Q2Qc (roundQ precision x).

(** The decimal with coefficient [n] and exponent [e], [n * 10^e]. *)
Definition scaled (n e : Z) : Qc := Q2Qc (inject_Z n * 10 ^ e)%Q.

(** [x.pow(0.5)]: the square root of [x], rounded as every result is.  The
    root is taken to two digits more than are kept (the integer square root
    of [x * 10^(2k)] is the root with its first [k] decimal places) and is
    then rounded; the dropped digits cannot change a rounding to nearest.
    The engine calls it on values from 1 on. *)
Definition sqrtQ (x : Q) : Q :=
  let k := (precision + 1 - exponent x / 2)%Z in
  let root := Z.sqrt (Qfloor (x * 10 ^ (2 * k))%Q) in
  roundQ precision (inject_Z root * 10 ^ (- k))%Q.

Definition pow_half (x : Qc) : Qc := Q2Qc (sqrtQ x).

(** [d.toString()] and [new Decimal(str)]: decimal.js prints every
    significant digit of a value and parses the text back to the same
    value, so the text is represented by the value it denotes. *)
Inductive text : Type := Text (value : Qc).
Definition toString (x : Qc) : text := Text x.
Definition parse (t : text) : Qc := let 'Text v := t in v.
End Decimal.

Abbreviation Decimal := Qc (only parsing).

(** ** utils/constants.js *)

Inductive Resource : Type :=
  tokens | astNodes | generatedCode | optimizedCode | compilerPoints.

Global Instance Resource_eq_dec : EqDecision Resource.
Proof. solve_decision. Defined.

Inductive UpgradeType : Type := manual | generator | converter.

Global Instance UpgradeType_eq_dec : EqDecision UpgradeType.
Proof. solve_decision. Defined.

(** One entry of [UPGRADE_DATA] or [STAGE3_UPGRADES]; [name] and
    [description] are display text and are left out.  An absent property is
    [None]. *)
Record UpgradeData : Type := mkUpgradeData {
  baseCost : Decimal;
  growth : Decimal;
  baseOutput : Decimal;
  type : UpgradeType;
  resource : option Resource;
  costResource : option Resource;
  unlockThreshold : option Decimal
}.

(** [table[key]] on a constant catalogue. *)
Fixpoint assoc {A : Type} (key : string) (table : list (string * A)) : option A :=
  match table with
  | [] => None
  | (k, v) :: rest => if decide (k = key) then Some v else assoc key rest
  end.

Definition UPGRADE_DATA : list (string * UpgradeData) :=
  [ ("token-speed",
     mkUpgradeData (Decimal.new 25) (Decimal.new 1.25) (Decimal.new 0.1)
       manual None None None);
    ("auto-tokenizer-1",
     mkUpgradeData (Decimal.new 50) (Decimal.new 1.15) (Decimal.new 1)
       generator (Some tokens) None None);
    ("auto-scanner-2",
     mkUpgradeData (Decimal.new 500) (Decimal.new 1.18) (Decimal.new 5)
       generator (Some tokens) None (Some (Decimal.new 250)));
    ("parallel-lexer-3",
     mkUpgradeData (Decimal.new 8000) (Decimal.new 1.22) (Decimal.new 25)
       generator (Some tokens) None (Some (Decimal.new 4000)));
    ("auto-parser-1",
     mkUpgradeData (Decimal.new 1000) (Decimal.new 1.20) (Decimal.new 0.5)
       converter (Some astNodes) (Some tokens) (Some (Decimal.new 500))) ].

Definition STAGE3_UPGRADES : list (string * UpgradeData) :=
  [ ("basicCodeGen",
     mkUpgradeData (Decimal.new 100) (Decimal.new 1.2) (Decimal.new 0.1)
       converter (Some generatedCode) (Some astNodes) (Some (Decimal.new 1000)));
    ("llvmCodeGen",
     mkUpgradeData (Decimal.new 1000) (Decimal.new 1.25) (Decimal.new 0.15)
       converter (Some generatedCode) (Some astNodes) (Some (Decimal.new 5000)));
    ("jitCompiler",
     mkUpgradeData (Decimal.new 10000) (Decimal.new 1.3) (Decimal.new 0.2)
       converter (Some generatedCode) (Some astNodes) (Some (Decimal.new 50000))) ].

(** One entry of the mutable module-level table [PRESTIGE_UPGRADES]. *)
Record PrestigeUpgrade : Type := mkPrestigeUpgrade {
  pu_baseCost : Decimal;
  pu_cost : Decimal;
  pu_level : Z;
  pu_requiresPrestige : Z;
  pu_unlocked : bool
}.

Definition PRESTIGE_UPGRADES : list (string * PrestigeUpgrade) :=
  [ ("quantumTokenizer",
     mkPrestigeUpgrade (Decimal.new 10) (Decimal.new 10) 0 1 false);
    ("parallelCompiler",
     mkPrestigeUpgrade (Decimal.new 100) (Decimal.new 100) 0 3 false);
    ("aiOptimizer",
     mkPrestigeUpgrade (Decimal.new 1000) (Decimal.new 1000) 0 5 false) ].

Record OptimizationTech : Type := mkOptimizationTech {
  maxLevel : Z;
  ot_baseCost : Decimal;
  ot_growth : Decimal;
  efficiency : Decimal
}.

Definition OPTIMIZATION_TECHS : list (string * OptimizationTech) :=
  [ ("deadCodeElimination",
     mkOptimizationTech 10 (Decimal.new 50) (Decimal.new 1.6) (Decimal.new 0.1));
    ("loopOptimization",
     mkOptimizationTech 8 (Decimal.new 200) (Decimal.new 1.8) (Decimal.new 0.15));
    ("functionInlining",
     mkOptimizationTech 5 (Decimal.new 500) (Decimal.new 2.0) (Decimal.new 0.2));
    ("registerAllocation",
     mkOptimizationTech 12 (Decimal.new 100) (Decimal.new 1.5) (Decimal.new 0.05)) ].

Record DeploymentPlatform : Type := mkDeploymentPlatform {
  multiplier : Decimal;
  dp_unlocked : bool;
  dp_unlockThreshold : option Decimal;
  dp_requiresPrestige : option Z
}.

Definition DEPLOYMENT_PLATFORMS : list (string * DeploymentPlatform) :=
  [ ("development",
     mkDeploymentPlatform (Decimal.new 1.0) true None None);
    ("serverCluster",
     mkDeploymentPlatform (Decimal.new 2.5) false (Some (Decimal.new 10000)) None);
    ("edgeComputing",
     mkDeploymentPlatform (Decimal.new 5.0) false (Some (Decimal.new 100000)) None);
    ("quantumProcessor",
     mkDeploymentPlatform (Decimal.new 10.0) false (Some (Decimal.new 1000000))
       (Some 3)) ].

(** ** modules/codeGenerator.js *)

Module CodeGenerator.
Local Open Scope Qc_scope.

Record Template : Type := mkTemplate {
  tpl_efficiency : Decimal;
  tpl_unlockThreshold : option Decimal
}.

Definition templates : list (string * Template) :=
  [ ("basic", mkTemplate (Decimal.new 0.1) None);
    ("llvm", mkTemplate (Decimal.new 0.15) (Some (Decimal.new 5000)));
    ("jit", mkTemplate (Decimal.new 0.2) (Some (Decimal.new 50000))) ].

Record GenerationStats : Type := mkGenerationStats {
  totalGenerated : Decimal;
  sessionsCount : Z;
  averageEfficiency : Decimal
}.

Record t : Type := mk {
  currentTemplate : string;
  optimizationLevel : Decimal;
  generationStats : GenerationStats
}.

(** The constructor. *)
Definition init : t :=
  mk "basic" 0 (mkGenerationStats (Decimal.new 0) 0 0).

Definition updateAverageEfficiency (g : t) : t :=
  let st := generationStats g in
  if bool_decide (0 < sessionsCount st)%Z then
    match assoc (currentTemplate g) templates with
    | Some currentTpl =>
        let baseEfficiency := tpl_efficiency currentTpl in
        let optimizationBonus := optimizationLevel g * Decimal.new 0.1 in
        mk (currentTemplate g) (optimizationLevel g)
          (mkGenerationStats (totalGenerated st) (sessionsCount st)
             ((averageEfficiency st * Decimal.of_Z (sessionsCount st - 1)
               + (baseEfficiency + optimizationBonus))
              / Decimal.of_Z (sessionsCount st)))
    | None => g
    end
  else g.

(** [generateCode(astNodes)]: the amount returned and the generator
    afterwards. *)
Definition generateCode (astNodes : Decimal) (g : t) : Decimal * t :=
  if Decimal.lte astNodes 0 then (Decimal.new 0, g)
  else
    match assoc (currentTemplate g) templates with
    | None => (Decimal.new 0, g)
    | Some template =>
        let baseGeneration := Decimal.mul astNodes (tpl_efficiency template) in
        let optimizationBonus :=
          Decimal.add (Decimal.new 1) (optimizationLevel g * Decimal.new 0.1) in
        let experienceBonus :=
          Decimal.add (Decimal.new 1)
            (Decimal.mul
               (Decimal.div (totalGenerated (generationStats g)) (Decimal.new 10000))
               (Decimal.new 0.05)) in
        let finalGeneration :=
          Decimal.mul (Decimal.mul baseGeneration optimizationBonus) experienceBonus in
        let st := generationStats g in
        let g1 :=
          mk (currentTemplate g) (optimizationLevel g)
            (mkGenerationStats
               (Decimal.add (totalGenerated st) finalGeneration)
               (sessionsCount st + 1)
               (averageEfficiency st)) in
        (finalGeneration, updateAverageEfficiency g1)
    end.

Definition upgradeTemplate (newTemplate : string) (g : t) : bool * t :=
  match assoc newTemplate templates with
  | Some template =>
      match tpl_unlockThreshold template with
      | Some threshold =>
          if Decimal.lt (totalGenerated (generationStats g)) threshold
          then (false, g)
          else (true, mk newTemplate (optimizationLevel g) (generationStats g))
      | None => (true, mk newTemplate (optimizationLevel g) (generationStats g))
      end
  | None => (false, g)
  end.

(** [Math.max(0, level)]. *)
Definition setOptimizationLevel (level : Decimal) (g : t) : t :=
  mk (currentTemplate g) (if Decimal.lt level 0 then 0 else level)
    (generationStats g).

Definition resetStats (g : t) : t :=
  mk "basic" 0 (mkGenerationStats (Decimal.new 0) 0 0).

(** What the constructor establishes and every method keeps. *)
Definition wf (g : t) : Prop :=
  is_Some (assoc (currentTemplate g) templates)
  /\ 0 <= optimizationLevel g
  /\ 0 <= totalGenerated (generationStats g).

(** The object that [predictGeneration] returns. *)
Record Prediction : Type := mkPrediction {
  baseGeneration : Decimal;
  optimizationBonus : Decimal;
  experienceBonus : Decimal;
  finalGeneration : Decimal
}.

(** [predictGeneration(astNodes, templateId = null, optLevel = null)].  With
    a template name that [templates] lacks the JavaScript throws on
    [template.efficiency]: [None]. *)
Definition predictGeneration (astNodes : Decimal) (templateId : option string)
    (optLevel : option Decimal) (g : t) : option Prediction :=
  let name :=
    match templateId with
    | Some id => if bool_decide (id = "") then currentTemplate g else id
    | None => currentTemplate g
    end in
  match assoc name templates with
  | None => None
  | Some template =>
      let optimization :=
        match optLevel with
        | Some level => level
        | None => optimizationLevel g
        end in
      let baseGeneration := Decimal.mul astNodes (tpl_efficiency template) in
      let optimizationBonus :=
        Decimal.add (Decimal.new 1) (optimization * Decimal.new 0.1) in
      let experienceBonus :=
        Decimal.add (Decimal.new 1)
          (Decimal.mul
             (Decimal.div (totalGenerated (generationStats g)) (Decimal.new 10000))
             (Decimal.new 0.05)) in
      Some
        (mkPrediction baseGeneration optimizationBonus experienceBonus
           (Decimal.mul (Decimal.mul baseGeneration optimizationBonus) experienceBonus))
  end.

(** One element of the array that [getAvailableTemplates] returns. *)
Record TemplateInfo : Type := mkTemplateInfo {
  ti_id : string;
  ti_template : Template;
  isUnlocked : bool;
  isCurrent : bool
}.

Definition getAvailableTemplates (g : t) : list TemplateInfo :=
  map (fun kv : string * Template =>
         mkTemplateInfo kv.1 kv.2
           (match tpl_unlockThreshold kv.2 with
            | None => true
            | Some threshold =>
                Decimal.gte (totalGenerated (generationStats g)) threshold
            end)
           (bool_decide (kv.1 = currentTemplate g)))
    templates.
End CodeGenerator.

(** ** modules/codeOptimizer.js *)

Module CodeOptimizer.
Local Open Scope Qc_scope.

Record Optimization : Type := mkOptimization {
  level : Z;
  cost : Decimal;
  totalApplications : Z;
  effectiveness : Decimal
}.

Record HistoryEntry : Type := mkHistoryEntry {
  timestamp : Z;
  input : Decimal;
  output : Decimal;
  improvement : Decimal
}.

Record t : Type := mk {
  optimizations : gmap string Optimization;
  optimizationHistory : list HistoryEntry;
  totalOptimizationScore : Decimal
}.

Definition init : t :=
  mk (list_to_map
        (map (fun kv : string * OptimizationTech =>
                (kv.1, mkOptimization 0 (ot_baseCost kv.2) 0 0))
             OPTIMIZATION_TECHS))
     [] (Decimal.new 0).

(** The loop multiplies one factor per technique; the product does not
    depend on the order of the keys. *)
Definition getOptimizationMultiplier (o : t) : Decimal :=
  map_fold
    (fun key optimization totalMultiplier =>
       if bool_decide (0 < level optimization)%Z then
         match assoc key OPTIMIZATION_TECHS with
         | Some tech =>
             Decimal.mul totalMultiplier
               (Decimal.add (Decimal.new 1)
                  (efficiency tech * Decimal.of_Z (level optimization)))
         | None => totalMultiplier
         end
       else totalMultiplier)
    (Decimal.new 1) (optimizations o).

Definition recordOptimization (now : Z) (input output : Decimal) (o : t) : t :=
  let improvement := Decimal.div output input in
  let pushed := optimizationHistory o ++ [mkHistoryEntry now input output improvement] in
  let history :=
    if bool_decide (100 < length pushed)%nat then tail pushed else pushed in
  mk (optimizations o) history
    (Decimal.add (totalOptimizationScore o) (Decimal.sub output input)).

Definition updateTechStats (o : t) : t :=
  mk (map_imap
        (fun key optimization =>
           Some
             (if bool_decide (0 < level optimization)%Z then
                match assoc key OPTIMIZATION_TECHS with
                | Some tech =>
                    mkOptimization (level optimization) (cost optimization)
                      (totalApplications optimization + 1)
                      (efficiency tech * Decimal.of_Z (level optimization))
                | None => optimization
                end
              else optimization))
        (optimizations o))
     (optimizationHistory o) (totalOptimizationScore o).

Definition optimize (now : Z) (generatedCode : Decimal) (o : t) : Decimal * t :=
  if Decimal.lte generatedCode 0 then (Decimal.new 0, o)
  else
    let multiplier := getOptimizationMultiplier o in
    let optimizedAmount := Decimal.mul generatedCode multiplier in
    (optimizedAmount,
     updateTechStats (recordOptimization now generatedCode optimizedAmount o)).

(** [Math.floor(level * 0.1)] for an integer level. *)
Definition tenth (level : Z) : Z := Qfloor (Decimal.of_Z level * Decimal.new 0.1).

Definition resetOptimizer (keepSomeProgress : bool) (o : t) : t :=
  mk (map_imap
        (fun key optimization =>
           match assoc key OPTIMIZATION_TECHS with
           | Some tech =>
               Some (mkOptimization
                       (if keepSomeProgress then tenth (level optimization) else 0)
                       (ot_baseCost tech)
                       (if keepSomeProgress then totalApplications optimization else 0)
                       0)
           | None => Some optimization
           end)
        (optimizations o))
     (if keepSomeProgress then optimizationHistory o else [])
     (if keepSomeProgress then totalOptimizationScore o else Decimal.new 0).

(** [canUpgradeOptimization(techKey, gameState)]; of [gameState] the method
    reads [resources.optimizedCode], passed here as [optimizedCode]. *)
Definition canUpgradeOptimization (techKey : string) (optimizedCode : Decimal) (o : t)
    : bool :=
  match assoc techKey OPTIMIZATION_TECHS, optimizations o !! techKey with
  | Some tech, Some optimization =>
      if bool_decide (maxLevel tech <= level optimization)%Z then false
      else Decimal.gte optimizedCode (cost optimization)
  | _, _ => false
  end.

(** [upgradeOptimization(techKey, gameState)]: the result, the new value of
    [gameState.resources.optimizedCode] and the optimizer afterwards. *)
Definition upgradeOptimization (techKey : string) (optimizedCode : Decimal) (o : t)
    : bool * Decimal * t :=
  if negb (canUpgradeOptimization techKey optimizedCode o) then (false, optimizedCode, o)
  else
    match assoc techKey OPTIMIZATION_TECHS, optimizations o !! techKey with
    | Some tech, Some optimization =>
        let newLevel := (level optimization + 1)%Z in
        (true,
         Decimal.sub optimizedCode (cost optimization),
         mk (<[techKey :=
                 mkOptimization newLevel
                   (Decimal.mul (ot_baseCost tech) (Decimal.pow (ot_growth tech) newLevel))
                   (totalApplications optimization) (effectiveness optimization)]>
               (optimizations o))
            (optimizationHistory o) (totalOptimizationScore o))
    | _, _ => (false, optimizedCode, o)
    end.
End CodeOptimizer.

(** ** modules/performanceAnalyzer.js *)

Module PerformanceAnalyzer.
Local Open Scope Qc_scope.

Record DeploymentStats : Type := mkDeploymentStats {
totalDeployments : Z;
cumulativeScore : Decimal;
bestScore : Decimal;
averageScore : Decimal
}.

Record DetailedMetrics : Type := mkDetailedMetrics {
executionSpeed : Decimal;
memoryEfficiency : Decimal;
codeQuality : Decimal;
reliability : Decimal;
scalability : Decimal
}.

Record PerformanceRecord : Type := mkPerformanceRecord {
timestamp : Z;
score : Decimal;
platform : string;
metrics : DetailedMetrics
}.

Record t : Type := mk {
currentPlatform : string;
performanceHistory : list PerformanceRecord;
deploymentStats : gmap string DeploymentStats;
detailedMetrics : DetailedMetrics
}.

Definition zeroStats : DeploymentStats :=
mkDeploymentStats 0 (Decimal.new 0) (Decimal.new 0) (Decimal.new 0).

Definition unitMetrics : DetailedMetrics :=
mkDetailedMetrics (Decimal.new 1) (Decimal.new 1) (Decimal.new 1)
  (Decimal.new 1) (Decimal.new 1).

Definition init : t :=
mk "development" []
  (list_to_map
     (map (fun kv : string * DeploymentPlatform => (kv.1, zeroStats))
        DEPLOYMENT_PLATFORMS))
  unitMetrics.

Definition getExperienceBonus (a : t) : Decimal :=
let totalDeployments :=
  map_fold (fun _ stats sum => (sum + totalDeployments stats)%Z) 0%Z
    (deploymentStats a) in
Decimal.add (Decimal.new 1) (Decimal.of_Z totalDeployments * Decimal.new 0.01).

Definition updateDetailedMetrics (optimizedCode : Decimal)
  (platform : DeploymentPlatform) (a : t) : t :=
let platformFactor := multiplier platform in
mk (currentPlatform a) (performanceHistory a) (deploymentStats a)
  (mkDetailedMetrics
     (Decimal.mul
        (Decimal.add (Decimal.new 1)
           (Decimal.mul (Decimal.div optimizedCode (Decimal.new 1000))
              (Decimal.new 0.1)))
        platformFactor)
     (Decimal.add (Decimal.new 1)
        (Decimal.mul (Decimal.div optimizedCode (Decimal.new 2000))
           (Decimal.new 0.15)))
     (Decimal.add (Decimal.new 1)
        (Decimal.mul (Decimal.div optimizedCode (Decimal.new 1500))
           (Decimal.new 0.12)))
     (Decimal.add
        (Decimal.add (Decimal.new 0.8)
           (Decimal.mul (Decimal.div optimizedCode (Decimal.new 3000))
              (Decimal.new 0.2)))
        (Decimal.mul platformFactor (Decimal.new 0.1)))
     (Decimal.add
        (Decimal.add (Decimal.new 0.9)
           (Decimal.mul platformFactor (Decimal.new 0.2)))
        (Decimal.mul (Decimal.div optimizedCode (Decimal.new 5000))
           (Decimal.new 0.1)))).

Definition recordPerformance (now : Z) (score : Decimal) (a : t) : t :=
let pushed :=
  performanceHistory a
    ++ [mkPerformanceRecord now score (currentPlatform a) (detailedMetrics a)] in
mk (currentPlatform a)
  (if bool_decide (200 < length pushed)%nat then tail pushed else pushed)
  (deploymentStats a) (detailedMetrics a).

(** [this.deploymentStats[this.currentPlatform]] exists for every platform
  of the catalogue; on a missing entry the JavaScript would throw, and the
  analyzer is returned as it is. *)
Definition updateDeploymentStats (score : Decimal) (a : t) : t :=
match deploymentStats a !! currentPlatform a with
| Some stats =>
    let n := (totalDeployments stats + 1)%Z in
    let cumulative := Decimal.add (cumulativeScore stats) score in
    let best := if Decimal.gt score (bestScore stats) then score else bestScore stats in
    mk (currentPlatform a) (performanceHistory a)
      (<[currentPlatform a :=
           mkDeploymentStats n cumulative best
             (Decimal.div cumulative (Decimal.of_Z n))]> (deploymentStats a))
      (detailedMetrics a)
| None => a
end.

Definition analyzeCode (now : Z) (optimizedCode : Decimal) (a : t) : Decimal * t :=
if Decimal.lte optimizedCode 0 then (Decimal.new 0, a)
else
  match assoc (currentPlatform a) DEPLOYMENT_PLATFORMS with
  | None => (Decimal.new 0, a)
  | Some platform =>
      let baseScore := Decimal.mul optimizedCode (Decimal.new 0.1) in
      let platformMultiplier := multiplier platform in
      let experienceBonus := getExperienceBonus a in
      let finalScore :=
        Decimal.mul (Decimal.mul baseScore platformMultiplier) experienceBonus in
      (finalScore,
       updateDeploymentStats finalScore
         (recordPerformance now finalScore
            (updateDetailedMetrics optimizedCode platform a)))
  end.

Definition checkPlatformUnlock (platform : string) (a : t) : bool :=
match assoc platform DEPLOYMENT_PLATFORMS with
| None => false
| Some platformData =>
    if dp_unlocked platformData then true
    else
      match dp_unlockThreshold platformData with
      | Some threshold =>
          let totalScore :=
            map_fold (fun _ stats sum => Decimal.add sum (cumulativeScore stats))
              (Decimal.new 0) (deploymentStats a) in
          if Decimal.lt totalScore threshold then false else true
      | None => true
      end
end.

Definition deployTo (platform : string) (a : t) : bool * t :=
match assoc platform DEPLOYMENT_PLATFORMS with
| None => (false, a)
| Some _ =>
    if checkPlatformUnlock platform a
    then (true, mk platform (performanceHistory a) (deploymentStats a)
                  (detailedMetrics a))
    else (false, a)
end.

Definition resetAnalyzer (keepHistory : bool) (a : t) : t :=
mk "development"
  (if keepHistory then performanceHistory a else [])
  (if keepHistory then deploymentStats a
   else (fun _ => zeroStats) <$> deploymentStats a)
  unitMetrics.
End PerformanceAnalyzer.

(** ** core/gameState.js *)

Module GameState.
Local Open Scope Qc_scope.

Record Resources : Type := mkResources {
  r_tokens : Decimal;
  r_astNodes : Decimal;
  r_generatedCode : Decimal;
  r_optimizedCode : Decimal;
  r_compilerPoints : Decimal
}.

(** [resources[name]] and [resources[name] = v]. *)
Definition get (name : Resource) (rs : Resources) : Decimal :=
  match name with
  | tokens => r_tokens rs
  | astNodes => r_astNodes rs
  | generatedCode => r_generatedCode rs
  | optimizedCode => r_optimizedCode rs
  | compilerPoints => r_compilerPoints rs
  end.

Definition set (name : Resource) (v : Decimal) (rs : Resources) : Resources :=
  match name with
  | tokens =>
      mkResources v (r_astNodes rs) (r_generatedCode rs) (r_optimizedCode rs)
        (r_compilerPoints rs)
  | astNodes =>
      mkResources (r_tokens rs) v (r_generatedCode rs) (r_optimizedCode rs)
        (r_compilerPoints rs)
  | generatedCode =>
      mkResources (r_tokens rs) (r_astNodes rs) v (r_optimizedCode rs)
        (r_compilerPoints rs)
  | optimizedCode =>
      mkResources (r_tokens rs) (r_astNodes rs) (r_generatedCode rs) v
        (r_compilerPoints rs)
  | compilerPoints =>
      mkResources (r_tokens rs) (r_astNodes rs) (r_generatedCode rs)
        (r_optimizedCode rs) v
  end.

Record Prestige : Type := mkPrestige {
  level : Z;
  totalResets : Z
}.

Record Stage3Optimization : Type := mkStage3Optimization {
  so_level : Z;
  so_cost : Decimal
}.

Record Stage3 : Type := mkStage3 {
  unlocked : bool;
  optimizations : gmap string Stage3Optimization;
  currentDeployment : string;
  performanceScore : Decimal
}.

Record Stats : Type := mkStats {
  totalTokensGenerated : Decimal;
  totalNodesBuilt : Decimal;
  totalCodeGenerated : Decimal;
  totalPlayTime : Decimal;
  clickCount : Z;
  upgradesPurchased : Z
}.

(** The engine: the fields of a [GameState] object, its three stage-3
    modules, and the module-level table [PRESTIGE_UPGRADES] that
    [getPrestigeMultiplier] reads and [StorageManager.load] writes. *)
Record t : Type := mk {
  resources : Resources;
  upgrades : gmap string Z;
  prestige : Prestige;
  stage3 : Stage3;
  buyAmount : Z;
  devMode : bool;
  startTime : Z;
  lastSaveTime : Z;
  stats : Stats;
  codeGenerator : CodeGenerator.t;
  codeOptimizer : CodeOptimizer.t;
  performanceAnalyzer : PerformanceAnalyzer.t;
  prestigeUpgrades : list (string * PrestigeUpgrade)
}.

Definition zeroResources : Resources :=
  mkResources (Decimal.new 0) (Decimal.new 0) (Decimal.new 0) (Decimal.new 0)
    (Decimal.new 0).

(** [new GameState()] in a freshly loaded page, at time [now]. *)
Definition new (now : Z) : t :=
  mk zeroResources
    (list_to_map (map (fun kv : string * UpgradeData => (kv.1, 0%Z)) UPGRADE_DATA))
    (mkPrestige 0 0)
    (mkStage3 false ∅ "development" (Decimal.new 0))
    1 false now now
    (mkStats (Decimal.new 0) (Decimal.new 0) (Decimal.new 0) 0 0 0)
    CodeGenerator.init CodeOptimizer.init PerformanceAnalyzer.init
    PRESTIGE_UPGRADES.

(** [UPGRADE_DATA[upgradeKey] || STAGE3_UPGRADES[upgradeKey]]. *)
Definition upgradeDataOf (upgradeKey : string) : option UpgradeData :=
  match assoc upgradeKey UPGRADE_DATA with
  | Some d => Some d
  | None => assoc upgradeKey STAGE3_UPGRADES
  end.

(** [this.upgrades[upgradeKey] || 0]. *)
Definition levelOf (upgradeKey : string) (s : t) : Z :=
  default 0%Z (upgrades s !! upgradeKey).

(** [upgradeData.costResource || 'tokens']. *)
Definition costResourceOf (upgradeData : UpgradeData) : Resource :=
  default tokens (costResource upgradeData).

(** [baseCost.mul(new Decimal(growth).pow(level))]: the power is rounded,
    and so is the product. *)
Definition costAtLevel (upgradeData : UpgradeData) (level : Z) : Decimal :=
  Decimal.round
    (Decimal.mul (baseCost upgradeData)
       (Decimal.round (Decimal.pow (growth upgradeData) level))).

Definition getUpgradeCost (upgradeKey : string) (s : t) : Decimal :=
  match upgradeDataOf upgradeKey with
  | None => Decimal.new 0
  | Some upgradeData => costAtLevel upgradeData (levelOf upgradeKey s)
  end.

(** The loop [for (let i = 0; i < amount; i++) totalCost = totalCost.add(cost)]
    of [canBuyUpgrade] and [buyUpgrade], entered with [remaining] iterations
    left, counter [i] and accumulator [totalCost]. *)
Fixpoint costLoop (upgradeData : UpgradeData) (currentLevel : Z)
    (remaining : nat) (i : Z) (totalCost : Decimal) : Decimal :=
  match remaining with
  | O => totalCost
  | S remaining' =>
      costLoop upgradeData currentLevel remaining' (i + 1)%Z
        (Decimal.round
           (Decimal.add totalCost (costAtLevel upgradeData (currentLevel + i)%Z)))
  end.

Definition bulkCost (upgradeData : UpgradeData) (currentLevel amount : Z) : Decimal :=
  costLoop upgradeData currentLevel (Z.to_nat amount) 0%Z (Decimal.new 0).

Definition canBuyUpgrade (upgradeKey : string) (amount : Z) (s : t) : bool :=
  match upgradeDataOf upgradeKey with
  | None => false
  | Some upgradeData =>
      let locked :=
        match unlockThreshold upgradeData with
        | Some threshold =>
            Decimal.lt (get (costResourceOf upgradeData) (resources s)) threshold
        | None => false
        end in
      if locked then false
      else
        let totalCost := bulkCost upgradeData (levelOf upgradeKey s) amount in
        Decimal.gte (get (costResourceOf upgradeData) (resources s)) totalCost
  end.

Definition buyUpgrade (upgradeKey : string) (amount : Z) (s : t) : bool * t :=
  if negb (canBuyUpgrade upgradeKey amount s) then (false, s)
  else
    match upgradeDataOf upgradeKey with
    | None => (false, s)
    | Some upgradeData =>
        let totalCost := bulkCost upgradeData (levelOf upgradeKey s) amount in
        let costRes := costResourceOf upgradeData in
        let st := stats s in
        (true,
         mk (set costRes (Decimal.sub (get costRes (resources s)) totalCost)
               (resources s))
            (<[upgradeKey := (levelOf upgradeKey s + amount)%Z]> (upgrades s))
            (prestige s) (stage3 s) (buyAmount s) (devMode s) (startTime s)
            (lastSaveTime s)
            (mkStats (totalTokensGenerated st) (totalNodesBuilt st)
               (totalCodeGenerated st) (totalPlayTime st) (clickCount st)
               (upgradesPurchased st + amount)%Z)
            (codeGenerator s) (codeOptimizer s) (performanceAnalyzer s)
            (prestigeUpgrades s))
    end.

Definition getPrestigeMultiplier (resource : Resource) (s : t) : Decimal :=
  let base :=
    if bool_decide (0 < level (prestige s))%Z
    then Decimal.mul (Decimal.new 1) (Decimal.pow (Decimal.new 2) (level (prestige s)))
    else Decimal.new 1 in
  fold_left
    (fun multiplier (kv : string * PrestigeUpgrade) =>
       let upgrade := kv.2 in
       if bool_decide (0 < pu_level upgrade)%Z && pu_unlocked upgrade
       then Decimal.mul multiplier (Decimal.pow (Decimal.new 1.5) (pu_level upgrade))
       else multiplier)
    (prestigeUpgrades s) base.

(** The object [production]: it has no [compilerPoints] property. *)
Record Production : Type := mkProduction {
  p_tokens : Decimal;
  p_astNodes : Decimal;
  p_generatedCode : Decimal;
  p_optimizedCode : Decimal
}.

(** [production[name] = production[name].add(v)].  No catalogue entry
    produces [compilerPoints]; JavaScript would throw there and the
    embedding leaves [production] as it is. *)
Definition produce (name : Resource) (v : Decimal) (p : Production) : Production :=
  match name with
  | tokens =>
      mkProduction (Decimal.add (p_tokens p) v) (p_astNodes p) (p_generatedCode p)
        (p_optimizedCode p)
  | astNodes =>
      mkProduction (p_tokens p) (Decimal.add (p_astNodes p) v) (p_generatedCode p)
        (p_optimizedCode p)
  | generatedCode =>
      mkProduction (p_tokens p) (p_astNodes p) (Decimal.add (p_generatedCode p) v)
        (p_optimizedCode p)
  | optimizedCode =>
      mkProduction (p_tokens p) (p_astNodes p) (p_generatedCode p)
        (Decimal.add (p_optimizedCode p) v)
  | compilerPoints => p
  end.

(** The first [forEach] of [calculateProduction]. *)
Definition generatorStep (s : t) (production : Production)
    (kv : string * UpgradeData) : Production :=
  let upgradeData := kv.2 in
  let level := levelOf kv.1 s in
  if bool_decide (0 < level)%Z && bool_decide (type upgradeData = generator) then
    match resource upgradeData with
    | Some res =>
        let baseOutput := Decimal.mul (baseOutput upgradeData) (Decimal.of_Z level) in
        produce res (Decimal.mul baseOutput (getPrestigeMultiplier res s)) production
    | None => production
    end
  else production.

(** The second [forEach] of [calculateProduction]. *)
Definition converterStep (s : t) (production : Production)
    (kv : string * UpgradeData) : Production :=
  let upgradeData := kv.2 in
  let level := levelOf kv.1 s in
  if bool_decide (0 < level)%Z && bool_decide (type upgradeData = converter) then
    match costResource upgradeData, resource upgradeData with
    | Some inputResource, Some outputResource =>
        if Decimal.gt (get inputResource (resources s)) 0 then
          let conversionRate :=
            Decimal.mul (baseOutput upgradeData) (Decimal.of_Z level) in
          let maxConversion :=
            Decimal.mul (get inputResource (resources s)) conversionRate in
          produce outputResource maxConversion production
        else production
    | _, _ => production
    end
  else production.

Definition withStage3Modules (g : CodeGenerator.t) (o : CodeOptimizer.t) (s : t) : t :=
  mk (resources s) (upgrades s) (prestige s) (stage3 s) (buyAmount s) (devMode s)
    (startTime s) (lastSaveTime s) (stats s) g o (performanceAnalyzer s)
    (prestigeUpgrades s).

Definition calculateStage3Production (now : Z) (production : Production) (s : t)
    : Production * t :=
  let '(production1, g) :=
    if Decimal.gt (r_astNodes (resources s)) 0 then
      let '(generatedAmount, g) :=
        CodeGenerator.generateCode (r_astNodes (resources s)) (codeGenerator s) in
      (produce generatedCode generatedAmount production, g)
    else (production, codeGenerator s) in
  let '(production2, o) :=
    if Decimal.gt (r_generatedCode (resources s)) 0 then
      let '(optimizedAmount, o) :=
        CodeOptimizer.optimize now (r_generatedCode (resources s)) (codeOptimizer s) in
      (produce optimizedCode optimizedAmount production1, o)
    else (production1, codeOptimizer s) in
  (production2, withStage3Modules g o s).

(** The two [forEach] loops over [UPGRADE_DATA] at the head of
    [calculateProduction]. *)
Definition upgradeProduction (s : t) : Production :=
  let production0 :=
    mkProduction (Decimal.new 0) (Decimal.new 0) (Decimal.new 0) (Decimal.new 0) in
  let production1 := fold_left (generatorStep s) UPGRADE_DATA production0 in
  fold_left (converterStep s) UPGRADE_DATA production1.

Definition calculateProduction (now : Z) (s : t) : Production * t :=
  let production := upgradeProduction s in
  if unlocked (stage3 s) then calculateStage3Production now production s
  else (production, s).

(** [tokens.add(astNodes.mul(10)).add(generatedCode.mul(100))
    .add(optimizedCode.mul(1000))], every product and sum rounded. *)
Definition totalResources (s : t) : Decimal :=
  Decimal.round
    (Decimal.add
       (Decimal.round
          (Decimal.add
             (Decimal.round
                (Decimal.add (r_tokens (resources s))
                   (Decimal.round
                      (Decimal.mul (r_astNodes (resources s)) (Decimal.new 10)))))
             (Decimal.round
                (Decimal.mul (r_generatedCode (resources s)) (Decimal.new 100)))))
       (Decimal.round
          (Decimal.mul (r_optimizedCode (resources s)) (Decimal.new 1000)))).

(** [totalResources.div(1000).pow(0.5).floor()] from 1000 on, and 0 below. *)
Definition calculatePrestigeGain (s : t) : Decimal :=
  if Decimal.lt (totalResources s) (Decimal.new 1000) then Decimal.new 0
  else
    Decimal.floor
      (Decimal.pow_half
         (Decimal.round (Decimal.div (totalResources s) (Decimal.new 1000)))).

Definition doPrestige (s : t) : bool * t :=
  let gain := calculatePrestigeGain s in
  if Decimal.lte gain 0 then (false, s)
  else
    (true,
     mk (mkResources (Decimal.new 0) (Decimal.new 0) (Decimal.new 0) (Decimal.new 0)
           (Decimal.add (r_compilerPoints (resources s)) gain))
        ((fun _ => 0%Z) <$> upgrades s)
        (mkPrestige (level (prestige s) + 1) (totalResets (prestige s) + 1))
        (stage3 s) (buyAmount s) (devMode s) (startTime s) (lastSaveTime s)
        (stats s)
        (CodeGenerator.resetStats (codeGenerator s))
        (CodeOptimizer.resetOptimizer true (codeOptimizer s))
        (PerformanceAnalyzer.resetAnalyzer false (performanceAnalyzer s))
        (prestigeUpgrades s)).

Definition withResources (rs : Resources) (s : t) : t :=
  mk rs (upgrades s) (prestige s) (stage3 s) (buyAmount s) (devMode s)
    (startTime s) (lastSaveTime s) (stats s) (codeGenerator s) (codeOptimizer s)
    (performanceAnalyzer s) (prestigeUpgrades s).

Definition checkStage3Unlock (s : t) : t :=
  if negb (unlocked (stage3 s)) && Decimal.gte (r_astNodes (resources s)) (Decimal.new 1000)
  then
    mk (resources s) (upgrades s) (prestige s)
      (mkStage3 true (optimizations (stage3 s)) (currentDeployment (stage3 s))
         (performanceScore (stage3 s)))
      (buyAmount s) (devMode s) (startTime s) (lastSaveTime s) (stats s)
      (codeGenerator s) (codeOptimizer s) (performanceAnalyzer s)
      (prestigeUpgrades s)
  else s.

Definition updateStats (deltaTime : Decimal) (s : t) : t :=
  let st := stats s in
  mk (resources s) (upgrades s) (prestige s) (stage3 s) (buyAmount s) (devMode s)
    (startTime s) (lastSaveTime s)
    (mkStats (totalTokensGenerated st) (totalNodesBuilt st) (totalCodeGenerated st)
       (totalPlayTime st + deltaTime) (clickCount st) (upgradesPurchased st))
    (codeGenerator s) (codeOptimizer s) (performanceAnalyzer s)
    (prestigeUpgrades s).

(** [this.buyAmount = Math.max(1, amount)]. *)
Definition setBuyAmount (amount : Z) (s : t) : t :=
  mk (resources s) (upgrades s) (prestige s) (stage3 s) (Z.max 1 amount) (devMode s)
    (startTime s) (lastSaveTime s) (stats s) (codeGenerator s) (codeOptimizer s)
    (performanceAnalyzer s) (prestigeUpgrades s).
End GameState.

(** ** core/game.js *)

Module Game.
Local Open Scope Qc_scope.

(** One iteration of the [forEach] of [handleConverterConsumption]. *)
Definition consumptionStep (deltaTime : Decimal) (s : GameState.t)
    (kv : string * UpgradeData) : GameState.t :=
  let upgradeData := kv.2 in
  let level := GameState.levelOf kv.1 s in
  if bool_decide (0 < level)%Z && bool_decide (type upgradeData = converter) then
    match costResource upgradeData with
    | Some inputResource =>
        let conversionRate :=
          Decimal.mul (Decimal.mul (baseOutput upgradeData) (Decimal.of_Z level))
            deltaTime in
        if Decimal.gte (GameState.get inputResource (GameState.resources s))
             conversionRate
        then
          GameState.withResources
            (GameState.set inputResource
               (Decimal.sub (GameState.get inputResource (GameState.resources s))
                  conversionRate)
               (GameState.resources s))
            s
        else s
    | None => s
    end
  else s.

Definition handleConverterConsumption (deltaTime : Decimal) (s : GameState.t)
    : GameState.t :=
  fold_left (consumptionStep deltaTime) UPGRADE_DATA s.

(** [if (production[resource].gt(0)) resources[resource] += production[resource] * deltaTime]. *)
Definition applyProduction (deltaTime : Decimal) (name : Resource) (v : Decimal)
    (rs : GameState.Resources) : GameState.Resources :=
  if Decimal.gt v 0
  then GameState.set name
         (Decimal.add (GameState.get name rs) (Decimal.mul v deltaTime)) rs
  else rs.

Definition updateGameState (now : Z) (deltaTime : Decimal) (s : GameState.t)
    : GameState.t :=
  let '(production, s1) := GameState.calculateProduction now s in
  let rs :=
    applyProduction deltaTime optimizedCode (GameState.p_optimizedCode production)
      (applyProduction deltaTime generatedCode (GameState.p_generatedCode production)
         (applyProduction deltaTime astNodes (GameState.p_astNodes production)
            (applyProduction deltaTime tokens (GameState.p_tokens production)
               (GameState.resources s1)))) in
  let s2 := GameState.withResources rs s1 in
  let s3 := handleConverterConsumption deltaTime s2 in
  GameState.checkStage3Unlock (GameState.updateStats deltaTime s3).

(** [amount || this.state.buyAmount], then [this.state.buyUpgrade]. *)
Definition buyUpgrade (upgradeKey : string) (amount : option Z) (s : GameState.t)
    : bool * GameState.t :=
  let buyAmount :=
    match amount with
    | Some a => if bool_decide (a = 0%Z) then GameState.buyAmount s else a
    | None => GameState.buyAmount s
    end in
  GameState.buyUpgrade upgradeKey buyAmount s.

Definition getManualTokenMultiplier (s : GameState.t) : Decimal :=
  let multiplier :=
    fold_left
      (fun multiplier (kv : string * UpgradeData) =>
         let level := GameState.levelOf kv.1 s in
         if bool_decide (0 < level)%Z && bool_decide (type kv.2 = manual)
         then Decimal.add multiplier
                (Decimal.mul (baseOutput kv.2) (Decimal.of_Z level))
         else multiplier)
      UPGRADE_DATA (Decimal.new 1) in
  Decimal.mul multiplier (GameState.getPrestigeMultiplier tokens s).
End Game.

(** ** storage/storageManager.js *)

Module StorageManager.

Record SavedPrestigeUpgrade : Type := mkSavedPrestigeUpgrade {
  spu_level : Z;
  spu_cost : Decimal.text;
  spu_unlocked : bool
}.

Record SavedPrestige : Type := mkSavedPrestige {
  sp_level : Z;
  sp_totalResets : Z;
  sp_upgrades : gmap string SavedPrestigeUpgrade
}.

Record SavedOptimization : Type := mkSavedOptimization {
  sopt_level : Z;
  sopt_cost : Decimal.text
}.

Record SavedStage3 : Type := mkSavedStage3 {
  ss_unlocked : bool;
  ss_optimizations : gmap string SavedOptimization;
  ss_currentDeployment : string;
  ss_performanceScore : Decimal.text
}.

Record SavedSettings : Type := mkSavedSettings {
  set_buyAmount : Z;
  set_devMode : bool;
  set_startTime : Z
}.

(** The object that [save] hands to [JSON.stringify] and that [load] gets
    back from [JSON.parse]; a section absent from a stored object is
    [None]. *)
Record SaveData : Type := mkSaveData {
  version : string;
  timestamp : Z;
  resources : option (gmap string Decimal.text);
  upgrades : option (gmap string Z);
  prestige : option SavedPrestige;
  stage3 : option SavedStage3;
  settings : option SavedSettings
}.

(** The property names of [state.resources]. *)
Definition resourceName (name : Resource) : string :=
  match name with
  | tokens => "tokens"
  | astNodes => "astNodes"
  | generatedCode => "generatedCode"
  | optimizedCode => "optimizedCode"
  | compilerPoints => "compilerPoints"
  end.

Definition allResources : list Resource :=
  [tokens; astNodes; generatedCode; optimizedCode; compilerPoints].

Definition save (now : Z) (s : GameState.t) : SaveData :=
  let rs := GameState.resources s in
  mkSaveData "0.8.0" now
    (Some
       (list_to_map
          (map (fun name => (resourceName name, Decimal.toString (GameState.get name rs)))
             allResources)))
    (Some (GameState.upgrades s))
    (Some
       (mkSavedPrestige
          (GameState.level (GameState.prestige s))
          (GameState.totalResets (GameState.prestige s))
          (list_to_map
             (map (fun kv : string * PrestigeUpgrade =>
                     (kv.1,
                      mkSavedPrestigeUpgrade (pu_level kv.2)
                        (Decimal.toString (pu_cost kv.2)) (pu_unlocked kv.2)))
                (GameState.prestigeUpgrades s)))))
    (Some
       (mkSavedStage3
          (GameState.unlocked (GameState.stage3 s))
          (fold_left
             (fun saved (kv : string * OptimizationTech) =>
                match GameState.optimizations (GameState.stage3 s) !! kv.1 with
                | Some tech =>
                    <[kv.1 :=
                        mkSavedOptimization (GameState.so_level tech)
                          (Decimal.toString (GameState.so_cost tech))]> saved
                | None => saved
                end)
             OPTIMIZATION_TECHS ∅)
          (GameState.currentDeployment (GameState.stage3 s))
          (Decimal.toString (GameState.performanceScore (GameState.stage3 s)))))
    (Some
       (mkSavedSettings (GameState.buyAmount s) (GameState.devMode s)
          (GameState.startTime s))).

(** The five blocks of [load], each run when its section is present. *)
Definition loadResources (saved : gmap string Decimal.text)
    (rs : GameState.Resources) : GameState.Resources :=
  fold_left
    (fun rs name =>
       match saved !! resourceName name with
       | Some txt => GameState.set name (Decimal.parse txt) rs
       | None => rs
       end)
    allResources rs.

(** [this.state.upgrades[key] = data.upgrades[key] || 0] for every saved
    key: the saved entries override, the other entries stay. *)
Definition loadUpgrades (saved : gmap string Z) (current : gmap string Z)
    : gmap string Z :=
  saved ∪ current.

Definition loadPrestigeUpgrades (saved : gmap string SavedPrestigeUpgrade)
    (table : list (string * PrestigeUpgrade)) : list (string * PrestigeUpgrade) :=
  map (fun kv : string * PrestigeUpgrade =>
         match saved !! kv.1 with
         | Some upgradeData =>
             (kv.1,
              mkPrestigeUpgrade (pu_baseCost kv.2)
                (Decimal.parse (spu_cost upgradeData)) (spu_level upgradeData)
                (pu_requiresPrestige kv.2) (spu_unlocked upgradeData))
         | None => kv
         end)
    table.

(** Saved entries whose key is not a technique of [OPTIMIZATION_TECHS] are
    skipped, so the loop runs over the catalogue. *)
Definition loadOptimizations (saved : gmap string SavedOptimization)
    (current : gmap string GameState.Stage3Optimization)
    : gmap string GameState.Stage3Optimization :=
  fold_left
    (fun current (kv : string * OptimizationTech) =>
       match saved !! kv.1 with
       | Some optData =>
           <[kv.1 :=
               GameState.mkStage3Optimization (sopt_level optData)
                 (Decimal.parse (sopt_cost optData))]> current
       | None => current
       end)
    OPTIMIZATION_TECHS current.

Definition loadStage3 (saved : SavedStage3) (st : GameState.Stage3) : GameState.Stage3 :=
  GameState.mkStage3 (ss_unlocked saved)
    (loadOptimizations (ss_optimizations saved) (GameState.optimizations st))
    (if bool_decide (ss_currentDeployment saved = "") then "development"
     else ss_currentDeployment saved)
    (Decimal.parse (ss_performanceScore saved)).

(** [load()]: [stored] is the item found in [localStorage], [s] the engine
    that loads.  The result says whether a save was found. *)
Definition load (now : Z) (stored : option SaveData) (s : GameState.t)
    : bool * GameState.t :=
  match stored with
  | None => (false, s)
  | Some data =>
      let rs :=
        match resources data with
        | Some saved => loadResources saved (GameState.resources s)
        | None => GameState.resources s
        end in
      let ups :=
        match upgrades data with
        | Some saved => loadUpgrades saved (GameState.upgrades s)
        | None => GameState.upgrades s
        end in
      let '(pr, table) :=
        match prestige data with
        | Some saved =>
            (GameState.mkPrestige (sp_level saved) (sp_totalResets saved),
             loadPrestigeUpgrades (sp_upgrades saved) (GameState.prestigeUpgrades s))
        | None => (GameState.prestige s, GameState.prestigeUpgrades s)
        end in
      let st3 :=
        match stage3 data with
        | Some saved => loadStage3 saved (GameState.stage3 s)
        | None => GameState.stage3 s
        end in
      let '(amount, dev, start) :=
        match settings data with
        | Some saved =>
            (if bool_decide (set_buyAmount saved = 0) then 1 else set_buyAmount saved,
             set_devMode saved,
             if bool_decide (set_startTime saved = 0) then now else set_startTime saved)
        | None => (GameState.buyAmount s, GameState.devMode s, GameState.startTime s)
        end in
      (true,
       GameState.mk rs ups pr st3 amount dev start (GameState.lastSaveTime s)
         (GameState.stats s) (GameState.codeGenerator s) (GameState.codeOptimizer s)
         (GameState.performanceAnalyzer s) table)
  end.
End StorageManager.

(** ** modules/tokenizer.js *)

Module Tokenizer.
Local Open Scope N_scope.

(** A UTF-16 code unit. *)
Abbreviation char := N (only parsing).

(** The code units of an ASCII literal. *)
Definition units (s : string) : list char :=
  map Ascii.N_of_ascii (String.list_ascii_of_string s).

Definition isDigit (c : char) : bool := (48 <=? c) && (c <=? 57).

Definition isLetter (c : char) : bool :=
  ((65 <=? c) && (c <=? 90)) || ((97 <=? c) && (c <=? 122)).

(** [\w]. *)
Definition isWordChar (c : char) : bool := isLetter c || isDigit c || (c =? 95).

(** [[a-zA-Z_$]] and [[a-zA-Z0-9_$]]. *)
Definition isIdentStart (c : char) : bool := isLetter c || (c =? 95) || (c =? 36).
Definition isIdentPart (c : char) : bool := isIdentStart c || isDigit c.

(** The characters that [.] does not match. *)
Definition isLineTerminator (c : char) : bool :=
  (c =? 10) || (c =? 13) || (c =? 8232) || (c =? 8233).

(** [\s]; the class [[\s\r\n\t]] of the WHITESPACE rule is the same set. *)
Definition isSpace (c : char) : bool :=
  ((9 <=? c) && (c <=? 13)) || (c =? 32) || (c =? 160) || (c =? 5760)
  || ((8192 <=? c) && (c <=? 8202)) || (c =? 8232) || (c =? 8233)
  || (c =? 8239) || (c =? 8287) || (c =? 12288) || (c =? 65279).

Fixpoint startsWith (prefix input : list char) : bool :=
  match prefix, input with
  | [], _ => true
  | p :: prefix', c :: input' => (p =? c) && startsWith prefix' input'
  | _ :: _, [] => false
  end.

Fixpoint takeWhile (f : char -> bool) (input : list char) : list char :=
  match input with
  | c :: input' => if f c then c :: takeWhile f input' else []
  | [] => []
  end.

(** [\b] right after a word character: the input ends or goes on with a
    character outside [\w]. *)
Definition boundaryAfter (rest : list char) : bool :=
  match rest with
  | [] => true
  | c :: _ => negb (isWordChar c)
  end.

(** An alternation [a|b|c] of literals tries them from left to right and
    takes the first one after which the rest of the pattern matches. *)
Fixpoint firstLiteral (after : list char -> bool) (literals : list string)
    (input : list char) : option (list char) :=
  match literals with
  | [] => None
  | lit :: literals' =>
      if startsWith (units lit) input
         && after (drop (length (units lit)) input)
      then Some (units lit)
      else firstLiteral after literals' input
  end.

Definition keywords : list string :=
  [ "function"; "var"; "let"; "const"; "if"; "else"; "for"; "while"; "return";
    "class"; "import"; "export"; "async"; "await"; "try"; "catch"; "finally";
    "throw"; "new"; "this"; "super"; "extends"; "implements"; "interface";
    "type"; "enum"; "namespace"; "module"; "declare"; "abstract"; "private";
    "public"; "protected"; "static"; "readonly"; "override" ]%string.

(** [/^(function|var|...|override)\b/]. *)
Definition matchKeyword (input : list char) : option (list char) :=
  firstLiteral boundaryAfter keywords input.

(** [/^[0-9]+(\.[0-9]+)?\b/].  Both digit runs are greedy.  Giving back
    digits of a run never helps, since [\b] fails between two digits; so the
    match is the integer part with the whole fraction when [\b] holds after
    the fraction, and else the whole integer part when [\b] holds after
    it. *)
Definition matchNumber (input : list char) : option (list char) :=
  let digits := takeWhile isDigit input in
  match digits with
  | [] => None
  | _ :: _ =>
      let rest := drop (length digits) input in
      let withFraction :=
        match rest with
        | 46 :: rest' =>
            let fraction := takeWhile isDigit rest' in
            match fraction with
            | [] => None
            | _ :: _ =>
                if boundaryAfter (drop (length fraction) rest')
                then Some (digits ++ 46 :: fraction)
                else None
            end
        | _ => None
        end in
      match withFraction with
      | Some value => Some value
      | None => if boundaryAfter rest then Some digits else None
      end
  end.

(** The body and closing quote of a string literal,
    [([^q\\]|\\.)*q]: the number of code units up to and including the
    closing quote.  A backslash takes the next code unit with it unless that
    is a line terminator; the two alternatives of the group start with
    different characters, so backtracking finds no other parse. *)
Fixpoint scanString (quote : char) (body : list char) : option nat :=
  match body with
  | [] => None
  | c :: rest =>
      if c =? quote then Some 1%nat
      else if c =? 92 then
        match rest with
        | e :: rest' =>
            if isLineTerminator e then None
            else (fun n => S (S n)) <$> scanString quote rest'
        | [] => None
        end
      else S <$> scanString quote rest
  end.

(** The STRING rule: three alternatives [^q([^q\\]|\\.)*q], one for each of
    the quote characters [q]: double quote (34), single quote (39) and
    backquote (96).  The opening quote selects the alternative.  This is
    the match that the pattern has; [matchStringOn] below is the call on an
    engine with a bounded stack, which can throw. *)
Definition matchString (input : list char) : option (list char) :=
  match input with
  | q :: body =>
      if (q =? 34) || (q =? 39) || (q =? 96) then
        (fun n => take (S n) input) <$> scanString q body
      else None
  | [] => None
  end.

(** [/^[a-zA-Z_$][a-zA-Z0-9_$]*/]. *)
Definition matchIdentifier (input : list char) : option (list char) :=
  match input with
  | c :: rest => if isIdentStart c then Some (c :: takeWhile isIdentPart rest) else None
  | [] => None
  end.

Definition operators : list string :=
  [ "++"; "--"; "&&"; "||"; "=="; "!="; "<="; ">="; "==="; "!=="; "=>";
    "+"; "-"; "*"; "/"; "%"; "&"; "|"; "!"; "<"; ">"; "="; "?"; ":" ]%string.

(** [/^(\+\+|--|&&|\|\||==|!=|<=|>=|===|!==|=>|\+|\-|\*|\/|%|&|\||!|<|>|=|\?|:)/]. *)
Definition matchOperator (input : list char) : option (list char) :=
  firstLiteral (fun _ => true) operators input.

(** [/^[(){}\[\];,.]/]. *)
Definition isDelimiter (c : char) : bool :=
  existsb (N.eqb c) (units "(){}[];,.").

Definition matchDelimiter (input : list char) : option (list char) :=
  match input with
  | c :: _ => if isDelimiter c then Some [c] else None
  | [] => None
  end.

(** [/^[\s\r\n\t]+/]. *)
Definition matchWhitespace (input : list char) : option (list char) :=
  match takeWhile isSpace input with
  | [] => None
  | value => Some value
  end.

(** The lazy [[\s\S]*?\*\/]: the number of code units up to and including
    the first [*/]. *)
Fixpoint scanBlockComment (body : list char) : option nat :=
  match body with
  | [] => None
  | c :: rest =>
      match rest with
      | d :: _ =>
          if (c =? 42) && (d =? 47) then Some 2%nat
          else S <$> scanBlockComment rest
      | [] => None
      end
  end.

(** [/^\/\/.*$|^\/\*[\s\S]*?\*\//], without the [m] flag: [$] is the end of
    the input, so a line comment matches only when no line terminator
    follows it. *)
Definition matchComment (input : list char) : option (list char) :=
  if startsWith (units "//") input
     && forallb (fun c => negb (isLineTerminator c)) (drop 2 input)
  then Some input
  else if startsWith (units "/*") input
  then (fun n => take (2 + n) input) <$> scanBlockComment (drop 2 input)
  else None.

Inductive TokenType : Type :=
  | KEYWORD | NUMBER | STRING | IDENTIFIER | OPERATOR | DELIMITER
  | WHITESPACE | COMMENT | UNKNOWN.

Global Instance TokenType_eq_dec : EqDecision TokenType.
Proof. solve_decision. Defined.

(** [this.rules], each regular expression as its matcher on
    [code.slice(position)]. *)
Definition rules : list (TokenType * (list char -> option (list char))) :=
  [ (KEYWORD, matchKeyword); (NUMBER, matchNumber); (STRING, matchString);
    (IDENTIFIER, matchIdentifier); (OPERATOR, matchOperator);
    (DELIMITER, matchDelimiter); (WHITESPACE, matchWhitespace);
    (COMMENT, matchComment) ].

Record Token : Type := mkToken {
  type : TokenType;
  value : list char;
  position : nat;
  line : nat;
  column : nat
}.

(** The local variables of [tokenize]. *)
Record Scan : Type := mkScan {
  s_tokens : list Token;
  s_position : nat;
  s_line : nat;
  s_column : nat
}.

(** The [for (let rule of this.rules)] loop up to its [break]. *)
Fixpoint firstRule (rs : list (TokenType * (list char -> option (list char))))
    (slice : list char) : option (TokenType * list char) :=
  match rs with
  | [] => None
  | (ty, regex) :: rs' =>
      match regex slice with
      | Some value => Some (ty, value)
      | None => firstRule rs' slice
      end
  end.

(** [value.split('\n')]: the number of pieces minus one, and the length of
    the last piece. *)
Definition newlines (value : list char) : nat :=
  length (filter (fun c => c = 10) value).

Fixpoint lastLineLength (value : list char) (current : nat) : nat :=
  match value with
  | [] => current
  | c :: value' =>
      if c =? 10 then lastLineLength value' 0%nat
      else lastLineLength value' (S current)
  end.

(** The body of the [while] loop. *)
Definition step (code : list char) (st : Scan) : Scan :=
  let slice := drop (s_position st) code in
  match firstRule rules slice with
  | Some (ty, value) =>
      let tokens :=
        if bool_decide (ty <> WHITESPACE) && bool_decide (ty <> COMMENT)
        then s_tokens st ++ [mkToken ty value (s_position st) (s_line st) (s_column st)]
        else s_tokens st in
      let '(line, column) :=
        if bool_decide (0 < newlines value)%nat
        then ((s_line st + newlines value)%nat, (lastLineLength value 0 + 1)%nat)
        else (s_line st, (s_column st + length value)%nat) in
      mkScan tokens (s_position st + length value)%nat line column
  | None =>
      match slice with
      | unknownChar :: _ =>
          mkScan
            (s_tokens st
               ++ [mkToken UNKNOWN [unknownChar] (s_position st) (s_line st)
                     (s_column st)])
            (s_position st + 1)%nat (s_line st) (s_column st + 1)%nat
      | [] => st
      end
  end.

(** [while (position < code.length) { ... }], cut off after [fuel]
    iterations: [None] means the loop was still running then. *)
Fixpoint loop (fuel : nat) (code : list char) (st : Scan) : option Scan :=
  if bool_decide (s_position st < length code)%nat then
    match fuel with
    | O => None
    | S fuel' => loop fuel' code (step code st)
    end
  else Some st.

Definition start : Scan := mkScan [] 0%nat 1%nat 1%nat.

(** [tokenize(code)]: one iteration per code unit is enough fuel, since
    every iteration moves on by at least one (see [loop_terminates]). *)
Definition tokenize (code : list char) : option (list Token) :=
  s_tokens <$> loop (length code) code start.

(** The engine behind [String.prototype.match].  [scanString] and the
    other matchers give what a pattern matches; the engine that runs the
    patterns backtracks, on a stack of bounded size, and raises RangeError
    when a match needs more of it than there is.  Seven of the patterns
    take a fixed number of entries.  The loop [(...)*] of the STRING pattern
    leaves one entry for every repetition of its group, which it needs to
    give repetitions back when the closing quote does not follow.
    [stringRepetitions quote body] is the number of repetitions that the
    loop goes through on [body]: it goes on to the closing quote, to a
    backslash that no escaped character follows, or to the end of the
    text. *)
Fixpoint stringRepetitions (quote : char) (body : list char) : nat :=
  match body with
  | [] => 0%nat
  | c :: rest =>
      if c =? quote then 0%nat
      else if c =? 92 then
        match rest with
        | e :: rest' =>
            if isLineTerminator e then 0%nat else S (stringRepetitions quote rest')
        | [] => 0%nat
        end
      else S (stringRepetitions quote rest)
  end.

(** The stack entries that the STRING pattern takes on [input]. *)
Definition stringDepth (input : list char) : nat :=
  match input with
  | q :: body =>
      if (q =? 34) || (q =? 39) || (q =? 96) then stringRepetitions q body else 0%nat
  | [] => 0%nat
  end.

(** What a call comes to on that engine: the value it returns, or the
    RangeError that the engine raised and nothing caught. *)
Inductive Outcome (A : Type) : Type :=
  | Returned (value : A)
  | RangeError.

Arguments Returned {A} value.
Arguments RangeError {A}.

(** [slice.match(regex)] for the STRING rule on an engine whose stack
    holds [stack] entries: the match or the null of [matchString], or the
    RangeError when the loop needs more entries than there are. *)
Definition matchStringOn (stack : nat) (input : list char)
    : Outcome (option (list char)) :=
  if bool_decide (stack < stringDepth input)%nat then RangeError
  else Returned (matchString input).

(** Whether the rule search on [slice] throws: the STRING pattern is run
    when KEYWORD and NUMBER have not matched. *)
Definition overflows (stack : nat) (slice : list char) : bool :=
  match matchKeyword slice, matchNumber slice with
  | None, None =>
      match matchStringOn stack slice with
      | RangeError => true
      | Returned _ => false
      end
  | _, _ => false
  end.

(** The loop of [tokenize] on an engine whose stack holds [stack] entries. *)
Fixpoint loopOn (stack fuel : nat) (code : list char) (st : Scan)
    : option (Outcome (list Token)) :=
  if bool_decide (s_position st < length code)%nat then
    match fuel with
    | O => None
    | S fuel' =>
        if overflows stack (drop (s_position st) code) then Some RangeError
        else loopOn stack fuel' code (step code st)
    end
  else Some (Returned (s_tokens st)).

(** [tokenize(code)] on that engine; [tokenize] above is the call on an
    engine whose stack is never full. *)
Definition tokenizeOn (stack : nat) (code : list char)
    : option (Outcome (list Token)) :=
  loopOn stack (length code) code start.

(** [validateTokens(tokens)].  The [message] of an issue is display text and
    is left out. *)
Inductive IssueType : Type :=
  | UnmatchedClosingBracket | MismatchedBrackets | UnclosedBracket | UnknownToken.

Record Issue : Type := mkIssue {
  i_type : IssueType;
  i_line : nat;
  i_column : nat
}.

(** An entry of [bracketStack]. *)
Record OpenBracket : Type := mkOpenBracket {
  b_type : list char;
  b_index : nat;
  b_line : nat;
  b_column : nat
}.

(** [errors], [warnings] and [bracketStack] while the tokens are visited; the
    stack is kept with its top first. *)
Record Validation : Type := mkValidation {
  v_errors : list Issue;
  v_warnings : list Issue;
  v_stack : list OpenBracket
}.

Definition isOpening (token : Token) : bool :=
  bool_decide (type token = DELIMITER)
  && existsb (fun b => bool_decide (value token = units b)) ["("; "["; "{"]%string.

Definition isClosing (token : Token) : bool :=
  bool_decide (type token = DELIMITER)
  && existsb (fun b => bool_decide (value token = units b)) [")"; "]"; "}"]%string.

(** [bracketPairs[opener]]. *)
Definition bracketPairs (opener : list char) : option (list char) :=
  if bool_decide (opener = units "(") then Some (units ")")
  else if bool_decide (opener = units "[") then Some (units "]")
  else if bool_decide (opener = units "{") then Some (units "}")
  else None.

(** The callback of [tokens.forEach((token, index) => ...)]. *)
Definition validateStep (index : nat) (token : Token) (st : Validation) : Validation :=
  let st1 :=
    if isOpening token then
      mkValidation (v_errors st) (v_warnings st)
        (mkOpenBracket (value token) index (line token) (column token) :: v_stack st)
    else if isClosing token then
      match v_stack st with
      | [] =>
          mkValidation
            (v_errors st ++ [mkIssue UnmatchedClosingBracket (line token) (column token)])
            (v_warnings st) []
      | lastOpen :: rest =>
          if bool_decide (bracketPairs (b_type lastOpen) <> Some (value token))
          then
            mkValidation
              (v_errors st ++ [mkIssue MismatchedBrackets (line token) (column token)])
              (v_warnings st) rest
          else mkValidation (v_errors st) (v_warnings st) rest
      end
    else st in
  if bool_decide (type token = UNKNOWN)
  then
    mkValidation (v_errors st1)
      (v_warnings st1 ++ [mkIssue UnknownToken (line token) (column token)])
      (v_stack st1)
  else st1.

Fixpoint validateLoop (tokens : list Token) (index : nat) (st : Validation)
    : Validation :=
  match tokens with
  | [] => st
  | token :: rest => validateLoop rest (S index) (validateStep index token st)
  end.

Record ValidationResult : Type := mkValidationResult {
  isValid : bool;
  errors : list Issue;
  warnings : list Issue
}.

Definition validateTokens (tokens : list Token) : ValidationResult :=
  let st := validateLoop tokens 0%nat (mkValidation [] [] []) in
  let errors :=
    v_errors st
      ++ map (fun bracket => mkIssue UnclosedBracket (b_line bracket) (b_column bracket))
           (rev (v_stack st)) in
  mkValidationResult (Nat.eqb (length errors) 0) errors (v_warnings st).

(** [weights[token.type] || 1]: the two types without a weight count 1. *)
Definition weight (ty : TokenType) : Decimal :=
  match ty with
  | KEYWORD => Decimal.new 2
  | IDENTIFIER | NUMBER | STRING => Decimal.new 1
  | OPERATOR => Decimal.new 1.5
  | DELIMITER => Decimal.new 0.5
  | UNKNOWN => Decimal.new 3
  | WHITESPACE | COMMENT => Decimal.new 1
  end.

(** The sum that the [forEach] of [calculateComplexity] builds. *)
Definition complexitySum (tokens : list Token) : Decimal :=
  fold_left (fun complexity token => (complexity + weight (type token))%Qc) tokens
    (Decimal.new 0).

(** [Math.round(x)]: the integer below [x + 0.5]. *)
Definition round (x : Decimal) : Z := Qfloor (x + Decimal.new 0.5)%Qc.

(** [Math.round(complexity * 10) / 10]. *)
Definition calculateComplexity (tokens : list Token) : Decimal :=
  (Decimal.of_Z (round (complexitySum tokens * Decimal.new 10)) / Decimal.new 10)%Qc.

(** [code.trim()]: the white space and line terminators that [trim] strips
    are the characters of [\s]. *)
Fixpoint dropWhile (f : char -> bool) (input : list char) : list char :=
  match input with
  | c :: input' => if f c then dropWhile f input' else input
  | [] => []
  end.

Definition trim (input : list char) : list char :=
  rev (dropWhile isSpace (rev (dropWhile isSpace input))).
End Tokenizer.

(** ** core/game.js, the actions that need the stage-3 modules and the tokenizer *)

Module GameActions.
Local Open Scope Qc_scope.

(** [Game.upgradeOptimization(techKey)]. *)
Definition upgradeOptimization (techKey : string) (s : GameState.t) : bool * GameState.t :=
  let '(success, balance, o) :=
    CodeOptimizer.upgradeOptimization techKey
      (GameState.r_optimizedCode (GameState.resources s)) (GameState.codeOptimizer s) in
  (success,
   GameState.withStage3Modules (GameState.codeGenerator s) o
     (GameState.withResources
        (GameState.set optimizedCode balance (GameState.resources s)) s)).

(** [Game.deployTo(platform)]. *)
Definition deployTo (platform : string) (s : GameState.t) : bool * GameState.t :=
  let '(success, a) :=
    PerformanceAnalyzer.deployTo platform (GameState.performanceAnalyzer s) in
  (success,
   GameState.mk (GameState.resources s) (GameState.upgrades s) (GameState.prestige s)
     (GameState.stage3 s) (GameState.buyAmount s) (GameState.devMode s)
     (GameState.startTime s) (GameState.lastSaveTime s) (GameState.stats s)
     (GameState.codeGenerator s) (GameState.codeOptimizer s) a
     (GameState.prestigeUpgrades s)).

(** [Game.runLexicalAnalysis()] for the text [input] of the code field; the
    reads and writes of the page are left out.  [tokenize] always returns,
    so its [None] leaves the engine as it is. *)
Definition runLexicalAnalysis (input : list N) (s : GameState.t) : GameState.t :=
  let code := Tokenizer.trim input in
  match code with
  | [] => s
  | _ :: _ =>
      match Tokenizer.tokenize code with
      | None => s
      | Some emittedTokens =>
          let manualMultiplier := Game.getManualTokenMultiplier s in
          let tokensGained :=
            Decimal.mul (Decimal.of_Z (Z.of_nat (length emittedTokens)))
              manualMultiplier in
          let st := GameState.stats s in
          GameState.mk
            (GameState.set tokens
               (Decimal.add (GameState.r_tokens (GameState.resources s)) tokensGained)
               (GameState.resources s))
            (GameState.upgrades s) (GameState.prestige s) (GameState.stage3 s)
            (GameState.buyAmount s) (GameState.devMode s) (GameState.startTime s)
            (GameState.lastSaveTime s)
            (GameState.mkStats (GameState.totalTokensGenerated st)
               (GameState.totalNodesBuilt st) (GameState.totalCodeGenerated st)
               (GameState.totalPlayTime st) (GameState.clickCount st + 1)%Z
               (GameState.upgradesPurchased st))
            (GameState.codeGenerator s) (GameState.codeOptimizer s)
            (GameState.performanceAnalyzer s) (GameState.prestigeUpgrades s)
      end
  end.
End GameActions.

(** ** Notions used in the statements *)

(** The amount that [generateCode] returns for a positive input, as a
    function of the template efficiency, the optimization level and the
    total generated so far. *)
Definition generation (astNodes efficiency optimizationLevel totalGenerated : Decimal)
    : Decimal :=
  (astNodes * efficiency * (Decimal.new 1 + optimizationLevel * Decimal.new 0.1)
   * (Decimal.new 1 + totalGenerated / Decimal.new 10000 * Decimal.new 0.05))%Qc.

(** The price of a level as the claim writes it, the product not rounded,
    and the sum of the prices of [count] levels from [from]. *)
Definition exactCost (d : UpgradeData) (level : Z) : Decimal :=
  (baseCost d * Decimal.pow (growth d) level)%Qc.

Definition exactSum (d : UpgradeData) (from count : Z) : Decimal :=
  foldr Qcplus 0%Qc (map (exactCost d) (seqZ from count)).

(** A match consumes something, and what it consumes stands at the head of
    the slice. *)
Definition consumes (slice value : list N) : Prop :=
  value <> [] /\ value `prefix_of` slice.

(** What holds of every token that [tokenize] has emitted: its value is the
    text of [code] at its position, and an [UNKNOWN] token is one code unit
    long. *)
Definition emitted (code : list N) (t : Tokenizer.Token) : Prop :=
  Tokenizer.value t `prefix_of` drop (Tokenizer.position t) code
  /\ (Tokenizer.type t = Tokenizer.UNKNOWN -> length (Tokenizer.value t) = 1%nat).

(** Where a position of [code] is: the line is one more than the number of
    line feeds before it, the column one more than the number of code units
    since the last of them. *)
Definition located (code : list N) (position line column : nat) : Prop :=
  line = (1 + length (filter (fun c => c = 10%N) (take position code)))%nat
  /\ column
     = (1 + length (Tokenizer.takeWhile (fun c => negb (c =? 10)%N)
                      (rev (take position code))))%nat.

(** The tokens lie side by side before [bound], in the order of the list;
    none is empty, none is white space or a comment. *)
Definition laidOut (tokens : list Tokenizer.Token) (bound : nat) : Prop :=
  (forall i j ti tj,
     tokens !! i = Some ti -> tokens !! j = Some tj -> (i < j)%nat ->
     (Tokenizer.position ti + length (Tokenizer.value ti)
      <= Tokenizer.position tj)%nat)
  /\ (forall t, t ∈ tokens ->
        (1 <= length (Tokenizer.value t))%nat
        /\ (Tokenizer.position t + length (Tokenizer.value t) <= bound)%nat
        /\ Tokenizer.type t <> Tokenizer.WHITESPACE
        /\ Tokenizer.type t <> Tokenizer.COMMENT)
  /\ (length tokens <= bound)%nat.

(** The state of the loop of [tokenize] after [i] iterations. *)
Definition scan (code : list N) (i : nat) : Tokenizer.Scan :=
  Nat.iter i (Tokenizer.step code) Tokenizer.start.

(** The code units of a text that are not white space. *)
Definition visible (text : list N) : list N :=
  filter (fun c => Tokenizer.isSpace c = false) text.

(** A token list with balanced brackets: nothing, a token that is no
    bracket followed by a balanced list, a balanced list between an opening
    bracket and its closing bracket, or two balanced lists in a row. *)
Inductive balanced : list Tokenizer.Token -> Prop :=
  | balanced_nil : balanced []
  | balanced_other token rest :
      Tokenizer.isOpening token = false -> Tokenizer.isClosing token = false ->
      balanced rest -> balanced (token :: rest)
  | balanced_wrap opener closer inner :
      Tokenizer.isOpening opener = true -> Tokenizer.isClosing closer = true ->
      Tokenizer.bracketPairs (Tokenizer.value opener) = Some (Tokenizer.value closer) ->
      balanced inner -> balanced (opener :: inner ++ [closer])
  | balanced_app left right :
      balanced left -> balanced right -> balanced (left ++ right).

(** The tokens read so far, given the brackets that are still open (the
    innermost first): a balanced list, then for each open bracket its token
    and a balanced list. *)
Inductive pending : list Tokenizer.OpenBracket -> list Tokenizer.Token -> Prop :=
  | pending_nil read : balanced read -> pending [] read
  | pending_open stack read bracket opener inner :
      pending stack read -> Tokenizer.isOpening opener = true ->
      Tokenizer.b_type bracket = Tokenizer.value opener -> balanced inner ->
      pending (bracket :: stack) (read ++ opener :: inner).

(** Twice the weight that [calculateComplexity] gives a token type. *)
Definition doubleWeight (ty : Tokenizer.TokenType) : Z :=
  match ty with
  | Tokenizer.KEYWORD => 4
  | Tokenizer.IDENTIFIER | Tokenizer.NUMBER | Tokenizer.STRING => 2
  | Tokenizer.OPERATOR => 3
  | Tokenizer.DELIMITER => 1
  | Tokenizer.UNKNOWN => 6
  | Tokenizer.WHITESPACE | Tokenizer.COMMENT => 2
  end.

(** Every balance of the ledger is at least zero. *)
Definition solvent (rs : GameState.Resources) : Prop :=
  forall name, (0 <= GameState.get name rs)%Qc.

(** Every technique of the optimizer is one of the catalogue, at a level
    between zero and the maximum of the catalogue. *)
Definition boundedLevels (o : CodeOptimizer.t) : Prop :=
  forall key optimization,
    CodeOptimizer.optimizations o !! key = Some optimization ->
    exists tech,
      assoc key OPTIMIZATION_TECHS = Some tech
      /\ (0 <= CodeOptimizer.level optimization <= maxLevel tech)%Z.

(** The statistics of every platform are those of a list of scores that are
    not negative: a count, the sum of the scores, a best score that the sum
    covers, and the mean. *)
Definition soundStats (a : PerformanceAnalyzer.t) : Prop :=
  forall platform stats,
    PerformanceAnalyzer.deploymentStats a !! platform = Some stats ->
    (0 <= PerformanceAnalyzer.totalDeployments stats)%Z
    /\ (0 <= PerformanceAnalyzer.bestScore stats)%Qc
    /\ (PerformanceAnalyzer.bestScore stats
        <= PerformanceAnalyzer.cumulativeScore stats)%Qc
    /\ (PerformanceAnalyzer.averageScore stats
        * Decimal.of_Z (PerformanceAnalyzer.totalDeployments stats)
        = PerformanceAnalyzer.cumulativeScore stats)%Qc.

(** The sum of the cumulative scores of all platforms, as
    [checkPlatformUnlock] adds them up. *)
Definition totalScore (a : PerformanceAnalyzer.t) : Decimal :=
  map_fold
    (fun _ stats sum => Decimal.add sum (PerformanceAnalyzer.cumulativeScore stats))
    (Decimal.new 0) (PerformanceAnalyzer.deploymentStats a).

(** ** Sample engines *)

Module Samples.

Definition withTokens (v : Decimal) (s : GameState.t) : GameState.t :=
  GameState.withResources (GameState.set tokens v (GameState.resources s)) s.

Definition withAstNodes (v : Decimal) (s : GameState.t) : GameState.t :=
  GameState.withResources (GameState.set astNodes v (GameState.resources s)) s.

Definition withLevel (upgradeKey : string) (level : Z) (s : GameState.t) : GameState.t :=
  GameState.mk (GameState.resources s) (<[upgradeKey := level]> (GameState.upgrades s))
    (GameState.prestige s) (GameState.stage3 s) (GameState.buyAmount s)
    (GameState.devMode s) (GameState.startTime s) (GameState.lastSaveTime s)
    (GameState.stats s) (GameState.codeGenerator s) (GameState.codeOptimizer s)
    (GameState.performanceAnalyzer s) (GameState.prestigeUpgrades s).

Definition withAnalyzer (a : PerformanceAnalyzer.t) (s : GameState.t) : GameState.t :=
  GameState.mk (GameState.resources s) (GameState.upgrades s) (GameState.prestige s)
    (GameState.stage3 s) (GameState.buyAmount s) (GameState.devMode s)
    (GameState.startTime s) (GameState.lastSaveTime s) (GameState.stats s)
    (GameState.codeGenerator s) (GameState.codeOptimizer s) a
    (GameState.prestigeUpgrades s).

(** A new game with 500 tokens, and one with 100000. *)
Definition poor : GameState.t := withTokens (Decimal.new 500) (GameState.new 0).
Definition rich : GameState.t := withTokens (Decimal.new 100000) (GameState.new 0).

(** An analyzer that has scored one deployment through [analyzeCode]. *)
Definition analyzedOnce : PerformanceAnalyzer.t :=
  (PerformanceAnalyzer.analyzeCode 0 (Decimal.new 100) PerformanceAnalyzer.init).2.

(** 100000 tokens and one scored deployment. *)
Definition deployed : GameState.t := withAnalyzer analyzedOnce rich.

Definition fed : GameState.t :=
  withLevel "auto-parser-1" 10 (withTokens (Decimal.new 100) (GameState.new 0)).

(** A balance of 102 digits, one token short of [1000 * n * n] for
    [n = 10^49 + 7]. *)
Definition huge : GameState.t :=
  withTokens (Decimal.of_Z (1000 * (10 ^ 49 + 7) * (10 ^ 49 + 7) - 1)) (GameState.new 0).

(** 1500.5 tokens, 20.25 AST nodes, 3 of generated and 2 of optimized code:
    a weighted total of 4003. *)
Definition mixed : GameState.t :=
  GameState.withResources
    (GameState.mkResources (Decimal.new 1500.5) (Decimal.new 20.25) (Decimal.new 3)
       (Decimal.new 2) (Decimal.new 0))
    (GameState.new 0).


(** 1000 AST nodes, after [checkStage3Unlock]. *)
Definition stage3Open : GameState.t :=
  GameState.checkStage3Unlock (withAstNodes (Decimal.new 1000) (GameState.new 0)).

End Samples.

(** * Properties *)

(** Closed comparisons of decimals are settled by evaluation. *)
Ltac qc_decide := apply (bool_decide_unpack _); vm_compute; exact I.

(** ** Decimal arithmetic *)

Section DecimalFacts.
Local Open Scope Qc_scope.

Lemma of_Z_le (a b : Z) : (a <= b)%Z -> Decimal.of_Z a <= Decimal.of_Z b.
Proof.
  intros H. unfold Decimal.of_Z, Qcle. cbn [this Q2Qc].
  rewrite !Qred_correct. by rewrite <- Zle_Qle.
Qed.

Lemma of_Z_mul (a b : Z) : Decimal.of_Z (a * b) = Decimal.of_Z a * Decimal.of_Z b.
Proof.
  apply Qc_is_canon. unfold Decimal.of_Z. cbn [this Q2Qc Qcmult].
  rewrite !Qred_correct. rewrite inject_Z_mult. reflexivity.
Qed.

Lemma of_Z_floor_le (x : Qc) : Decimal.of_Z (Qfloor x) <= x.
Proof.
  unfold Decimal.of_Z, Qcle. cbn [this Q2Qc]. rewrite Qred_correct. apply Qfloor_le.
Qed.

Lemma lt_of_Z_floor_succ (x : Qc) : x < Decimal.of_Z (Qfloor x + 1).
Proof.
  unfold Decimal.of_Z, Qclt. cbn [this Q2Qc]. rewrite Qred_correct. apply Qlt_floor.
Qed.

Lemma floor_nonneg (x : Qc) : 0 <= x -> (0 <= Qfloor x)%Z.
Proof. intros H. rewrite <- (Qfloor_Z 0). apply Qfloor_resp_le. exact H. Qed.

Lemma floor_below_one (x : Qc) : x < 1 -> (Qfloor x <= 0)%Z.
Proof.
  intros H. cut (Qfloor x < 1)%Z; [lia|].
  rewrite Zlt_Qlt. eapply Qle_lt_trans; [apply Qfloor_le|exact H].
Qed.

Lemma div_1000_nonneg (x : Qc) : 0 <= x -> 0 <= Decimal.div x (Decimal.new 1000).
Proof.
  intros H. unfold Decimal.div, Qcdiv. apply Qcmult_nonneg_nonneg; [exact H|qc_decide].
Qed.

Lemma div_1000_lt_1 (x : Qc) :
  x < Decimal.new 1000 -> Decimal.div x (Decimal.new 1000) < 1.
Proof.
  intros H. unfold Decimal.div, Qcdiv.
  replace 1 with (Decimal.new 1000 * / Decimal.new 1000)
    by (apply Qc_is_canon; vm_compute; reflexivity).
  apply Qcmult_lt_compat_r; [qc_decide|exact H].
Qed.

End DecimalFacts.

Section Digits.
Local Open Scope Z_scope.

Lemma digitsFrom_spec (fuel : nat) (n : Z) :
  0 < n < 2 ^ Z.of_nat fuel ->
  1 <= Decimal.digitsFrom fuel n
  /\ 10 ^ (Decimal.digitsFrom fuel n - 1) <= n < 10 ^ Decimal.digitsFrom fuel n.
Proof.
  revert n. induction fuel as [|fuel IH]; intros n [Hpos Hlt].
  - cbn in Hlt. lia.
  - cbn [Decimal.digitsFrom]. destruct (Z.ltb_spec n 10) as [Hsmall|Hbig].
    + split; [lia|]. cbn. lia.
    + assert (Hdiv : 0 < n / 10 < 2 ^ Z.of_nat fuel).
      { split; [apply Z.div_str_pos; lia|].
        rewrite Nat2Z.inj_succ, Z.pow_succ_r in Hlt by lia.
        apply Z.div_lt_upper_bound; lia. }
      destruct (IH _ Hdiv) as (Hd & Hlo & Hhi).
      set (k := Decimal.digitsFrom fuel (n / 10)) in *.
      replace (1 + k - 1) with (Z.succ (k - 1)) by lia.
      replace (1 + k) with (Z.succ k) by lia.
      rewrite !Z.pow_succ_r by lia.
      pose proof (Z.div_mod n 10 ltac:(lia)) as Hdm.
      pose proof (Z.mod_pos_bound n 10 ltac:(lia)) as Hmod.
      split; [lia|]. split; lia.
Qed.

Lemma digits_spec (n : Z) :
  0 < n ->
  1 <= Decimal.digits n
  /\ 10 ^ (Decimal.digits n - 1) <= n < 10 ^ Decimal.digits n.
Proof.
  intros Hn. apply digitsFrom_spec. split; [done|].
  destruct (Z.log2_spec n Hn) as [_ H].
  rewrite Nat2Z.inj_succ, Z2Nat.id by apply Z.log2_nonneg. exact H.
Qed.
End Digits.

Section Rounding.
Local Open Scope Q_scope.

Lemma ten_pos (z : Z) : 0 < 10 ^ z.
Proof. by apply Qpower_0_lt. Qed.

Lemma ten_add (a b : Z) : 10 ^ (a + b) == 10 ^ a * 10 ^ b.
Proof. by apply Qpower_plus. Qed.

Lemma ten_le (a b : Z) : (a <= b)%Z -> 10 ^ a <= 10 ^ b.
Proof. intros H. by apply Qpower_le_compat_l. Qed.

Lemma ten_lt (a b : Z) : (a < b)%Z -> 10 ^ a < 10 ^ b.
Proof. intros H. by apply Qpower_lt_compat_l. Qed.

Lemma ten_lt_inv (a b : Z) : 10 ^ a < 10 ^ b -> (a < b)%Z.
Proof.
  intros H. destruct (Z.lt_ge_cases a b) as [|Hge]; [done|].
  apply ten_le in Hge. lra.
Qed.

Lemma ten_inject (n : Z) : (0 <= n)%Z -> inject_Z (10 ^ n) == 10 ^ n.
Proof. intros H. by rewrite Zpower_Qpower. Qed.

Lemma Q_fraction (x : Q) : x * inject_Z (Zpos (Qden x)) == inject_Z (Qnum x).
Proof.
  destruct x as [p q]. unfold Qeq, Qmult, inject_Z. cbn. lia.
Qed.

Lemma exponent_spec (x : Q) :
  0 < x -> 10 ^ Decimal.exponent x <= x /\ x < 10 ^ (Decimal.exponent x + 1).
Proof.
  intros Hx. unfold Decimal.exponent.
  assert (Hp : (0 < Qnum x)%Z).
  { destruct x as [p q]. unfold Qlt in Hx. cbn in *. lia. }
  destruct (digits_spec _ Hp) as (Hdp & Hplo & Hphi).
  destruct (digits_spec (Zpos (Qden x)) ltac:(lia)) as (Hdq & Hqlo & Hqhi).
  set (dp := Decimal.digits (Qnum x)) in *.
  set (dq := Decimal.digits (Zpos (Qden x))) in *.
  pose proof (Q_fraction x) as Hfrac.
  set (P := inject_Z (Qnum x)) in *. set (D := inject_Z (Zpos (Qden x))) in *.
  assert (HP1 : 10 ^ (dp - 1) <= P).
  { rewrite <- ten_inject by lia. unfold P. by rewrite <- Zle_Qle. }
  assert (HP2 : P < 10 ^ dp).
  { rewrite <- ten_inject by lia. unfold P. by rewrite <- Zlt_Qlt. }
  assert (HD1 : 10 ^ (dq - 1) <= D).
  { rewrite <- ten_inject by lia. unfold D. by rewrite <- Zle_Qle. }
  assert (HD2 : D < 10 ^ dq).
  { rewrite <- ten_inject by lia. unfold D. by rewrite <- Zlt_Qlt. }
  assert (Hlow : 10 ^ (dp - dq - 1) < x).
  { pose proof (ten_add (dp - dq - 1) dq) as E.
    replace (dp - dq - 1 + dq)%Z with (dp - 1)%Z in E by lia.
    pose proof (ten_pos (dp - dq - 1)). pose proof (ten_pos (dq - 1)). nra. }
  assert (Hhigh : x < 10 ^ (dp - dq + 1)).
  { pose proof (ten_add (dp - dq + 1) (dq - 1)) as E.
    replace (dp - dq + 1 + (dq - 1))%Z with dp in E by lia.
    pose proof (ten_pos (dp - dq + 1)). pose proof (ten_pos (dq - 1)). nra. }
  destruct (Qle_bool (10 ^ (dp - dq)) x) eqn:E.
  - apply Qle_bool_iff in E. by split.
  - assert (Hn : ~ 10 ^ (dp - dq) <= x).
    { intros H. apply Qle_bool_iff in H. congruence. }
    replace (dp - dq - 1 + 1)%Z with (dp - dq)%Z by lia. split; lra.
Qed.

Lemma exponent_unique (x : Q) (e : Z) :
  10 ^ e <= x -> x < 10 ^ (e + 1) -> Decimal.exponent x = e.
Proof.
  intros Hlo Hhi.
  assert (Hx : 0 < x) by (pose proof (ten_pos e); lra).
  destruct (exponent_spec x Hx) as [Hlo' Hhi'].
  assert (H1 : 10 ^ e < 10 ^ (Decimal.exponent x + 1)) by lra.
  assert (H2 : 10 ^ Decimal.exponent x < 10 ^ (e + 1)) by lra.
  apply ten_lt_inv in H1, H2. lia.
Qed.

Lemma floor_unique (y : Q) (m : Z) :
  inject_Z m <= y -> y < inject_Z (m + 1) -> Qfloor y = m.
Proof.
  intros Hlo Hhi. pose proof (Qfloor_le y) as H1. pose proof (Qlt_floor y) as H2.
  assert (H3 : inject_Z (Qfloor y) < inject_Z (m + 1)) by lra.
  assert (H4 : inject_Z m < inject_Z (Qfloor y + 1)) by lra.
  rewrite <- Zlt_Qlt in H3, H4. lia.
Qed.

Lemma floor_half (m : Z) : Qfloor (inject_Z m + (1 # 2)) = m.
Proof.
  apply floor_unique; [lra|]. rewrite inject_Z_plus. change (inject_Z 1) with 1. lra.
Qed.

Lemma div_ten (x : Q) (z : Z) : x / 10 ^ z == x * 10 ^ (- z).
Proof. unfold Qdiv. by rewrite Qpower_opp. Qed.

Lemma ten_cancel (z : Z) : 10 ^ (- z) * 10 ^ z == 1.
Proof. rewrite <- ten_add. by replace (- z + z)%Z with 0%Z by lia. Qed.

(** The coefficient of the rounded value lies between 10^(sd-1) and 10^sd. *)
Lemma coefficient_bounds (sd : Z) (x : Q) :
  (1 <= sd)%Z -> 0 < x ->
  let ulp := 10 ^ (Decimal.exponent x + 1 - sd) in
  (10 ^ (sd - 1) <= Qfloor (x / ulp + (1 # 2)) <= 10 ^ sd)%Z.
Proof.
  intros Hsd Hx ulp. destruct (exponent_spec x Hx) as [Hlo Hhi].
  set (e := Decimal.exponent x) in *.
  assert (Hy1 : 10 ^ (sd - 1) <= x / ulp).
  { unfold ulp. rewrite div_ten.
    pose proof (ten_add e (- (e + 1 - sd))) as E.
    replace (e + - (e + 1 - sd))%Z with (sd - 1)%Z in E by lia.
    pose proof (ten_pos (- (e + 1 - sd))). rewrite E. nra. }
  assert (Hy2 : x / ulp < 10 ^ sd).
  { unfold ulp. rewrite div_ten.
    pose proof (ten_add (e + 1) (- (e + 1 - sd))) as E.
    replace (e + 1 + - (e + 1 - sd))%Z with sd in E by lia.
    pose proof (ten_pos (- (e + 1 - sd))). rewrite E. nra. }
  rewrite <- ten_inject in Hy1, Hy2 by lia. split.
  - rewrite <- (Qfloor_Z (10 ^ (sd - 1))). apply Qfloor_resp_le. lra.
  - pose proof (Qfloor_le (x / ulp + (1 # 2))) as Hf.
    assert (H : inject_Z (Qfloor (x / ulp + (1 # 2))) < inject_Z (10 ^ sd + 1)).
    { rewrite inject_Z_plus. change (inject_Z 1) with 1. lra. }
    rewrite <- Zlt_Qlt in H. lia.
Qed.

Lemma roundPositive_bounds (sd : Z) (x : Q) :
  (1 <= sd)%Z -> 0 < x ->
  10 ^ Decimal.exponent x <= Decimal.roundPositive sd x
  /\ Decimal.roundPositive sd x <= 10 ^ (Decimal.exponent x + 1).
Proof.
  intros Hsd Hx. pose proof (coefficient_bounds sd x Hsd Hx) as [Hlo Hhi].
  cbv zeta in Hlo, Hhi. unfold Decimal.roundPositive.
  set (e := Decimal.exponent x) in *.
  set (c := Qfloor _) in *.
  rewrite Zle_Qle in Hlo, Hhi. rewrite !ten_inject in Hlo, Hhi by lia.
  pose proof (ten_pos (e + 1 - sd)) as Hu.
  pose proof (ten_add (sd - 1) (e + 1 - sd)) as E1.
  replace (sd - 1 + (e + 1 - sd))%Z with e in E1 by lia.
  pose proof (ten_add sd (e + 1 - sd)) as E2.
  replace (sd + (e + 1 - sd))%Z with (e + 1)%Z in E2 by lia.
  split; nra.
Qed.

Lemma roundPositive_mono (sd : Z) (x y : Q) :
  (1 <= sd)%Z -> 0 < x -> x <= y ->
  Decimal.roundPositive sd x <= Decimal.roundPositive sd y.
Proof.
  intros Hsd Hx Hxy. assert (Hy : 0 < y) by lra.
  destruct (exponent_spec x Hx) as [Hxlo Hxhi].
  destruct (exponent_spec y Hy) as [Hylo Hyhi].
  destruct (Z.eq_dec (Decimal.exponent x) (Decimal.exponent y)) as [He|Hne].
  - unfold Decimal.roundPositive. rewrite He.
    set (ulp := 10 ^ (Decimal.exponent y + 1 - sd)).
    pose proof (ten_pos (Decimal.exponent y + 1 - sd)) as Hu. fold ulp in Hu.
    assert (Hdiv : x / ulp + (1 # 2) <= y / ulp + (1 # 2)).
    { apply Qplus_le_l. unfold Qdiv. apply Qmult_le_compat_r; [done|].
      apply Qlt_le_weak, Qinv_lt_0_compat, Hu. }
    apply Qfloor_resp_le in Hdiv. rewrite Zle_Qle in Hdiv. nra.
  - assert (Hlt : (Decimal.exponent x < Decimal.exponent y)%Z).
    { assert (H : 10 ^ Decimal.exponent x < 10 ^ (Decimal.exponent y + 1)) by lra.
      apply ten_lt_inv in H. lia. }
    destruct (roundPositive_bounds sd x Hsd Hx) as [_ Hup].
    destruct (roundPositive_bounds sd y Hsd Hy) as [Hdown _].
    pose proof (ten_le (Decimal.exponent x + 1) (Decimal.exponent y) ltac:(lia)).
    lra.
Qed.

(** A positive integer of at most [sd] digits, times a power of ten, is
    left as it is. *)
Lemma roundPositive_exact (sd : Z) (x : Q) (n j : Z) :
  (1 <= sd)%Z -> (0 < n < 10 ^ sd)%Z -> x == inject_Z n * 10 ^ j ->
  Decimal.roundPositive sd x == x.
Proof.
  intros Hsd [Hn1 Hn2] Hx.
  assert (Hpos : 0 < x).
  { rewrite Hx. pose proof (ten_pos j). rewrite Zlt_Qlt in Hn1.
    change (inject_Z 0) with 0 in Hn1. nra. }
  destruct (exponent_spec x Hpos) as [Hlo Hhi].
  unfold Decimal.roundPositive. set (e := Decimal.exponent x) in *.
  assert (Hej : (e < sd + j)%Z).
  { apply ten_lt_inv. eapply Qle_lt_trans; [exact Hlo|]. rewrite Hx, ten_add.
    rewrite Zlt_Qlt in Hn2. rewrite ten_inject in Hn2 by lia.
    pose proof (ten_pos j). nra. }
  assert (Hcoef : x / 10 ^ (e + 1 - sd) == inject_Z (n * 10 ^ (j - (e + 1 - sd)))).
  { rewrite inject_Z_mult, ten_inject by lia. rewrite div_ten, Hx.
    replace (j - (e + 1 - sd))%Z with (j + - (e + 1 - sd))%Z by lia.
    rewrite ten_add. ring. }
  rewrite (Qfloor_comp _ _ (Qplus_comp _ _ Hcoef _ _ (Qeq_refl (1 # 2)))).
  rewrite floor_half. rewrite <- Hcoef. rewrite div_ten. 
  rewrite <- Qmult_assoc, ten_cancel. ring.
Qed.

Lemma exponent_comp (x y : Q) : 0 < x -> x == y -> Decimal.exponent x = Decimal.exponent y.
Proof.
  intros Hx Hxy. symmetry. apply exponent_unique; rewrite <- Hxy; by apply exponent_spec.
Qed.

Lemma roundPositive_comp (sd : Z) (x y : Q) :
  0 < x -> x == y -> Decimal.roundPositive sd x == Decimal.roundPositive sd y.
Proof.
  intros Hx Hxy. unfold Decimal.roundPositive.
  rewrite <- (exponent_comp x y Hx Hxy).
  assert (H : x / 10 ^ (Decimal.exponent x + 1 - sd) + (1 # 2)
              == y / 10 ^ (Decimal.exponent x + 1 - sd) + (1 # 2)).
  { apply Qplus_comp; [|reflexivity]. apply Qdiv_comp; [exact Hxy|reflexivity]. }
  by rewrite (Qfloor_comp _ _ H).
Qed.

Lemma roundPositive_idem (sd : Z) (x : Q) :
  (1 <= sd)%Z -> 0 < x ->
  Decimal.roundPositive sd (Decimal.roundPositive sd x) == Decimal.roundPositive sd x.
Proof.
  intros Hsd Hx. pose proof (coefficient_bounds sd x Hsd Hx) as [Hlo Hhi].
  cbv zeta in Hlo, Hhi.
  set (c := Qfloor (x / 10 ^ (Decimal.exponent x + 1 - sd) + (1 # 2))) in *.
  assert (Hc : (0 < 10 ^ (sd - 1))%Z) by (apply Z.pow_pos_nonneg; lia).
  destruct (Z.eq_dec c (10 ^ sd)%Z) as [Heq|Hne].
  - apply (roundPositive_exact sd _ 1 (Decimal.exponent x + 1)); [done| |].
    + split; [lia|]. apply Z.pow_gt_1; lia.
    + unfold Decimal.roundPositive. fold c. rewrite Heq, ten_inject by lia.
      rewrite <- ten_add. replace (sd + (Decimal.exponent x + 1 - sd))%Z
        with (Decimal.exponent x + 1)%Z by lia. change (inject_Z 1) with 1. ring.
  - apply (roundPositive_exact sd _ c (Decimal.exponent x + 1 - sd)); [done|lia|].
    reflexivity.
Qed.

Lemma roundQ_pos (sd : Z) (x : Q) : 0 < x -> Decimal.roundQ sd x = Decimal.roundPositive sd x.
Proof.
  destruct x as [[|p|p] q]; unfold Qlt; cbn; intros H; try lia. reflexivity.
Qed.

Lemma roundQ_zero (sd : Z) (x : Q) : x == 0 -> Decimal.roundQ sd x = 0.
Proof.
  destruct x as [[|p|p] q]; unfold Qeq; cbn; intros H; try lia. reflexivity.
Qed.

Lemma roundQ_neg (sd : Z) (x : Q) :
  x < 0 -> Decimal.roundQ sd x = - Decimal.roundPositive sd (- x).
Proof.
  destruct x as [[|p|p] q]; unfold Qlt; cbn; intros H; try lia. reflexivity.
Qed.

Lemma roundPositive_pos (sd : Z) (x : Q) :
  (1 <= sd)%Z -> 0 < x -> 0 < Decimal.roundPositive sd x.
Proof.
  intros Hsd Hx. destruct (roundPositive_bounds sd x Hsd Hx) as [H _].
  pose proof (ten_pos (Decimal.exponent x)). lra.
Qed.

Lemma roundQ_nonneg (sd : Z) (x : Q) : (1 <= sd)%Z -> 0 <= x -> 0 <= Decimal.roundQ sd x.
Proof.
  intros Hsd Hx. destruct (Qlt_le_dec 0 x) as [Hpos|Hle].
  - rewrite roundQ_pos by done. by apply Qlt_le_weak, roundPositive_pos.
  - rewrite roundQ_zero; [lra|]. lra.
Qed.

Lemma roundQ_nonpos (sd : Z) (x : Q) : (1 <= sd)%Z -> x <= 0 -> Decimal.roundQ sd x <= 0.
Proof.
  intros Hsd Hx. destruct (Qlt_le_dec x 0) as [Hneg|Hle].
  - rewrite roundQ_neg by done.
    pose proof (roundPositive_pos sd (- x) Hsd ltac:(lra)). lra.
  - rewrite roundQ_zero; [lra|]. lra.
Qed.

Lemma roundQ_mono (sd : Z) (x y : Q) :
  (1 <= sd)%Z -> x <= y -> Decimal.roundQ sd x <= Decimal.roundQ sd y.
Proof.
  intros Hsd Hxy. destruct (Qlt_le_dec 0 x) as [Hx|Hx].
  - rewrite !roundQ_pos by lra. by apply roundPositive_mono.
  - destruct (Qlt_le_dec y 0) as [Hy|Hy].
    + rewrite !roundQ_neg by lra.
      pose proof (roundPositive_mono sd (- y) (- x) Hsd ltac:(lra) ltac:(lra)). lra.
    + pose proof (roundQ_nonpos sd x Hsd Hx). pose proof (roundQ_nonneg sd y Hsd Hy). lra.
Qed.

Lemma roundQ_comp (sd : Z) (x y : Q) : x == y -> Decimal.roundQ sd x == Decimal.roundQ sd y.
Proof.
  intros Hxy. destruct (Q_dec 0 x) as [[Hx|Hx]|Hx].
  - rewrite !roundQ_pos by lra. by apply roundPositive_comp.
  - rewrite !roundQ_neg by lra. apply Qopp_comp, roundPositive_comp; [lra|].
    by apply Qopp_comp.
  - rewrite !roundQ_zero; [reflexivity|lra|lra].
Qed.

Lemma roundQ_exact (sd : Z) (x : Q) (n j : Z) :
  (1 <= sd)%Z -> (Z.abs n < 10 ^ sd)%Z -> x == inject_Z n * 10 ^ j ->
  Decimal.roundQ sd x == x.
Proof.
  intros Hsd Hn Hx. pose proof (ten_pos j) as Hj.
  destruct (Z.lt_trichotomy n 0) as [Hneg|[->|Hpos]].
  - assert (Hlt : x < 0).
    { rewrite Hx. rewrite Zlt_Qlt in Hneg. change (inject_Z 0) with 0 in Hneg. nra. }
    rewrite roundQ_neg by done.
    rewrite (roundPositive_exact sd (- x) (- n) j); [ring|done|lia|].
    rewrite Hx, inject_Z_opp. ring.
  - rewrite roundQ_zero; [|rewrite Hx; change (inject_Z 0) with 0; ring].
    rewrite Hx. change (inject_Z 0) with 0. ring.
  - assert (Hgt : 0 < x).
    { rewrite Hx. rewrite Zlt_Qlt in Hpos. change (inject_Z 0) with 0 in Hpos. nra. }
    rewrite roundQ_pos by done. apply (roundPositive_exact sd x n j); [done|lia|done].
Qed.

Lemma roundQ_idem (sd : Z) (x : Q) :
  (1 <= sd)%Z -> Decimal.roundQ sd (Decimal.roundQ sd x) == Decimal.roundQ sd x.
Proof.
  intros Hsd. destruct (Q_dec 0 x) as [[Hx|Hx]|Hx].
  - rewrite (roundQ_pos sd x) by done.
    rewrite roundQ_pos by (by apply roundPositive_pos). by apply roundPositive_idem.
  - rewrite (roundQ_neg sd x) by done.
    pose proof (roundPositive_pos sd (- x) Hsd ltac:(lra)) as Hp.
    rewrite roundQ_neg by lra. apply Qopp_comp.
    rewrite <- (roundPositive_idem sd (- x)) at 2 by (done || lra).
    apply roundPositive_comp; [lra|ring].
  - rewrite (roundQ_zero sd x) by lra. by rewrite roundQ_zero.
Qed.
End Rounding.

Section RoundingQc.
Local Open Scope Qc_scope.

Lemma this_round (x : Qc) : (this (Decimal.round x) == Decimal.roundQ Decimal.precision x)%Q.
Proof. unfold Decimal.round. cbn [this Q2Qc]. apply Qred_correct. Qed.

Lemma round_mono (x y : Qc) : x <= y -> Decimal.round x <= Decimal.round y.
Proof.
  intros H. unfold Qcle. rewrite !this_round. by apply roundQ_mono.
Qed.

Lemma round_idem (x : Qc) : Decimal.round (Decimal.round x) = Decimal.round x.
Proof.
  apply Qc_is_canon. rewrite this_round.
  rewrite (roundQ_comp _ _ _ (this_round x)). rewrite this_round. by apply roundQ_idem.
Qed.

(** A value of at most 100 significant digits is not rounded. *)
Lemma round_exact (x : Qc) (n j : Z) :
  (Z.abs n < 10 ^ Decimal.precision)%Z -> (this x == inject_Z n * 10 ^ j)%Q ->
  Decimal.round x = x.
Proof.
  intros Hn Hx. apply Qc_is_canon. rewrite this_round.
  by apply (roundQ_exact _ _ n j).
Qed.

Lemma round_nonneg (x : Qc) : 0 <= x -> 0 <= Decimal.round x.
Proof.
  intros H. unfold Qcle. rewrite this_round. by apply roundQ_nonneg.
Qed.
End RoundingQc.

Section SquareRoot.
Local Open Scope Q_scope.

(** The digits of the root that [sqrtQ] rounds: the root is between this
    value and the next one of that many decimal places. *)
Lemma sqrt_digits (x : Q) (k : Z) :
  0 <= x ->
  let v := inject_Z (Z.sqrt (Qfloor (x * 10 ^ (2 * k)))) * 10 ^ (- k) in
  0 <= v /\ v * v <= x /\ x < (v + 10 ^ (- k)) * (v + 10 ^ (- k)).
Proof.
  intros Hx v. unfold v. clear v.
  pose proof (ten_pos (2 * k)) as H2k. pose proof (ten_pos (- k)) as Hk.
  set (X := x * 10 ^ (2 * k)).
  assert (HX : 0 <= X) by (unfold X; nra).
  assert (HF : (0 <= Qfloor X)%Z).
  { rewrite <- (Qfloor_Z 0). by apply Qfloor_resp_le. }
  pose proof (Z.sqrt_spec _ HF) as [Hlo Hhi]. cbv zeta in Hlo, Hhi.
  pose proof (Z.sqrt_nonneg (Qfloor X)) as Hr.
  set (r := Z.sqrt (Qfloor X)) in *.
  pose proof (Qfloor_le X) as Hf1. pose proof (Qlt_floor X) as Hf2.
  assert (Hlo' : inject_Z r * inject_Z r <= X).
  { rewrite <- inject_Z_mult. rewrite Zle_Qle in Hlo. lra. }
  assert (Hhi' : X < (inject_Z r + 1) * (inject_Z r + 1)).
  { assert (H : (Qfloor X + 1 <= (r + 1) * (r + 1))%Z) by lia.
    rewrite Zle_Qle in H. rewrite inject_Z_mult, !inject_Z_plus in H.
    change (inject_Z 1) with 1 in H. rewrite inject_Z_plus in Hf2.
    change (inject_Z 1) with 1 in Hf2. lra. }
  assert (Hrq : 0 <= inject_Z r) by (rewrite Zle_Qle in Hr; exact Hr).
  assert (Hx' : x == X * (10 ^ (- k) * 10 ^ (- k))).
  { unfold X. rewrite <- ten_add. replace (- k + - k)%Z with (- (2 * k))%Z by lia.
    rewrite <- Qmult_assoc. rewrite (Qmult_comm (10 ^ (2 * k))), ten_cancel. ring. }
  split; [nra|]. rewrite Hx'.
  set (t := 10 ^ (- k)) in *. assert (Ht : 0 < t * t) by nra. split.
  - assert (E : inject_Z r * t * (inject_Z r * t)
                == inject_Z r * inject_Z r * (t * t)) by ring.
    rewrite E. apply Qmult_le_compat_r; [done|lra].
  - assert (E : (inject_Z r * t + t) * (inject_Z r * t + t)
                == (inject_Z r + 1) * (inject_Z r + 1) * (t * t)) by ring.
    rewrite E. by apply Qmult_lt_compat_r.
Qed.

(** The integer that [sqrtQ] takes the root of has at least 102 digits. *)
Lemma sqrt_root_large (x : Q) :
  0 < x ->
  let k := (Decimal.precision + 1 - Decimal.exponent x / 2)%Z in
  (10 ^ 101 <= Z.sqrt (Qfloor (x * 10 ^ (2 * k))))%Z.
Proof.
  intros Hx k. destruct (exponent_spec x Hx) as [Hlo _].
  set (e := Decimal.exponent x) in *.
  assert (He : (202 <= e + 2 * k)%Z).
  { unfold k, Decimal.precision. pose proof (Z.div_mod e 2 ltac:(lia)).
    pose proof (Z.mod_pos_bound e 2 ltac:(lia)). lia. }
  assert (HX : 10 ^ 202 <= x * 10 ^ (2 * k)).
  { pose proof (ten_le 202 (e + 2 * k) He) as H. rewrite ten_add in H.
    pose proof (ten_pos (2 * k)). nra. }
  rewrite <- (ten_inject 202) in HX by lia. apply Qfloor_resp_le in HX.
  rewrite Qfloor_Z in HX. apply Z.sqrt_le_mono in HX.
  replace (10 ^ 202)%Z with (10 ^ 101 * 10 ^ 101)%Z in HX by (by vm_compute).
  by rewrite Z.sqrt_square in HX by (by vm_compute).
Qed.

Lemma sqrtQ_lower (x : Q) (m : Z) :
  0 < x -> (0 <= m < 10 ^ Decimal.precision)%Z -> inject_Z m * inject_Z m <= x ->
  inject_Z m <= Decimal.sqrtQ x.
Proof.
  intros Hx [Hm0 Hm1] Hsq. unfold Decimal.sqrtQ.
  set (k := (Decimal.precision + 1 - Decimal.exponent x / 2)%Z).
  pose proof (sqrt_digits x k ltac:(lra)) as (Hv0 & Hv1 & Hv2). cbv zeta in Hv0, Hv1, Hv2.
  pose proof (sqrt_root_large x Hx) as Hroot. cbv zeta in Hroot. fold k in Hroot.
  set (r := Z.sqrt (Qfloor (x * 10 ^ (2 * k)))) in *.
  pose proof (ten_pos (- k)) as Hk.
  assert (Hmq : 0 <= inject_Z m) by (rewrite Zle_Qle in Hm0; exact Hm0).
  assert (Hle : inject_Z m <= inject_Z r * 10 ^ (- k)).
  { destruct (Z.le_gt_cases 0 k) as [Hk0|Hk0].
    - assert (Hlt : inject_Z m < inject_Z r * 10 ^ (- k) + 10 ^ (- k)) by nra.
      assert (Hint : inject_Z (m * 10 ^ k) < inject_Z (r + 1)).
      { rewrite inject_Z_mult, inject_Z_plus, ten_inject by done.
        change (inject_Z 1) with 1. pose proof (ten_cancel k) as Hc.
        pose proof (ten_pos k). nra. }
      rewrite <- Zlt_Qlt in Hint. assert (Hz : (m * 10 ^ k <= r)%Z) by lia.
      rewrite Zle_Qle in Hz. rewrite inject_Z_mult, ten_inject in Hz by done.
      pose proof (ten_cancel k) as Hc. pose proof (ten_pos k). nra.
    - assert (H1 : inject_Z m < 10 ^ 100).
      { rewrite <- ten_inject by lia. by rewrite <- Zlt_Qlt. }
      assert (H2 : 10 ^ 101 <= inject_Z r).
      { rewrite <- ten_inject by lia. by rewrite <- Zle_Qle. }
      pose proof (ten_le 0 (- k) ltac:(lia)) as H3. change (10 ^ 0) with 1 in H3.
      pose proof (ten_lt 100 101 ltac:(lia)). pose proof (ten_pos 100). nra. }
  assert (Hm : Decimal.roundQ Decimal.precision (inject_Z m) == inject_Z m).
  { apply (roundQ_exact _ _ m 0); [by unfold Decimal.precision|lia|].
    change (10 ^ 0) with 1. ring. }
  rewrite <- Hm. apply roundQ_mono; [by unfold Decimal.precision|done].
Qed.

Lemma sqrtQ_upper (x w : Q) (n j : Z) :
  0 <= x -> (0 <= n < 10 ^ Decimal.precision)%Z -> w == inject_Z n * 10 ^ j ->
  x <= w * w -> Decimal.sqrtQ x <= w.
Proof.
  intros Hx [Hn0 Hn1] Hw Hsq. unfold Decimal.sqrtQ.
  set (k := (Decimal.precision + 1 - Decimal.exponent x / 2)%Z).
  pose proof (sqrt_digits x k Hx) as (Hv0 & Hv1 & _). cbv zeta in Hv0, Hv1.
  set (v := inject_Z (Z.sqrt (Qfloor (x * 10 ^ (2 * k)))) * 10 ^ (- k)) in *.
  assert (Hw0 : 0 <= w).
  { rewrite Hw. pose proof (ten_pos j). rewrite Zle_Qle in Hn0.
    change (inject_Z 0) with 0 in Hn0. nra. }
  assert (Hle : v <= w) by nra.
  assert (Hr : Decimal.roundQ Decimal.precision w == w).
  { apply (roundQ_exact _ _ n j); [by unfold Decimal.precision|lia|done]. }
  rewrite <- Hr. apply roundQ_mono; [by unfold Decimal.precision|done].
Qed.
End SquareRoot.

Section DecimalValues.
Local Open Scope Qc_scope.

Lemma this_of_Z (n : Z) : (this (Decimal.of_Z n) == inject_Z n)%Q.
Proof. unfold Decimal.of_Z. cbn [this Q2Qc]. apply Qred_correct. Qed.

Lemma this_scaled (n e : Z) : (this (Decimal.scaled n e) == inject_Z n * 10 ^ e)%Q.
Proof. unfold Decimal.scaled. cbn [this Q2Qc]. apply Qred_correct. Qed.

Lemma scaled_0 (n : Z) : Decimal.scaled n 0 = Decimal.of_Z n.
Proof.
  apply Qc_is_canon. rewrite this_scaled, this_of_Z. change (10 ^ 0)%Q with 1%Q. ring.
Qed.

Lemma round_scaled (n e : Z) :
  (Z.abs n < 10 ^ Decimal.precision)%Z ->
  Decimal.round (Decimal.scaled n e) = Decimal.scaled n e.
Proof. intros H. apply (round_exact _ n e H). apply this_scaled. Qed.

Lemma round_of_Z (n : Z) :
  (Z.abs n < 10 ^ Decimal.precision)%Z -> Decimal.round (Decimal.of_Z n) = Decimal.of_Z n.
Proof. intros H. rewrite <- scaled_0. by apply round_scaled. Qed.

Lemma scaled_add (a b e : Z) :
  Decimal.scaled a e + Decimal.scaled b e = Decimal.scaled (a + b) e.
Proof.
  apply Qc_is_canon. cbn [this Qcplus Q2Qc]. rewrite Qred_correct, !this_scaled.
  rewrite inject_Z_plus. ring.
Qed.

Lemma scaled_mul_Z (a e k : Z) :
  Decimal.scaled a e * Decimal.of_Z k = Decimal.scaled (a * k) e.
Proof.
  apply Qc_is_canon. cbn [this Qcmult Q2Qc]. rewrite Qred_correct, !this_scaled, this_of_Z.
  rewrite inject_Z_mult. ring.
Qed.

Lemma scaled_shift (a e k : Z) :
  (0 <= k)%Z -> Decimal.scaled (a * 10 ^ k) e = Decimal.scaled a (e + k).
Proof.
  intros Hk. apply Qc_is_canon. rewrite !this_scaled.
  rewrite inject_Z_mult, ten_inject by done. rewrite ten_add. ring.
Qed.

Lemma scaled_le (a b e : Z) : (a <= b)%Z -> Decimal.scaled a e <= Decimal.scaled b e.
Proof.
  intros H. unfold Qcle. rewrite !this_scaled. rewrite Zle_Qle in H.
  pose proof (ten_pos e). nra.
Qed.

Lemma scaled_lt (a b e : Z) : (a < b)%Z -> Decimal.scaled a e < Decimal.scaled b e.
Proof.
  intros H. unfold Qclt. rewrite !this_scaled. rewrite Zlt_Qlt in H.
  pose proof (ten_pos e). nra.
Qed.

Lemma this_pow_half (x : Qc) : (this (Decimal.pow_half x) == Decimal.sqrtQ x)%Q.
Proof. unfold Decimal.pow_half. cbn [this Q2Qc]. apply Qred_correct. Qed.

(** An integer of at most 100 digits whose square is at most [x] is at
    most the rounded root of [x]. *)
Lemma pow_half_lower (x : Qc) (m : Z) :
  0 < x -> (0 <= m < 10 ^ Decimal.precision)%Z ->
  Decimal.of_Z m * Decimal.of_Z m <= x ->
  Decimal.of_Z m <= Decimal.pow_half x.
Proof.
  intros Hx Hm Hsq. unfold Qcle. rewrite this_pow_half, this_of_Z.
  apply sqrtQ_lower; [exact Hx|exact Hm|].
  unfold Qcle in Hsq. cbn [this Qcmult Q2Qc] in Hsq.
  rewrite Qred_correct, !this_of_Z in Hsq. exact Hsq.
Qed.

(** A value of at most 100 digits whose square is at least [x] is at
    least the rounded root of [x]. *)
Lemma pow_half_upper (x : Qc) (n e : Z) :
  0 <= x -> (0 <= n < 10 ^ Decimal.precision)%Z ->
  x <= Decimal.scaled n e * Decimal.scaled n e ->
  Decimal.pow_half x <= Decimal.scaled n e.
Proof.
  intros Hx Hn Hsq. unfold Qcle. rewrite this_pow_half.
  apply (sqrtQ_upper _ _ n e); [exact Hx|exact Hn|apply this_scaled|].
  unfold Qcle in Hsq. cbn [this Qcmult Q2Qc] in Hsq.
  rewrite Qred_correct in Hsq. exact Hsq.
Qed.

Lemma pow_half_ge_1 (x : Qc) : 1 <= x -> 1 <= Decimal.pow_half x.
Proof.
  intros H. change 1 with (Decimal.of_Z 1). apply pow_half_lower.
  - by apply Qclt_le_trans with 1.
  - by vm_compute.
  - exact H.
Qed.

Lemma floor_of_Z (x : Qc) (m : Z) :
  Decimal.of_Z m <= x -> x < Decimal.of_Z (m + 1) -> Decimal.floor x = Decimal.of_Z m.
Proof.
  intros Hlo Hhi. unfold Decimal.floor. f_equal. apply floor_unique.
  - unfold Qcle in Hlo. by rewrite this_of_Z in Hlo.
  - unfold Qclt in Hhi. by rewrite this_of_Z in Hhi.
Qed.
End DecimalValues.

(** ** Prestige gain *)

Section PrestigeGain.
Local Open Scope Qc_scope.

Lemma this_div_1000 (x : Qc) :
  (this (Decimal.div x (Decimal.new 1000)) == this x * 10 ^ (- 3))%Q.
Proof.
  unfold Decimal.div, Qcdiv. cbn [this Qcmult Qcinv Q2Qc Decimal.new].
  rewrite !Qred_correct. by vm_compute.
Qed.

Lemma scaled_div_1000 (n e : Z) :
  Decimal.div (Decimal.scaled n e) (Decimal.new 1000) = Decimal.scaled n (e - 3).
Proof.
  apply Qc_is_canon. rewrite this_div_1000, !this_scaled.
  replace (e - 3)%Z with (e + - 3)%Z by lia. rewrite ten_add. ring.
Qed.

(** Balances of [d] decimal places whose weighted total has at most 100
    digits are added up without rounding. *)
Lemma totalResources_scaled (s : GameState.t) (d t a g o : Z) :
  (0 <= t)%Z -> (0 <= a)%Z -> (0 <= g)%Z -> (0 <= o)%Z ->
  (t + a * 10 + g * 100 + o * 1000 < 10 ^ Decimal.precision)%Z ->
  GameState.r_tokens (GameState.resources s) = Decimal.scaled t (- d) ->
  GameState.r_astNodes (GameState.resources s) = Decimal.scaled a (- d) ->
  GameState.r_generatedCode (GameState.resources s) = Decimal.scaled g (- d) ->
  GameState.r_optimizedCode (GameState.resources s) = Decimal.scaled o (- d) ->
  GameState.totalResources s
  = Decimal.scaled (t + a * 10 + g * 100 + o * 1000) (- d).
Proof.
  intros Ht Ha Hg Ho Hw H1 H2 H3 H4. unfold GameState.totalResources.
  rewrite H1, H2, H3, H4. unfold Decimal.add, Decimal.mul.
  change (Decimal.new 10) with (Decimal.of_Z 10).
  change (Decimal.new 100) with (Decimal.of_Z 100).
  change (Decimal.new 1000) with (Decimal.of_Z 1000).
  rewrite !scaled_mul_Z.
  rewrite (round_scaled (a * 10)) by lia. rewrite scaled_add.
  rewrite (round_scaled (t + a * 10)) by lia.
  rewrite (round_scaled (g * 100)) by lia. rewrite scaled_add.
  rewrite (round_scaled (t + a * 10 + g * 100)) by lia.
  rewrite (round_scaled (o * 1000)) by lia. rewrite scaled_add.
  by rewrite round_scaled by lia.
Qed.

(** The floor of the rounded root is the floor of the root, for a value of
    [k] decimal places below [10^(2D)] when [2D + k] is at most 99. *)
Lemma floor_pow_half_scaled (w k D : Z) :
  (0 <= k)%Z -> (0 <= D)%Z -> (2 * D + k <= 99)%Z ->
  (10 ^ k <= w < 10 ^ (k + 2 * D))%Z ->
  let root := Z.sqrt (w / 10 ^ k) in
  Decimal.floor (Decimal.pow_half (Decimal.scaled w (- k))) = Decimal.of_Z root
  /\ Decimal.of_Z root * Decimal.of_Z root <= Decimal.scaled w (- k)
  /\ Decimal.scaled w (- k) < Decimal.of_Z (root + 1) * Decimal.of_Z (root + 1).
Proof.
  intros Hk HD Hsum [Hw1 Hw2] root.
  assert (Hpk : (0 < 10 ^ k)%Z) by (apply Z.pow_pos_nonneg; lia).
  assert (Hq : (0 <= w / 10 ^ k)%Z) by (apply Z.div_pos; lia).
  pose proof (Z.sqrt_spec _ Hq) as [Hr1 Hr2]. cbv zeta in Hr1, Hr2. fold root in Hr1, Hr2.
  pose proof (Z.sqrt_nonneg (w / 10 ^ k)) as Hr0. fold root in Hr0.
  assert (HrD : (root + 1 <= 10 ^ D)%Z).
  { assert (H : (root < 10 ^ D)%Z); [|lia].
    apply Z.sqrt_lt_square; [done|apply Z.pow_nonneg; lia|].
    apply Z.div_lt_upper_bound; [done|].
    rewrite <- Z.pow_add_r by lia. rewrite <- Z.pow_add_r by lia.
    by replace (k + (D + D))%Z with (k + 2 * D)%Z by lia. }
  assert (Hlow : (root * root * 10 ^ k <= w)%Z).
  { pose proof (Z.mul_div_le w (10 ^ k) Hpk). nia. }
  assert (Hhigh : (w + 1 <= (root + 1) * (root + 1) * 10 ^ k)%Z).
  { assert (H : (w < (root + 1) * (root + 1) * 10 ^ k)%Z); [|lia].
    pose proof (Z.mul_succ_div_gt w (10 ^ k) Hpk) as Hd.
    unfold Z.succ in Hr2, Hd. nia. }
  assert (Hsq1 : Decimal.of_Z root * Decimal.of_Z root <= Decimal.scaled w (- k)).
  { rewrite <- of_Z_mul, <- scaled_0.
    replace 0%Z with (- k + k)%Z by lia. rewrite <- scaled_shift by done.
    by apply scaled_le. }
  assert (Hsq2 : Decimal.scaled w (- k)
                 < Decimal.of_Z (root + 1) * Decimal.of_Z (root + 1)).
  { rewrite <- of_Z_mul, <- scaled_0.
    replace 0%Z with (- k + k)%Z by lia. rewrite <- scaled_shift by done.
    apply scaled_lt. lia. }
  split; [|by split].
  assert (Hpos : 0 < Decimal.scaled w (- k)).
  { unfold Qclt. rewrite this_scaled. change (this 0) with 0%Q.
    assert (Hw0 : (0 < w)%Z) by lia. rewrite Zlt_Qlt in Hw0.
    change (inject_Z 0) with 0%Q in Hw0. pose proof (ten_pos (- k)). nra. }
  assert (HD100 : (10 ^ D * 10 ^ (100 - D) = 10 ^ 100)%Z).
  { rewrite <- Z.pow_add_r by lia. f_equal. lia. }
  assert (Hp100 : (0 < 10 ^ (100 - D))%Z) by (apply Z.pow_pos_nonneg; lia).
  apply floor_of_Z.
  - apply pow_half_lower; [done| |done]. unfold Decimal.precision. nia.
  - set (n := ((root + 1) * 10 ^ (100 - D) - 1)%Z).
    apply Qcle_lt_trans with (Decimal.scaled n (- (100 - D))).
    + apply pow_half_upper; [by apply Qclt_le_weak| |].
      * unfold Decimal.precision, n. nia.
      * unfold Qcle. cbn [this Qcmult Q2Qc]. rewrite Qred_correct, !this_scaled.
        assert (Hn : (inject_Z n == (inject_Z root + 1) * 10 ^ (100 - D) - 1)%Q).
        { unfold n, Z.sub. rewrite inject_Z_plus, inject_Z_mult, inject_Z_plus.
          rewrite ten_inject by lia. change (inject_Z (- (1))) with (- 1)%Q.
          change (inject_Z 1) with 1%Q. ring. }
        rewrite Hn.
        assert (Hw : (inject_Z w * 10 ^ (- k)
                      <= (inject_Z root + 1) * (inject_Z root + 1) - 10 ^ (- k))%Q).
        { rewrite Zle_Qle in Hhigh.
          rewrite inject_Z_plus, !inject_Z_mult, inject_Z_plus, ten_inject in Hhigh by done.
          change (inject_Z 1) with 1%Q in Hhigh.
          pose proof (ten_cancel k) as Hc. pose proof (ten_pos (- k)) as HT.
          set (T := (10 ^ (- k))%Q) in *. set (P := (10 ^ k)%Q) in *.
          apply (Qmult_le_compat_r _ _ T) in Hhigh; [|lra].
          assert (E : ((inject_Z root + 1) * (inject_Z root + 1) * P * T
                       == (inject_Z root + 1) * (inject_Z root + 1))%Q).
          { rewrite <- Qmult_assoc, (Qmult_comm P T), Hc. ring. }
          rewrite E in Hhigh. lra. }
        assert (He : (((inject_Z root + 1) * 10 ^ (100 - D) - 1) * 10 ^ (- (100 - D))
                      == (inject_Z root + 1) - 10 ^ (- (100 - D)))%Q).
        { pose proof (ten_cancel (100 - D)) as Hc.
          rewrite (Qmult_comm (10 ^ (- (100 - D)))) in Hc.
          transitivity ((inject_Z root + 1) * (10 ^ (100 - D) * 10 ^ (- (100 - D)))
                        - 10 ^ (- (100 - D)))%Q; [ring|]. rewrite Hc. ring. }
        rewrite He.
        assert (Hr : (inject_Z root + 1 <= 10 ^ D)%Q).
        { rewrite Zle_Qle in HrD. rewrite inject_Z_plus, ten_inject in HrD by done.
          exact HrD. }
        assert (Heps : (2 * 10 ^ D * 10 ^ (- (100 - D)) <= 10 ^ (- k))%Q).
        { pose proof (ten_add D (- (100 - D))) as E1.
          pose proof (ten_add 1 (D + - (100 - D))) as E2.
          pose proof (ten_le (1 + (D + - (100 - D))) (- k) ltac:(lia)) as E3.
          change (10 ^ 1)%Q with 10%Q in E2.
          pose proof (ten_pos (D + - (100 - D))). nra. }
        assert (Hrq : (0 <= inject_Z root)%Q).
        { rewrite Zle_Qle in Hr0. exact Hr0. }
        pose proof (ten_pos (- (100 - D))). nra.
    + rewrite <- scaled_0. replace 0%Z with (- (100 - D) + (100 - D))%Z by lia.
      rewrite <- scaled_shift by lia. apply scaled_lt. unfold n. lia.
Qed.

Lemma scaled_1000 (d : Z) :
  (0 <= d)%Z -> Decimal.scaled (10 ^ (d + 3)) (- d) = Decimal.new 1000.
Proof.
  intros Hd. rewrite <- (Z.mul_1_l (10 ^ (d + 3))), scaled_shift by lia.
  replace (- d + (d + 3))%Z with 3%Z by lia. apply Qc_is_canon. by vm_compute.
Qed.

Lemma weighted_scaled (d t a g o : Z) :
  Decimal.scaled t (- d) + Decimal.scaled a (- d) * Decimal.new 10
  + Decimal.scaled g (- d) * Decimal.new 100 + Decimal.scaled o (- d) * Decimal.new 1000
  = Decimal.scaled (t + a * 10 + g * 100 + o * 1000) (- d).
Proof.
  change (Decimal.new 10) with (Decimal.of_Z 10).
  change (Decimal.new 100) with (Decimal.of_Z 100).
  change (Decimal.new 1000) with (Decimal.of_Z 1000).
  by rewrite !scaled_mul_Z, !scaled_add.
Qed.

Lemma floor_ge_1 (x : Qc) : 1 <= x -> (1 <= Qfloor x)%Z.
Proof. intros H. rewrite <- (Qfloor_Z 1). apply Qfloor_resp_le. exact H. Qed.

Lemma div_1000_ge_1 (x : Qc) :
  Decimal.new 1000 <= x -> 1 <= Decimal.div x (Decimal.new 1000).
Proof.
  intros H. unfold Decimal.div, Qcdiv.
  replace 1 with (Decimal.new 1000 * / Decimal.new 1000)
    by (apply Qc_is_canon; vm_compute; reflexivity).
  apply Qcmult_le_compat_r; [exact H|qc_decide].
Qed.

(** From a total of 1000 on the gain is an integer, and at least 1. *)
Lemma calculatePrestigeGain_positive (s : GameState.t) :
  Decimal.new 1000 <= GameState.totalResources s ->
  GameState.calculatePrestigeGain s
  = Decimal.floor
      (Decimal.pow_half
         (Decimal.round (Decimal.div (GameState.totalResources s) (Decimal.new 1000))))
  /\ exists n : Z, (1 <= n)%Z /\ GameState.calculatePrestigeGain s = Decimal.of_Z n.
Proof.
  intros H. unfold GameState.calculatePrestigeGain, Decimal.lt.
  rewrite bool_decide_eq_false_2 by (by apply Qcle_not_lt).
  split; [reflexivity|]. eexists. split; [|reflexivity].
  apply floor_ge_1, pow_half_ge_1.
  replace 1 with (Decimal.round 1) by (apply Qc_is_canon; by vm_compute).
  by apply round_mono, div_1000_ge_1.
Qed.

(** C1.  The prestige gain is computed on the weighted total
    [tokens + astNodes*10 + generatedCode*100 + optimizedCode*1000], every
    product and sum rounded to 100 significant digits.  Below 1000 the gain
    is exactly zero; from 1000 on it is the floor of the rounded square
    root of the rounded thousandth of the total, an integer from 1 on.
    When the four balances are non-negative and have at most [d] decimal
    places and the weighted total is below [10^(d+3+2D)], with
    [2D + d <= 96], nothing is rounded away: the gain is zero when the
    weighted total is below 1000, and it is the integer [n] with
    [n*n <= total/1000 < (n+1)*(n+1)], the floor of the square root.  It is
    10 for 100000 tokens and nothing else. *)
Theorem calculatePrestigeGain_floor_sqrt (s : GameState.t) :
  let rs := GameState.resources s in
  let total :=
    Decimal.round
      (Decimal.round
         (Decimal.round
            (GameState.r_tokens rs
             + Decimal.round (GameState.r_astNodes rs * Decimal.new 10))
          + Decimal.round (GameState.r_generatedCode rs * Decimal.new 100))
       + Decimal.round (GameState.r_optimizedCode rs * Decimal.new 1000)) in
  let weighted :=
    GameState.r_tokens rs + GameState.r_astNodes rs * Decimal.new 10
    + GameState.r_generatedCode rs * Decimal.new 100
    + GameState.r_optimizedCode rs * Decimal.new 1000 in
  let gain := GameState.calculatePrestigeGain s in
  (total < Decimal.new 1000 -> gain = Decimal.new 0)
  /\ (Decimal.new 1000 <= total ->
      gain
      = Decimal.floor
          (Decimal.pow_half (Decimal.round (total / Decimal.new 1000)))
      /\ exists n : Z, (1 <= n)%Z /\ gain = Decimal.of_Z n)
  /\ (forall d D t a g o : Z,
        (0 <= d)%Z -> (0 <= D)%Z -> (2 * D + d <= 96)%Z ->
        (0 <= t)%Z -> (0 <= a)%Z -> (0 <= g)%Z -> (0 <= o)%Z ->
        GameState.r_tokens rs = Decimal.scaled t (- d) ->
        GameState.r_astNodes rs = Decimal.scaled a (- d) ->
        GameState.r_generatedCode rs = Decimal.scaled g (- d) ->
        GameState.r_optimizedCode rs = Decimal.scaled o (- d) ->
        (t + a * 10 + g * 100 + o * 1000 < 10 ^ (d + 3 + 2 * D))%Z ->
        (weighted < Decimal.new 1000 -> gain = Decimal.new 0)
        /\ exists n : Z,
             (0 <= n)%Z /\ gain = Decimal.of_Z n
             /\ Decimal.of_Z n * Decimal.of_Z n <= weighted / Decimal.new 1000
             /\ weighted / Decimal.new 1000
                < Decimal.of_Z (n + 1) * Decimal.of_Z (n + 1))
  /\ (GameState.r_tokens rs = Decimal.new 100000 ->
      GameState.r_astNodes rs = Decimal.new 0 ->
      GameState.r_generatedCode rs = Decimal.new 0 ->
      GameState.r_optimizedCode rs = Decimal.new 0 ->
      gain = Decimal.new 10).
Proof.
  cbv zeta. split; [|split; [|split]].
  - intros H. unfold GameState.calculatePrestigeGain, Decimal.lt.
    by rewrite bool_decide_eq_true_2.
  - apply calculatePrestigeGain_positive.
  - intros d D t a g o Hd HD Hsum Ht Ha Hg Ho Et Ea Eg Eo Hw.
    set (w := (t + a * 10 + g * 100 + o * 1000)%Z) in *.
    assert (Hw100 : (w < 10 ^ Decimal.precision)%Z).
    { eapply Z.lt_le_trans; [exact Hw|]. apply Z.pow_le_mono_r; unfold Decimal.precision; lia. }
    pose proof (totalResources_scaled s d t a g o Ht Ha Hg Ho Hw100 Et Ea Eg Eo) as Htotal.
    fold w in Htotal. rewrite Et, Ea, Eg, Eo, weighted_scaled. fold w.
    destruct (Z.lt_ge_cases w (10 ^ (d + 3))) as [Hsmall|Hbig].
    + assert (Hlt : Decimal.scaled w (- d) < Decimal.new 1000).
      { rewrite <- (scaled_1000 d Hd). by apply scaled_lt. }
      assert (Hgain : GameState.calculatePrestigeGain s = Decimal.new 0).
      { unfold GameState.calculatePrestigeGain, Decimal.lt.
        by rewrite Htotal, bool_decide_eq_true_2. }
      split; [done|]. exists 0%Z. split; [lia|]. split; [exact Hgain|].
      change (Decimal.of_Z 0) with 0. change (Decimal.of_Z (0 + 1)) with 1.
      rewrite Qcmult_0_l, Qcmult_1_l. split.
      * apply div_1000_nonneg. unfold Qcle. rewrite this_scaled. change (this 0) with 0%Q.
        assert (H0 : (0 <= w)%Z) by (unfold w; lia). rewrite Zle_Qle in H0.
        change (inject_Z 0) with 0%Q in H0. pose proof (ten_pos (- d)). nra.
      * by apply div_1000_lt_1.
    + assert (Hge : Decimal.new 1000 <= Decimal.scaled w (- d)).
      { rewrite <- (scaled_1000 d Hd). by apply scaled_le. }
      split; [intros Hlt; by apply Qcle_not_lt in Hge|].
      destruct (calculatePrestigeGain_positive s) as [Hgain _]; [by rewrite Htotal|].
      rewrite Hgain, Htotal. change (Decimal.scaled w (- d) / Decimal.new 1000)
        with (Decimal.div (Decimal.scaled w (- d)) (Decimal.new 1000)).
      rewrite scaled_div_1000. replace (- d - 3)%Z with (- (d + 3))%Z by lia.
      rewrite round_scaled by lia.
      destruct (floor_pow_half_scaled w (d + 3) D) as (Hfloor & Hlo & Hhi);
        [lia|lia|lia|split; [lia|]|].
      { by replace (d + 3 + 2 * D)%Z with (d + 3 + 2 * D)%Z by lia. }
      cbv zeta in Hfloor, Hlo, Hhi.
      exists (Z.sqrt (w / 10 ^ (d + 3))). split; [apply Z.sqrt_nonneg|]. by split.
  - intros Et Ea Eg Eo. unfold GameState.calculatePrestigeGain, GameState.totalResources.
    rewrite Et, Ea, Eg, Eo. by vm_compute.
Qed.

(** C1, against the claim as written: with [1000 * n * n - 1] tokens for
    [n = 10^49 + 7] and nothing else the gain is [n], whose square is above
    a thousandth of the weighted total; the floor of the square root is
    [n - 1]. *)
Lemma calculatePrestigeGain_rounds :
  let rs := GameState.resources Samples.huge in
  let weighted :=
    GameState.r_tokens rs + GameState.r_astNodes rs * Decimal.new 10
    + GameState.r_generatedCode rs * Decimal.new 100
    + GameState.r_optimizedCode rs * Decimal.new 1000 in
  GameState.calculatePrestigeGain Samples.huge = Decimal.of_Z (10 ^ 49 + 7)
  /\ Decimal.of_Z (10 ^ 49 + 6) * Decimal.of_Z (10 ^ 49 + 6)
     <= weighted / Decimal.new 1000
  /\ weighted / Decimal.new 1000
     < Decimal.of_Z (10 ^ 49 + 7) * Decimal.of_Z (10 ^ 49 + 7).
Proof.
  cbv zeta. split; [by vm_compute|]. split; qc_decide.
Qed.

Lemma calculatePrestigeGain_floor_sqrt_witness :
  GameState.calculatePrestigeGain Samples.poor = Decimal.new 0
  /\ (exists n : Z,
        (1 <= n)%Z /\ GameState.calculatePrestigeGain Samples.rich = Decimal.of_Z n)
  /\ (exists n : Z,
        (0 <= n)%Z /\ GameState.calculatePrestigeGain Samples.mixed = Decimal.of_Z n
        /\ Decimal.of_Z n * Decimal.of_Z n
           <= (Decimal.new 1500.5 + Decimal.new 20.25 * Decimal.new 10
               + Decimal.new 3 * Decimal.new 100 + Decimal.new 2 * Decimal.new 1000)
              / Decimal.new 1000
        /\ (Decimal.new 1500.5 + Decimal.new 20.25 * Decimal.new 10
            + Decimal.new 3 * Decimal.new 100 + Decimal.new 2 * Decimal.new 1000)
           / Decimal.new 1000
           < Decimal.of_Z (n + 1) * Decimal.of_Z (n + 1))
  /\ GameState.calculatePrestigeGain Samples.rich = Decimal.new 10.
Proof.
  split; [|split; [|split]].
  - apply (proj1 (calculatePrestigeGain_floor_sqrt Samples.poor)). qc_decide.
  - apply (proj1 (proj2 (calculatePrestigeGain_floor_sqrt Samples.rich))). qc_decide.
  - apply (proj2 (proj1 (proj2 (proj2 (calculatePrestigeGain_floor_sqrt Samples.mixed)))
                    2%Z 1%Z 150050%Z 2025%Z 300%Z 200%Z
                    ltac:(lia) ltac:(lia) ltac:(lia) ltac:(lia) ltac:(lia) ltac:(lia)
                    ltac:(lia)
                    ltac:(apply Qc_is_canon; vm_compute; reflexivity)
                    ltac:(apply Qc_is_canon; vm_compute; reflexivity)
                    ltac:(apply Qc_is_canon; vm_compute; reflexivity)
                    ltac:(apply Qc_is_canon; vm_compute; reflexivity)
                    ltac:(vm_compute; reflexivity))).
  - apply (proj2 (proj2 (proj2 (calculatePrestigeGain_floor_sqrt Samples.rich))));
      reflexivity.
Defined.

End PrestigeGain.

(** ** Bulk cost *)

Section BulkCost.
Local Open Scope Qc_scope.
Variable d : UpgradeData.

Lemma costLoop_app (L : Z) (n m : nat) (i : Z) (acc : Qc) :
  GameState.costLoop d L (n + m) i acc
  = GameState.costLoop d L m (i + Z.of_nat n) (GameState.costLoop d L n i acc).
Proof.
  revert i acc. induction n as [|n IH]; intros i acc.
  - cbn. by rewrite Z.add_0_r.
  - cbn [Nat.add GameState.costLoop]. rewrite IH. f_equal. lia.
Qed.

Lemma costLoop_shift (L a : Z) (n : nat) (i : Z) (acc : Qc) :
  GameState.costLoop d L n (i + a) acc = GameState.costLoop d (L + a) n i acc.
Proof.
  revert i acc. induction n as [|n IH]; intros i acc; cbn [GameState.costLoop].
  - reflexivity.
  - replace (i + a + 1)%Z with (i + 1 + a)%Z by lia. rewrite IH.
    by replace (L + (i + a))%Z with (L + a + i)%Z by lia.
Qed.

Lemma costLoop_snoc (L : Z) (n : nat) :
  GameState.costLoop d L (S n) 0 0
  = Decimal.round
      (GameState.costLoop d L n 0 0 + GameState.costAtLevel d (L + Z.of_nat n)).
Proof. replace (S n) with (n + 1)%nat by lia. by rewrite costLoop_app. Qed.

Lemma exactSum_snoc (from : Z) (n : nat) :
  exactSum d from (Z.of_nat (S n))
  = exactSum d from (Z.of_nat n) + exactCost d (from + Z.of_nat n).
Proof.
  unfold exactSum. rewrite seqZ_S. rewrite map_app, foldr_app. cbn [map foldr].
  generalize (map (exactCost d) (seqZ from (Z.of_nat n))). intros l.
  induction l as [|x l IH]; cbn [foldr]; [ring|]. rewrite IH. ring.
Qed.

Lemma exactSum_split (from a b : Z) :
  (0 <= a)%Z -> (0 <= b)%Z ->
  exactSum d from (a + b) = exactSum d from a + exactSum d (from + a) b.
Proof.
  intros Ha Hb. unfold exactSum. rewrite seqZ_app by done. rewrite map_app, foldr_app.
  generalize (foldr Qcplus 0 (map (exactCost d) (seqZ (from + a) b))). intros tail.
  generalize (map (exactCost d) (seqZ from a)). intros l.
  induction l as [|x l IH]; cbn [foldr]; [ring|]. rewrite IH. ring.
Qed.

Lemma exactCost_seq (from : Z) (n : nat) :
  map (exactCost d) (seqZ from (Z.of_nat n))
  = map (fun i => baseCost d * Decimal.pow (growth d) (from + Z.of_nat i)) (seq 0 n).
Proof.
  revert from. induction n as [|n IH]; intros from; [reflexivity|].
  rewrite Nat2Z.inj_succ, seqZ_cons by lia. cbn [map seq].
  rewrite Z.add_0_r. f_equal. rewrite Z.pred_succ, IH.
  rewrite <- seq_shift, map_map. apply map_ext. intros i. do 2 f_equal. lia.
Qed.

(** A run of the loop in which nothing is rounded away adds up the
    prices. *)
Lemma bulkCost_exact (L n : Z) :
  (0 <= n)%Z ->
  (forall level, (L <= level < L + n)%Z ->
     Decimal.round (Decimal.pow (growth d) level) = Decimal.pow (growth d) level
     /\ Decimal.round (exactCost d level) = exactCost d level) ->
  (forall count, (0 <= count <= n)%Z ->
     Decimal.round (exactSum d L count) = exactSum d L count) ->
  GameState.bulkCost d L n = exactSum d L n.
Proof.
  intros Hn Hcost Hsum. unfold GameState.bulkCost.
  rewrite <- (Z2Nat.id n Hn) in Hcost, Hsum |- * at 2.
  change (Decimal.new 0) with 0.
  induction (Z.to_nat n) as [|m IH]; [reflexivity|].
  rewrite costLoop_snoc, exactSum_snoc. rewrite IH.
  - unfold GameState.costAtLevel, Decimal.mul.
    destruct (Hcost (L + Z.of_nat m)%Z ltac:(lia)) as [-> Hc].
    fold (exactCost d (L + Z.of_nat m)). rewrite Hc.
    rewrite <- exactSum_snoc. apply Hsum. lia.
  - intros level Hl. apply Hcost. lia.
  - intros count Hc. apply Hsum. lia.
Qed.

End BulkCost.

Section BulkCostClaim.
Local Open Scope Qc_scope.

(** C9.  The bulk cost of [a + b] levels from [L] is the cost loop run on
    for the [b] levels from [L + a], entered with the bulk cost of the
    first [a] levels; the loop rounds every power, product and sum to 100
    significant digits.  When none of the powers, of the prices
    [baseCost * growth^level] and of the sums of the prices that the three
    loops go through needs more digits, the bulk cost of [a + b] levels from
    [L] is the bulk cost of [a] levels from [L] plus the bulk cost of [b]
    levels from [L + a], and it is the sum of the prices. *)
Theorem bulkCost_additive (d : UpgradeData) (L a b : Z) :
  (0 <= a)%Z -> (0 <= b)%Z ->
  GameState.bulkCost d L (a + b)
  = GameState.costLoop d L (Z.to_nat b) a (GameState.bulkCost d L a)
  /\ ((forall level, (L <= level < L + a + b)%Z ->
         Decimal.round (Decimal.pow (growth d) level) = Decimal.pow (growth d) level
         /\ Decimal.round (baseCost d * Decimal.pow (growth d) level)
            = baseCost d * Decimal.pow (growth d) level) ->
      (forall count, (0 <= count <= a + b)%Z ->
         Decimal.round (exactSum d L count) = exactSum d L count) ->
      (forall count, (0 <= count <= b)%Z ->
         Decimal.round (exactSum d (L + a) count) = exactSum d (L + a) count) ->
      GameState.bulkCost d L (a + b)
      = GameState.bulkCost d L a + GameState.bulkCost d (L + a) b
      /\ GameState.bulkCost d L (a + b) = exactSum d L (a + b)
      /\ exactSum d L (a + b)
         = foldr Qcplus 0
             (map (fun i => baseCost d * Decimal.pow (growth d) (L + Z.of_nat i))
                (seq 0 (Z.to_nat (a + b))))).
Proof.
  intros Ha Hb. split.
  - unfold GameState.bulkCost. rewrite Z2Nat.inj_add by lia. rewrite costLoop_app.
    by rewrite Z.add_0_l, Z2Nat.id by lia.
  - intros Hcost Hsum1 Hsum2.
    assert (E1 : GameState.bulkCost d L (a + b) = exactSum d L (a + b)).
    { apply bulkCost_exact; [lia| |done]. intros level Hl. apply Hcost. lia. }
    assert (E2 : GameState.bulkCost d L a = exactSum d L a).
    { apply bulkCost_exact; [lia| |].
      - intros level Hl. apply Hcost. lia.
      - intros count Hc. apply Hsum1. lia. }
    assert (E3 : GameState.bulkCost d (L + a) b = exactSum d (L + a) b).
    { apply bulkCost_exact; [lia| |done]. intros level Hl. apply Hcost. lia. }
    split; [|split; [exact E1|]].
    + rewrite E1, E2, E3. by apply exactSum_split.
    + unfold exactSum. f_equal. rewrite <- (Z2Nat.id (a + b)) at 1 by lia.
      apply exactCost_seq.
Qed.

(** C9, against the claim as written: for the upgrade token-speed, base
    cost 25 and growth 1.25, the bulk cost of four levels from level 52 is
    above the bulk costs of two levels from 52 and of two from 54 added up,
    and one unit of the last digit above their rounded sum; the price of
    level 48 has more than 100 digits and is rounded up. *)
Lemma bulkCost_not_additive :
  let d := mkUpgradeData (Decimal.new 25) (Decimal.new 1.25) (Decimal.new 0.1)
             manual None None None in
  GameState.bulkCost d 52 2 + GameState.bulkCost d (52 + 2) 2
  < GameState.bulkCost d 52 (2 + 2)
  /\ GameState.bulkCost d 52 (2 + 2)
     = Decimal.round (GameState.bulkCost d 52 2 + GameState.bulkCost d (52 + 2) 2)
       + Decimal.scaled 1 (- 92)
  /\ baseCost d * Decimal.pow (growth d) 48 < GameState.bulkCost d 48 1.
Proof.
  cbv zeta. split; [qc_decide|]. split; [|qc_decide].
  apply Qc_is_canon. by vm_compute.
Qed.

Lemma bulkCost_additive_witness :
  let d := mkUpgradeData (Decimal.new 50) (Decimal.new 1.15) (Decimal.new 1)
             generator (Some tokens) None None in
  GameState.bulkCost d 2 (2 + 3)
  = GameState.costLoop d 2 (Z.to_nat 3) 2 (GameState.bulkCost d 2 2)
  /\ GameState.bulkCost d 2 (2 + 3)
     = GameState.bulkCost d 2 2 + GameState.bulkCost d (2 + 2) 3
  /\ GameState.bulkCost d 2 (2 + 3) = exactSum d 2 (2 + 3)
  /\ exactSum d 2 (2 + 3)
     = foldr Qcplus 0
         (map (fun i => baseCost d * Decimal.pow (growth d) (2 + Z.of_nat i))
            (seq 0 (Z.to_nat (2 + 3)))).
Proof.
  cbv zeta.
  set (d := mkUpgradeData (Decimal.new 50) (Decimal.new 1.15) (Decimal.new 1)
              generator (Some tokens) None None).
  destruct (bulkCost_additive d 2 2 3 ltac:(lia) ltac:(lia)) as [Hloop Hexact].
  split; [exact Hloop|]. apply Hexact.
  - intros level Hl.
    assert (Hc : level = 2%Z \/ level = 3%Z \/ level = 4%Z \/ level = 5%Z \/ level = 6%Z)
      by lia.
    destruct Hc as [->|[->|[->|[->| ->]]]];
      split; apply Qc_is_canon; vm_compute; reflexivity.
  - intros count Hc.
    assert (Hk : count = 0%Z \/ count = 1%Z \/ count = 2%Z \/ count = 3%Z
                 \/ count = 4%Z \/ count = 5%Z) by lia.
    destruct Hk as [->|[->|[->|[->|[->| ->]]]]];
      apply Qc_is_canon; vm_compute; reflexivity.
  - intros count Hc.
    assert (Hk : count = 0%Z \/ count = 1%Z \/ count = 2%Z \/ count = 3%Z) by lia.
    destruct Hk as [->|[->|[->| ->]]]; apply Qc_is_canon; vm_compute; reflexivity.
Defined.

End BulkCostClaim.

(** ** Purchases and the prestige reset *)

Section Purchase.
Local Open Scope Qc_scope.

Lemma get_set_same (r : Resource) (v : Qc) (rs : GameState.Resources) :
  GameState.get r (GameState.set r v rs) = v.
Proof. by destruct r. Qed.

Lemma get_set_other (r r' : Resource) (v : Qc) (rs : GameState.Resources) :
  r <> r' -> GameState.get r' (GameState.set r v rs) = GameState.get r' rs.
Proof. by destruct r, r'. Qed.





(** The reset goes through exactly when the gain is positive. *)
Lemma doPrestige_succeeds (s : GameState.t) :
  0 < GameState.calculatePrestigeGain s <-> (GameState.doPrestige s).1 = true.
Proof.
  unfold GameState.doPrestige, Decimal.lte. case_bool_decide as H; cbn [fst].
  - split; [|done]. intros Hpos. by apply Qclt_not_le in Hpos.
  - split; [done|]. intros _. by apply Qcnot_le_lt.
Qed.

End Purchase.

(** ** The performance analyzer across a prestige reset *)

Section AnalyzerReset.

(** C4, as the specification states it, fails: [doPrestige] calls
    [resetAnalyzer(false)], and on an engine whose analyzer has scored one
    deployment the reset succeeds and leaves a history and per-platform
    statistics that differ from those before it. *)
Lemma doPrestige_clears_analyzer :
  exists s',
    GameState.doPrestige Samples.deployed = (true, s')
    /\ PerformanceAnalyzer.performanceHistory (GameState.performanceAnalyzer s')
       <> PerformanceAnalyzer.performanceHistory
            (GameState.performanceAnalyzer Samples.deployed)
    /\ PerformanceAnalyzer.deploymentStats (GameState.performanceAnalyzer s')
       <> PerformanceAnalyzer.deploymentStats
            (GameState.performanceAnalyzer Samples.deployed).
Proof.
  exists (GameState.doPrestige Samples.deployed).2.
  split; [by vm_compute|]. split.
  - vm_compute. discriminate.
  - intros H.
    apply (f_equal
             (fun m => PerformanceAnalyzer.totalDeployments <$> m !! "development"))
      in H.
    vm_compute in H. discriminate.
Qed.

(** C4, amended.  After every successful prestige reset the analyzer's
    current platform is the default one, its performance history is empty,
    and every platform that had statistics has all of them at zero. *)
Theorem doPrestige_resets_analyzer (s s' : GameState.t) :
  GameState.doPrestige s = (true, s') ->
  let before := GameState.performanceAnalyzer s in
  let after := GameState.performanceAnalyzer s' in
  PerformanceAnalyzer.currentPlatform after = "development"
  /\ PerformanceAnalyzer.performanceHistory after = []
  /\ (forall platform,
        PerformanceAnalyzer.deploymentStats after !! platform
        = (fun _ => PerformanceAnalyzer.zeroStats)
            <$> PerformanceAnalyzer.deploymentStats before !! platform).
Proof.
  unfold GameState.doPrestige.
  destruct (Decimal.lte (GameState.calculatePrestigeGain s) 0); [done|].
  intros [= <-]. cbn. split; [done|]. split; [done|].
  intros platform. by rewrite lookup_fmap.
Qed.

Lemma doPrestige_resets_analyzer_witness :
  let before := GameState.performanceAnalyzer Samples.deployed in
  let after := GameState.performanceAnalyzer (GameState.doPrestige Samples.deployed).2 in
  PerformanceAnalyzer.currentPlatform after = "development"
  /\ PerformanceAnalyzer.performanceHistory after = []
  /\ (forall platform,
        PerformanceAnalyzer.deploymentStats after !! platform
        = (fun _ => PerformanceAnalyzer.zeroStats)
            <$> PerformanceAnalyzer.deploymentStats before !! platform).
Proof.
  cbv zeta. apply (doPrestige_resets_analyzer Samples.deployed).
  vm_compute. reflexivity.
Defined.

(** The other value of the flag keeps both. *)
Lemma resetAnalyzer_keepHistory (a : PerformanceAnalyzer.t) :
  PerformanceAnalyzer.performanceHistory (PerformanceAnalyzer.resetAnalyzer true a)
  = PerformanceAnalyzer.performanceHistory a
  /\ PerformanceAnalyzer.deploymentStats (PerformanceAnalyzer.resetAnalyzer true a)
     = PerformanceAnalyzer.deploymentStats a.
Proof. done. Qed.

End AnalyzerReset.

(** ** Converter consumption *)

Section ConverterConsumption.
Local Open Scope Qc_scope.

Lemma consumptionStep_other (deltaTime : Qc) (s : GameState.t)
    (kv : string * UpgradeData) :
  type kv.2 <> converter -> Game.consumptionStep deltaTime s kv = s.
Proof.
  intros H. unfold Game.consumptionStep.
  rewrite (bool_decide_eq_false_2 _ H). by rewrite andb_false_r.
Qed.

(** One converter entry: the debit is taken when the balance covers it, and
    nothing happens otherwise. *)
Lemma consumptionStep_converter (deltaTime : Qc) (s : GameState.t)
    (key : string) (upgradeData : UpgradeData) (inputResource : Resource) :
  type upgradeData = converter ->
  costResource upgradeData = Some inputResource ->
  (0 < GameState.levelOf key s)%Z ->
  let debit :=
    baseOutput upgradeData * Decimal.of_Z (GameState.levelOf key s) * deltaTime in
  let balance := GameState.get inputResource (GameState.resources s) in
  Game.consumptionStep deltaTime s (key, upgradeData)
  = if bool_decide (debit <= balance)
    then GameState.withResources
           (GameState.set inputResource (balance - debit) (GameState.resources s)) s
    else s.
Proof.
  intros Hty Hres Hl. cbv zeta. unfold Game.consumptionStep. cbn [fst snd].
  rewrite (bool_decide_eq_true_2 _ Hl), (bool_decide_eq_true_2 _ Hty), Hres.
  reflexivity.
Qed.

(** [auto-parser-1] is the only converter of [UPGRADE_DATA]. *)
Lemma handleConverterConsumption_unfold (deltaTime : Qc) (s : GameState.t) :
  Game.handleConverterConsumption deltaTime s
  = Game.consumptionStep deltaTime s
      ("auto-parser-1",
       mkUpgradeData (Decimal.new 1000) (Decimal.new 1.20) (Decimal.new 0.5)
         converter (Some astNodes) (Some tokens) (Some (Decimal.new 500))).
Proof.
  unfold Game.handleConverterConsumption, UPGRADE_DATA. cbn [fold_left].
  rewrite (consumptionStep_other deltaTime s ("token-speed", _)) by done.
  rewrite (consumptionStep_other deltaTime s ("auto-tokenizer-1", _)) by done.
  rewrite (consumptionStep_other deltaTime s ("auto-scanner-2", _)) by done.
  by rewrite (consumptionStep_other deltaTime s ("parallel-lexer-3", _)) by done.
Qed.





End ConverterConsumption.

(** ** Production and the code generator *)

Section Production.
Local Open Scope Qc_scope.

Lemma template_efficiency_pos (name : string) (template : CodeGenerator.Template) :
  assoc name CodeGenerator.templates = Some template ->
  0 < CodeGenerator.tpl_efficiency template.
Proof.
  unfold CodeGenerator.templates. cbn [assoc].
  repeat case_decide; intros [= <-]; qc_decide.
Qed.

Lemma updateAverageEfficiency_frame (g : CodeGenerator.t) :
  let g' := CodeGenerator.updateAverageEfficiency g in
  CodeGenerator.currentTemplate g' = CodeGenerator.currentTemplate g
  /\ CodeGenerator.optimizationLevel g' = CodeGenerator.optimizationLevel g
  /\ CodeGenerator.totalGenerated (CodeGenerator.generationStats g')
     = CodeGenerator.totalGenerated (CodeGenerator.generationStats g).
Proof.
  cbv zeta. unfold CodeGenerator.updateAverageEfficiency.
  case_bool_decide; [|done].
  by destruct (assoc (CodeGenerator.currentTemplate g) CodeGenerator.templates).
Qed.

Lemma generateCode_spec (astNodes : Qc) (g : CodeGenerator.t)
    (template : CodeGenerator.Template) :
  0 < astNodes ->
  assoc (CodeGenerator.currentTemplate g) CodeGenerator.templates = Some template ->
  let amount :=
    generation astNodes (CodeGenerator.tpl_efficiency template)
      (CodeGenerator.optimizationLevel g)
      (CodeGenerator.totalGenerated (CodeGenerator.generationStats g)) in
  let r := CodeGenerator.generateCode astNodes g in
  r.1 = amount
  /\ CodeGenerator.currentTemplate r.2 = CodeGenerator.currentTemplate g
  /\ CodeGenerator.optimizationLevel r.2 = CodeGenerator.optimizationLevel g
  /\ CodeGenerator.totalGenerated (CodeGenerator.generationStats r.2)
     = CodeGenerator.totalGenerated (CodeGenerator.generationStats g) + amount.
Proof.
  intros Hpos Htpl. cbv zeta. unfold CodeGenerator.generateCode, Decimal.lte.
  rewrite bool_decide_eq_false_2 by (by apply Qclt_not_le).
  rewrite Htpl. cbn [fst snd].
  split; [reflexivity|].
  match goal with
  | |- context [CodeGenerator.updateAverageEfficiency ?g1] =>
      destruct (updateAverageEfficiency_frame g1) as (-> & -> & ->)
  end.
  done.
Qed.

Lemma optimizationBonus_pos (optimizationLevel : Qc) :
  0 <= optimizationLevel ->
  0 < Decimal.new 1 + optimizationLevel * Decimal.new 0.1.
Proof.
  intros H. apply Qcplus_pos_nonneg; [qc_decide|].
  apply Qcmult_nonneg_nonneg; [done|qc_decide].
Qed.

Lemma generation_pos (astNodes efficiency optimizationLevel totalGenerated : Qc) :
  0 < astNodes -> 0 < efficiency -> 0 <= optimizationLevel -> 0 <= totalGenerated ->
  0 < generation astNodes efficiency optimizationLevel totalGenerated.
Proof.
  intros Ha He Ho Ht. unfold generation.
  repeat apply Qcmult_pos_pos; try done.
  - by apply optimizationBonus_pos.
  - apply Qcplus_pos_nonneg; [qc_decide|].
    apply Qcmult_nonneg_nonneg; [|qc_decide].
    apply Qcmult_nonneg_nonneg; [done|qc_decide].
Qed.

Lemma generation_grows
    (astNodes efficiency optimizationLevel totalGenerated extra : Qc) :
  0 < astNodes -> 0 < efficiency -> 0 <= optimizationLevel -> 0 < extra ->
  generation astNodes efficiency optimizationLevel totalGenerated
  < generation astNodes efficiency optimizationLevel (totalGenerated + extra).
Proof.
  intros Ha He Ho Hx. apply Qclt_minus_iff. unfold generation, Qcdiv.
  set (k := / Decimal.new 10000 * Decimal.new 0.05).
  replace (_ + - _)
    with (astNodes * efficiency
          * (Decimal.new 1 + optimizationLevel * Decimal.new 0.1) * (extra * k))
    by (unfold k; ring).
  repeat apply Qcmult_pos_pos; try done.
  by apply optimizationBonus_pos.
Qed.

(** The constructor establishes [wf] and the methods keep it. *)
Lemma wf_init : CodeGenerator.wf CodeGenerator.init.
Proof. split; [by eexists|]. split; qc_decide. Qed.

Lemma wf_resetStats (g : CodeGenerator.t) :
  CodeGenerator.wf (CodeGenerator.resetStats g).
Proof. exact wf_init. Qed.

Lemma wf_setOptimizationLevel (level : Qc) (g : CodeGenerator.t) :
  CodeGenerator.wf g -> CodeGenerator.wf (CodeGenerator.setOptimizationLevel level g).
Proof.
  intros (Ht & Ho & Hg). split; [done|]. split; [|done].
  cbn. unfold Decimal.lt. case_bool_decide as Hlt; [done|]. by apply Qcnot_lt_le.
Qed.

Lemma wf_upgradeTemplate (newTemplate : string) (g : CodeGenerator.t) :
  CodeGenerator.wf g ->
  CodeGenerator.wf (CodeGenerator.upgradeTemplate newTemplate g).2.
Proof.
  intros (Ht & Ho & Hg). unfold CodeGenerator.upgradeTemplate.
  destruct (assoc newTemplate CodeGenerator.templates) as [template|] eqn:E; [|done].
  destruct (CodeGenerator.tpl_unlockThreshold template) as [threshold|].
  - destruct (Decimal.lt _ threshold); [done|]. split; [|done].
    cbn [snd CodeGenerator.currentTemplate]. by rewrite E.
  - split; [|done]. cbn [snd CodeGenerator.currentTemplate]. by rewrite E.
Qed.

Lemma wf_generateCode (astNodes : Qc) (g : CodeGenerator.t) :
  CodeGenerator.wf g -> CodeGenerator.wf (CodeGenerator.generateCode astNodes g).2.
Proof.
  intros Hwf. pose proof Hwf as ([template Ht] & Ho & Hg).
  destruct (Qclt_le_dec 0 astNodes) as [Hpos|Hle].
  - destruct (generateCode_spec astNodes g template Hpos Ht) as (_ & H1 & H2 & H3).
    split; [rewrite H1; by eexists|]. split; [by rewrite H2|]. rewrite H3.
    apply Qcplus_nonneg_nonneg; [done|].
    apply Qclt_le_weak, generation_pos; try done.
    by apply (template_efficiency_pos _ _ Ht).
  - unfold CodeGenerator.generateCode, Decimal.lte.
    by rewrite (bool_decide_eq_true_2 _ Hle).
Qed.

(** A new engine has a well-formed code generator, and production and the
    prestige reset keep it well-formed. *)
Lemma wf_new (now : Z) : CodeGenerator.wf (GameState.codeGenerator (GameState.new now)).
Proof. exact wf_init. Qed.

Lemma wf_doPrestige (s : GameState.t) :
  CodeGenerator.wf (GameState.codeGenerator s) ->
  CodeGenerator.wf (GameState.codeGenerator (GameState.doPrestige s).2).
Proof.
  intros H. unfold GameState.doPrestige.
  destruct (Decimal.lte _ _); [exact H|exact wf_init].
Qed.

Lemma wf_calculateProduction (now : Z) (s : GameState.t) :
  CodeGenerator.wf (GameState.codeGenerator s) ->
  CodeGenerator.wf (GameState.codeGenerator (GameState.calculateProduction now s).2).
Proof.
  intros H. unfold GameState.calculateProduction, GameState.calculateStage3Production.
  destruct (GameState.unlocked _); [|exact H].
  pose proof (wf_generateCode (GameState.r_astNodes (GameState.resources s)) _ H) as Hg.
  destruct (Decimal.gt (GameState.r_astNodes _) 0);
    [destruct (CodeGenerator.generateCode _ _) as [amount g]|];
    (destruct (Decimal.gt (GameState.r_generatedCode _) 0);
     [destruct (CodeOptimizer.optimize _ _ _) as [optimized o]|]); done.
Qed.

Lemma calculateStage3Production_spec (now : Z) (p : GameState.Production)
    (s : GameState.t) :
  0 < GameState.r_astNodes (GameState.resources s) ->
  let gen :=
    CodeGenerator.generateCode (GameState.r_astNodes (GameState.resources s))
      (GameState.codeGenerator s) in
  let r := GameState.calculateStage3Production now p s in
  GameState.p_generatedCode r.1 = GameState.p_generatedCode p + gen.1
  /\ GameState.codeGenerator r.2 = gen.2
  /\ exists o, r.2 = GameState.withStage3Modules gen.2 o s.
Proof.
  intros Hpos. cbv zeta. unfold GameState.calculateStage3Production, Decimal.gt.
  rewrite (bool_decide_eq_true_2 _ Hpos).
  destruct (CodeGenerator.generateCode _ _) as [amount g].
  destruct (bool_decide _).
  - destruct (CodeOptimizer.optimize _ _ _) as [optimized o]. cbn. eauto.
  - cbn. eauto.
Qed.

Lemma calculateProduction_unlocked (now : Z) (s : GameState.t) :
  GameState.unlocked (GameState.stage3 s) = true ->
  GameState.calculateProduction now s
  = GameState.calculateStage3Production now (GameState.upgradeProduction s) s.
Proof. intros H. unfold GameState.calculateProduction. by rewrite H. Qed.

(** C10.  Computing production is not a pure query.  When stage 3 is
    unlocked and astNodes is positive, a call to [calculateProduction]
    raises the code generator's cumulative total and leaves resources,
    upgrade levels, prestige and the stage-3 record as they were; a second
    call on the engine so obtained returns a generatedCode production
    strictly larger than the first call did. *)
Theorem calculateProduction_not_pure (now1 now2 : Z) (s : GameState.t) :
  CodeGenerator.wf (GameState.codeGenerator s) ->
  GameState.unlocked (GameState.stage3 s) = true ->
  0 < GameState.r_astNodes (GameState.resources s) ->
  let first := GameState.calculateProduction now1 s in
  let second := GameState.calculateProduction now2 first.2 in
  CodeGenerator.totalGenerated
    (CodeGenerator.generationStats (GameState.codeGenerator s))
  < CodeGenerator.totalGenerated
      (CodeGenerator.generationStats (GameState.codeGenerator first.2))
  /\ GameState.resources first.2 = GameState.resources s
  /\ GameState.upgrades first.2 = GameState.upgrades s
  /\ GameState.prestige first.2 = GameState.prestige s
  /\ GameState.stage3 first.2 = GameState.stage3 s
  /\ GameState.p_generatedCode first.1 < GameState.p_generatedCode second.1.
Proof.
  intros (Htpl & Hopt & Htotal) Hunlocked Hast. cbv zeta.
  destruct Htpl as [template Htpl].
  pose proof (template_efficiency_pos _ _ Htpl) as Heff.
  rewrite (calculateProduction_unlocked now1 s Hunlocked).
  set (base := GameState.upgradeProduction s).
  destruct (calculateStage3Production_spec now1 base s Hast) as (Hp1 & Hg1 & o1 & Hs1).
  destruct (generateCode_spec _ _ _ Hast Htpl) as (Hamount & Htpl1 & Hopt1 & Htotal1).
  set (gen1 := CodeGenerator.generateCode _ _) in *.
  assert (Hpos : 0 < gen1.1).
  { rewrite Hamount. by apply generation_pos. }
  rewrite Hp1, Hs1. clear Hp1 Hg1 Hs1.
  set (s1 := GameState.withStage3Modules gen1.2 o1 s).
  split.
  { cbn [s1 GameState.codeGenerator GameState.withStage3Modules].
    rewrite Htotal1, <- Hamount.
    rewrite <- (Qcplus_0_r (CodeGenerator.totalGenerated _)) at 1.
    by apply Qcplus_lt_mono_l. }
  do 4 (split; [reflexivity|]).
  rewrite (calculateProduction_unlocked now2 s1 Hunlocked).
  change (GameState.upgradeProduction s1) with base.
  destruct (calculateStage3Production_spec now2 base s1 Hast) as (-> & _ & _).
  apply Qcplus_lt_mono_l.
  cbn [s1 GameState.resources GameState.codeGenerator GameState.withStage3Modules].
  assert (Htpl2 : assoc (CodeGenerator.currentTemplate gen1.2) CodeGenerator.templates
                  = Some template) by (by rewrite Htpl1).
  destruct (generateCode_spec _ _ _ Hast Htpl2) as (-> & _).
  rewrite Hamount at 1. rewrite Hopt1, Htotal1.
  apply generation_grows; try done.
  by rewrite <- Hamount.
Qed.

Lemma calculateProduction_not_pure_witness :
  let first := GameState.calculateProduction 0 Samples.stage3Open in
  let second := GameState.calculateProduction 1 first.2 in
  CodeGenerator.totalGenerated
    (CodeGenerator.generationStats (GameState.codeGenerator Samples.stage3Open))
  < CodeGenerator.totalGenerated
      (CodeGenerator.generationStats (GameState.codeGenerator first.2))
  /\ GameState.resources first.2 = GameState.resources Samples.stage3Open
  /\ GameState.upgrades first.2 = GameState.upgrades Samples.stage3Open
  /\ GameState.prestige first.2 = GameState.prestige Samples.stage3Open
  /\ GameState.stage3 first.2 = GameState.stage3 Samples.stage3Open
  /\ GameState.p_generatedCode first.1 < GameState.p_generatedCode second.1.
Proof.
  cbv zeta. apply (calculateProduction_not_pure 0 1 Samples.stage3Open).
  - split; [by eexists|]. split; qc_decide.
  - vm_compute. reflexivity.
  - qc_decide.
Defined.

End Production.

(** ** Saving and loading *)

Section Copy.
Context {A B C : Type} (g : A -> B) (m : gmap string A).

(** A loop that copies, for every key of a catalogue, the entry that [m] has
    under that key. *)
Lemma fold_copy_lookup (table : list (string * C)) (acc : gmap string B) (k : string) :
  fold_left
    (fun acc (kv : string * C) =>
       match m !! kv.1 with
       | Some v => <[kv.1 := g v]> acc
       | None => acc
       end)
    table acc !! k
  = match assoc k table, m !! k with
    | Some _, Some v => Some (g v)
    | _, _ => acc !! k
    end.
Proof.
  revert acc. induction table as [|[k0 c] table IH]; intros acc; cbn [fold_left assoc].
  - done.
  - rewrite IH. cbn [fst]. case_decide as Hk.
    + subst k0. destruct (m !! k) as [v|] eqn:Hm.
      * rewrite lookup_insert_eq. by destruct (assoc k table).
      * by destruct (assoc k table).
    + destruct (m !! k0); [|done]. rewrite lookup_insert_ne by done. done.
Qed.

End Copy.

Section Persistence.
Local Open Scope Z_scope.

Lemma list_to_map_assoc {A B : Type} (f : A -> B) (table : list (string * A))
    (k : string) :
  (list_to_map (map (fun kv : string * A => (kv.1, f kv.2)) table) : gmap string B) !! k
  = f <$> assoc k table.
Proof.
  induction table as [|[k0 v] table IH]; cbn [map list_to_map foldr assoc fst snd].
  - done.
  - case_decide as Hk.
    + subst. by rewrite lookup_insert_eq.
    + by rewrite lookup_insert_ne.
Qed.

Lemma loadPrestigeUpgrades_assoc
    (saved : gmap string StorageManager.SavedPrestigeUpgrade)
    (table : list (string * PrestigeUpgrade)) (key : string) :
  assoc key (StorageManager.loadPrestigeUpgrades saved table)
  = (fun target =>
       match saved !! key with
       | Some upgradeData =>
           mkPrestigeUpgrade (pu_baseCost target)
             (Decimal.parse (StorageManager.spu_cost upgradeData))
             (StorageManager.spu_level upgradeData)
             (pu_requiresPrestige target)
             (StorageManager.spu_unlocked upgradeData)
       | None => target
       end)
    <$> assoc key table.
Proof.
  unfold StorageManager.loadPrestigeUpgrades.
  induction table as [|[k0 v] table IH]; cbn [map assoc fst snd]; [done|].
  destruct (saved !! k0) eqn:Hk0; cbn [assoc]; (case_decide; [subst|done]).
  - by rewrite Hk0.
  - by rewrite Hk0.
Qed.

Lemma loadResources_saved (rs target : GameState.Resources) :
  StorageManager.loadResources
    (list_to_map
       (map (fun name =>
               (StorageManager.resourceName name,
                Decimal.toString (GameState.get name rs)))
          StorageManager.allResources))
    target
  = rs.
Proof. destruct rs, target. by vm_compute. Qed.

(** C8, as the specification states it, fails: the save holds nothing of the
    performance analyzer.  Saving an engine whose analyzer has scored one
    deployment and loading the save into a new engine, as [Game.init] does,
    gives an engine that differs from the saved one, in the per-platform
    statistics among others. *)
Lemma load_save_loses_analyzer_stats :
  let restored :=
    (StorageManager.load 0 (Some (StorageManager.save 0 Samples.deployed))
       (GameState.new 0)).2 in
  restored <> Samples.deployed
  /\ PerformanceAnalyzer.deploymentStats (GameState.performanceAnalyzer restored)
     <> PerformanceAnalyzer.deploymentStats
          (GameState.performanceAnalyzer Samples.deployed).
Proof.
  cbv zeta.
  assert (H : PerformanceAnalyzer.deploymentStats
                (GameState.performanceAnalyzer
                   (StorageManager.load 0
                      (Some (StorageManager.save 0 Samples.deployed))
                      (GameState.new 0)).2)
              <> PerformanceAnalyzer.deploymentStats
                   (GameState.performanceAnalyzer Samples.deployed)).
  { intros H.
    apply (f_equal
             (fun m => PerformanceAnalyzer.totalDeployments <$> m !! "development"))
      in H.
    vm_compute in H. discriminate. }
  split; [|exact H]. intros Heq. apply H. by rewrite Heq.
Qed.

(** C8, amended.  Loading the save of an engine [s] into an engine [t]
    succeeds and gives an engine with the resources of [s], the upgrade
    levels of [s] over those of [t] (exactly those of [s] when [t] has no
    key that [s] lacks), the prestige level and reset count of [s], the
    level, cost and unlocked flag of [s] for every prestige upgrade, the
    stage-3 unlocked flag and performance score of [s], the deployment of
    [s] (the default one for an empty name), the saved stage-3 optimization
    entries of [s] for the catalogue techniques, the developer flag of [s],
    and the buy amount and start time of [s] when they are not 0.  The code
    generator, the performance analyzer with its history and per-platform
    statistics, the play statistics and the last save time are not in the
    save: they are those of [t]. *)
Theorem load_save_restores (now now' : Z) (s t : GameState.t) :
  let r := StorageManager.load now' (Some (StorageManager.save now s)) t in
  r.1 = true
  /\ GameState.resources r.2 = GameState.resources s
  /\ GameState.upgrades r.2 = GameState.upgrades s ∪ GameState.upgrades t
  /\ ((forall key, is_Some (GameState.upgrades t !! key) ->
                   is_Some (GameState.upgrades s !! key)) ->
      GameState.upgrades r.2 = GameState.upgrades s)
  /\ GameState.prestige r.2 = GameState.prestige s
  /\ (forall key,
        assoc key (GameState.prestigeUpgrades r.2)
        = (fun target =>
             match assoc key (GameState.prestigeUpgrades s) with
             | Some saved =>
                 mkPrestigeUpgrade (pu_baseCost target) (pu_cost saved)
                   (pu_level saved) (pu_requiresPrestige target) (pu_unlocked saved)
             | None => target
             end)
          <$> assoc key (GameState.prestigeUpgrades t))
  /\ GameState.unlocked (GameState.stage3 r.2) = GameState.unlocked (GameState.stage3 s)
  /\ GameState.performanceScore (GameState.stage3 r.2)
     = GameState.performanceScore (GameState.stage3 s)
  /\ GameState.currentDeployment (GameState.stage3 r.2)
     = (if bool_decide (GameState.currentDeployment (GameState.stage3 s) = "")
        then "development"
        else GameState.currentDeployment (GameState.stage3 s))
  /\ (forall key,
        GameState.optimizations (GameState.stage3 r.2) !! key
        = match assoc key OPTIMIZATION_TECHS,
                GameState.optimizations (GameState.stage3 s) !! key with
          | Some _, Some saved => Some saved
          | _, _ => GameState.optimizations (GameState.stage3 t) !! key
          end)
  /\ GameState.devMode r.2 = GameState.devMode s
  /\ GameState.buyAmount r.2
     = (if bool_decide (GameState.buyAmount s = 0) then 1 else GameState.buyAmount s)
  /\ GameState.startTime r.2
     = (if bool_decide (GameState.startTime s = 0) then now' else GameState.startTime s)
  /\ GameState.codeGenerator r.2 = GameState.codeGenerator t
  /\ GameState.performanceAnalyzer r.2 = GameState.performanceAnalyzer t
  /\ GameState.stats r.2 = GameState.stats t
  /\ GameState.lastSaveTime r.2 = GameState.lastSaveTime t.
Proof.
  cbv zeta. unfold StorageManager.load, StorageManager.save.
  cbn [StorageManager.resources StorageManager.upgrades StorageManager.prestige
       StorageManager.stage3 StorageManager.settings fst snd
       StorageManager.sp_level StorageManager.sp_totalResets
       StorageManager.sp_upgrades StorageManager.set_buyAmount
       StorageManager.set_devMode StorageManager.set_startTime
       GameState.resources GameState.upgrades GameState.prestige GameState.stage3
       GameState.buyAmount GameState.devMode GameState.startTime
       GameState.lastSaveTime GameState.stats GameState.codeGenerator
       GameState.performanceAnalyzer GameState.prestigeUpgrades].
  split; [done|]. split; [apply loadResources_saved|]. split; [done|]. split.
  { intros Hdom. unfold StorageManager.loadUpgrades. apply map_eq. intros key.
    destruct (GameState.upgrades s !! key) as [v|] eqn:Hs.
    - by apply lookup_union_Some_l.
    - rewrite lookup_union_r by done.
      destruct (GameState.upgrades t !! key) eqn:Ht; [|done].
      destruct (Hdom key) as [v Hv]; [by eexists|congruence]. }
  split; [by destruct (GameState.prestige s)|]. split.
  { intros key. rewrite loadPrestigeUpgrades_assoc.
    rewrite (list_to_map_assoc
               (fun pu => StorageManager.mkSavedPrestigeUpgrade (pu_level pu)
                            (Decimal.toString (pu_cost pu)) (pu_unlocked pu))).
    by destruct (assoc key (GameState.prestigeUpgrades s)). }
  unfold StorageManager.loadStage3.
  cbn [GameState.unlocked GameState.performanceScore GameState.currentDeployment
       GameState.optimizations StorageManager.ss_unlocked
       StorageManager.ss_performanceScore StorageManager.ss_currentDeployment
       StorageManager.ss_optimizations].
  split; [done|]. split; [done|]. split; [done|]. split; [|done].
  intros key. unfold StorageManager.loadOptimizations.
  rewrite (fold_copy_lookup
             (fun optData =>
                GameState.mkStage3Optimization (StorageManager.sopt_level optData)
                  (Decimal.parse (StorageManager.sopt_cost optData)))).
  rewrite (fold_copy_lookup
             (fun tech =>
                StorageManager.mkSavedOptimization (GameState.so_level tech)
                  (Decimal.toString (GameState.so_cost tech)))).
  destruct (assoc key OPTIMIZATION_TECHS); [|done].
  by destruct (GameState.optimizations (GameState.stage3 s) !! key) as [[]|].
Qed.

Lemma load_save_restores_witness :
  GameState.upgrades
    (StorageManager.load 7 (Some (StorageManager.save 5 Samples.deployed))
       (GameState.new 7)).2
  = GameState.upgrades Samples.deployed.
Proof.
  apply (proj1 (proj2 (proj2 (proj2
           (load_save_restores 5 7 Samples.deployed (GameState.new 7)))))).
  intros key H. exact H.
Defined.

End Persistence.

(** ** The tokenizer *)

Section TokenizerFacts.
Import Tokenizer.
Local Open Scope nat_scope.

Lemma startsWith_prefix (p input : list N) :
  startsWith p input = true -> p `prefix_of` input.
Proof.
  revert input. induction p as [|c p IH]; intros input H.
  - apply prefix_nil.
  - destruct input as [|d input]; [done|]. cbn in H.
    apply andb_true_iff in H as [Hc Hp]. apply N.eqb_eq in Hc as ->.
    by apply prefix_cons, IH.
Qed.

Lemma startsWith_app (p q input : list N) :
  startsWith (p ++ q) input = true -> startsWith p input = true.
Proof.
  revert input. induction p as [|c p IH]; intros input; [done|].
  destruct input as [|d input]; [done|]. cbn.
  rewrite !andb_true_iff. intros [? ?]. eauto.
Qed.

Lemma takeWhile_prefix (f : N -> bool) (input : list N) :
  takeWhile f input `prefix_of` input.
Proof.
  induction input as [|c input IH]; cbn; [done|].
  destruct (f c); [by apply prefix_cons|apply prefix_nil].
Qed.

Lemma takeWhile_drop (f : N -> bool) (input : list N) :
  takeWhile f input ++ drop (length (takeWhile f input)) input = input.
Proof.
  induction input as [|c input IH]; cbn; [done|].
  destruct (f c); cbn; [by rewrite IH|done].
Qed.

Lemma firstLiteral_consumes after literals input value :
  Forall (fun lit => units lit <> []) literals ->
  firstLiteral after literals input = Some value ->
  consumes input value.
Proof.
  induction 1 as [|lit literals Hlit _ IH]; cbn; [done|].
  destruct (startsWith (units lit) input) eqn:Hs; cbn; [|exact IH].
  destruct (after _); [|exact IH].
  intros [= <-]. split; [done|by apply startsWith_prefix].
Qed.

Lemma keywords_nonempty : Forall (fun lit => units lit <> []) keywords.
Proof. repeat constructor; discriminate. Qed.

Lemma operators_nonempty : Forall (fun lit => units lit <> []) operators.
Proof. repeat constructor; discriminate. Qed.

Lemma matchKeyword_consumes input value :
  matchKeyword input = Some value -> consumes input value.
Proof. apply firstLiteral_consumes, keywords_nonempty. Qed.

Lemma matchOperator_consumes input value :
  matchOperator input = Some value -> consumes input value.
Proof. apply firstLiteral_consumes, operators_nonempty. Qed.

Lemma matchNumber_consumes input value :
  matchNumber input = Some value -> consumes input value.
Proof.
  unfold matchNumber.
  pose proof (takeWhile_drop isDigit input) as Hsplit.
  destruct (takeWhile isDigit input) as [|d digits] eqn:Hd; [done|].
  set (rest := drop _ input) in *.
  assert (Hint : consumes input (d :: digits)).
  { split; [done|]. exists rest. by rewrite Hsplit. }
  assert (Hplain :
    (if boundaryAfter rest then Some (d :: digits) else None) = Some value ->
    consumes input value).
  { destruct (boundaryAfter rest); [|done]. by intros [= <-]. }
  destruct rest as [|c rest'] eqn:Hrest; [exact Hplain|].
  destruct c as [|c]; [exact Hplain|].
  destruct (decide (c = 46%positive)) as [->|Hne].
  - pose proof (takeWhile_drop isDigit rest') as Hsplit'.
    destruct (takeWhile isDigit rest') as [|f fraction]; [exact Hplain|].
    destruct (boundaryAfter (drop _ rest')); [|exact Hplain].
    intros [= <-]. split; [done|].
    exists (drop (length (f :: fraction)) rest').
    rewrite <- Hsplit. rewrite <- Hsplit' at 1. cbn.
    by rewrite <- app_assoc.
  - repeat (destruct c as [c|c|]; try exact Hplain). done.
Qed.

Lemma matchString_consumes input value :
  matchString input = Some value -> consumes input value.
Proof.
  unfold matchString. destruct input as [|q body]; [done|].
  destruct (_ || _); [|done].
  destruct (scanString q body) as [n|]; [|done]. cbn.
  intros [= <-]. split; [done|].
  apply (prefix_take (q :: body) (S n)).
Qed.

Lemma matchIdentifier_consumes input value :
  matchIdentifier input = Some value -> consumes input value.
Proof.
  unfold matchIdentifier. destruct input as [|c rest]; [done|].
  destruct (isIdentStart c); [|done]. intros [= <-]. split; [done|].
  apply prefix_cons, takeWhile_prefix.
Qed.

Lemma matchDelimiter_consumes input value :
  matchDelimiter input = Some value -> consumes input value.
Proof.
  unfold matchDelimiter. destruct input as [|c rest]; [done|].
  destruct (isDelimiter c); [|done]. intros [= <-]. split; [done|].
  apply prefix_cons, prefix_nil.
Qed.

Lemma matchWhitespace_consumes input value :
  matchWhitespace input = Some value -> consumes input value.
Proof.
  unfold matchWhitespace. pose proof (takeWhile_prefix isSpace input) as H.
  destruct (takeWhile isSpace input); [done|]. by intros [= <-].
Qed.

Lemma matchComment_consumes input value :
  matchComment input = Some value -> consumes input value.
Proof.
  unfold matchComment.
  destruct (startsWith (units "//") input) eqn:H1; cbn [andb].
  - destruct (forallb _ _).
    + intros [= <-]. split; [by destruct input|done].
    + destruct (startsWith (units "/*") input); [|done].
      destruct (scanBlockComment _) as [n|]; [|done]. cbn.
      intros [= <-]. split; [by destruct input|]. apply prefix_take.
  - destruct (startsWith (units "/*") input) eqn:H2; [|done].
    destruct (scanBlockComment _) as [n|]; [|done]. cbn.
    intros [= <-]. split; [by destruct input|]. apply prefix_take.
Qed.

(** Whatever rule matches, it consumes at least one code unit of the slice,
    and no rule has the type [UNKNOWN]. *)
Lemma firstRule_rules slice ty value :
  firstRule rules slice = Some (ty, value) ->
  consumes slice value /\ ty <> UNKNOWN.
Proof.
  unfold rules. cbn [firstRule].
  destruct (matchKeyword slice) eqn:E1;
    [intros [= <- <-]; split; [by apply matchKeyword_consumes|done]|].
  destruct (matchNumber slice) eqn:E2;
    [intros [= <- <-]; split; [by apply matchNumber_consumes|done]|].
  destruct (matchString slice) eqn:E3;
    [intros [= <- <-]; split; [by apply matchString_consumes|done]|].
  destruct (matchIdentifier slice) eqn:E4;
    [intros [= <- <-]; split; [by apply matchIdentifier_consumes|done]|].
  destruct (matchOperator slice) eqn:E5;
    [intros [= <- <-]; split; [by apply matchOperator_consumes|done]|].
  destruct (matchDelimiter slice) eqn:E6;
    [intros [= <- <-]; split; [by apply matchDelimiter_consumes|done]|].
  destruct (matchWhitespace slice) eqn:E7;
    [intros [= <- <-]; split; [by apply matchWhitespace_consumes|done]|].
  destruct (matchComment slice) eqn:E8;
    [intros [= <- <-]; split; [by apply matchComment_consumes|done]|].
  done.
Qed.

Lemma consumes_length slice value :
  consumes slice value -> 1 <= length value <= length slice.
Proof.
  intros [Hne Hpre]. apply prefix_length in Hpre.
  destruct value; [done|]. cbn in *. lia.
Qed.

Lemma step_advances (code : list N) (st : Scan) :
  s_position st < length code ->
  s_position st < s_position (step code st) <= length code.
Proof.
  intros Hlt. unfold step.
  destruct (firstRule rules (drop (s_position st) code)) as [[ty value]|] eqn:E.
  - apply firstRule_rules in E as [Hc _]. apply consumes_length in Hc.
    rewrite length_drop in Hc.
    destruct (bool_decide (0 < newlines value)); cbn [s_position]; lia.
  - destruct (drop (s_position st) code) eqn:Hd.
    + apply (f_equal length) in Hd. rewrite length_drop in Hd. cbn in Hd. lia.
    + cbn [s_position]. lia.
Qed.

Lemma step_unknown (code : list N) (st : Scan) :
  s_position st < length code ->
  firstRule rules (drop (s_position st) code) = None ->
  exists unknownChar,
    code !! s_position st = Some unknownChar
    /\ step code st
       = mkScan
           (s_tokens st
              ++ [mkToken UNKNOWN [unknownChar] (s_position st) (s_line st)
                    (s_column st)])
           (s_position st + 1) (s_line st) (s_column st + 1).
Proof.
  intros Hlt Hnone. unfold step. rewrite Hnone.
  destruct (lookup_lt_is_Some_2 code (s_position st) Hlt) as [c Hc].
  exists c. split; [done|].
  by rewrite (drop_S _ _ _ Hc).
Qed.

(** The loop ends within [length code - position] iterations, at the end of
    the input. *)
Lemma loop_terminates (code : list N) (fuel : nat) (st : Scan) :
  s_position st <= length code ->
  length code - s_position st <= fuel ->
  exists final,
    loop fuel code st = Some final /\ s_position final = length code.
Proof.
  revert st. induction fuel as [|fuel IH]; intros st Hle Hfuel; cbn [loop].
  - rewrite bool_decide_eq_false_2 by lia. exists st. split; [done|lia].
  - case_bool_decide as Hlt.
    + pose proof (step_advances code st Hlt) as Hstep. apply IH; lia.
    + exists st. split; [done|lia].
Qed.

Lemma step_emitted (code : list N) (st : Scan) :
  s_position st < length code ->
  Forall (emitted code) (s_tokens st) ->
  Forall (emitted code) (s_tokens (step code st)).
Proof.
  intros Hlt Hall. unfold step.
  destruct (firstRule rules (drop (s_position st) code)) as [[ty value]|] eqn:E.
  - apply firstRule_rules in E as [[_ Hpre] Hty].
    destruct (bool_decide (0 < newlines value));
      destruct (bool_decide (ty <> WHITESPACE) && bool_decide (ty <> COMMENT));
      cbn [s_tokens]; try done;
      apply Forall_app; (split; [done|]);
      (constructor; [|constructor]); by split.
  - destruct (drop (s_position st) code) as [|c rest] eqn:Hd; [done|].
    cbn [s_tokens]. apply Forall_app. split; [done|].
    constructor; [|constructor]. split; cbn [value position type]; [|done].
    rewrite Hd. apply prefix_cons, prefix_nil.
Qed.

Lemma loop_emitted (code : list N) (fuel : nat) (st final : Scan) :
  Forall (emitted code) (s_tokens st) ->
  loop fuel code st = Some final ->
  Forall (emitted code) (s_tokens final).
Proof.
  revert st. induction fuel as [|fuel IH]; intros st Hall; cbn [loop].
  - case_bool_decide; [done|]. by intros [= <-].
  - case_bool_decide as Hlt; [|by intros [= <-]].
    apply IH. by apply step_emitted.
Qed.

Lemma firstLiteral_found after literals input lit :
  In lit literals ->
  (forall rest, after rest = true) ->
  startsWith (units lit) input = true ->
  exists value, firstLiteral after literals input = Some value.
Proof.
  intros Hin Hafter Hs. induction literals as [|l literals IH]; [done|].
  cbn [firstLiteral]. rewrite Hafter, andb_true_r.
  destruct (startsWith (units l) input) eqn:E; [by eexists|].
  destruct Hin as [->|Hin]; [congruence|by apply IH].
Qed.

Lemma matchComment_slash input value :
  matchComment input = Some value -> startsWith (units "/") input = true.
Proof.
  unfold matchComment.
  destruct (startsWith (units "//") input) eqn:H1.
  - intros _. by apply (startsWith_app (units "/") (units "/")).
  - cbn [andb]. destruct (startsWith (units "/*") input) eqn:H2; [|done].
    intros _. by apply (startsWith_app (units "/") (units "*")).
Qed.

Lemma matchComment_operator (slice value : list N) :
  matchComment slice = Some value ->
  exists operator, matchOperator slice = Some operator.
Proof.
  intros H. apply matchComment_slash in H.
  apply (firstLiteral_found _ _ _ "/"%string); [|done|done].
  unfold operators. cbn. tauto.
Qed.

Lemma firstRule_never_comment (slice : list N) (ty : TokenType) (value : list N) :
  firstRule rules slice = Some (ty, value) -> ty <> COMMENT.
Proof.
  unfold rules. cbn [firstRule].
  destruct (matchKeyword slice); [by intros [= <- _]|].
  destruct (matchNumber slice); [by intros [= <- _]|].
  destruct (matchString slice); [by intros [= <- _]|].
  destruct (matchIdentifier slice); [by intros [= <- _]|].
  destruct (matchOperator slice) eqn:E; [by intros [= <- _]|].
  destruct (matchDelimiter slice); [by intros [= <- _]|].
  destruct (matchWhitespace slice); [by intros [= <- _]|].
  destruct (matchComment slice) as [v|] eqn:Ec; [|done].
  destruct (matchComment_operator slice v Ec) as [? ?]. congruence.
Qed.

Lemma take_advance (code value : list N) (position : nat) :
  value `prefix_of` drop position code ->
  take (position + length value) code = take position code ++ value.
Proof.
  intros [k Hk]. rewrite <- take_take_drop, Hk. by rewrite take_app_length.
Qed.

Lemma firstRule_whitespace (slice value : list N) :
  firstRule rules slice = Some (WHITESPACE, value) ->
  value = takeWhile isSpace slice.
Proof.
  unfold rules. cbn [firstRule].
  destruct (matchKeyword slice); [done|].
  destruct (matchNumber slice); [done|].
  destruct (matchString slice); [done|].
  destruct (matchIdentifier slice); [done|].
  destruct (matchOperator slice); [done|].
  destruct (matchDelimiter slice); [done|].
  unfold matchWhitespace.
  destruct (takeWhile isSpace slice) eqn:E; [|by intros [= <-]].
  by destruct (matchComment slice).
Qed.

Lemma visible_app (a b : list N) : visible (a ++ b) = visible a ++ visible b.
Proof. apply filter_app. Qed.

Lemma visible_takeWhile (slice : list N) : visible (takeWhile isSpace slice) = [].
Proof.
  induction slice as [|c slice IH]; [done|]. cbn [takeWhile].
  destruct (isSpace c) eqn:E; [|done].
  unfold visible. rewrite filter_cons, decide_False by congruence. exact IH.
Qed.

Lemma visible_values_snoc (tokens : list Token) (t : Token) :
  visible (concat (map value (tokens ++ [t])))
  = visible (concat (map value tokens)) ++ visible (value t).
Proof. rewrite map_app, concat_app, visible_app. cbn. by rewrite app_nil_r. Qed.

Lemma step_visible (code : list N) (st : Scan) :
  s_position st < length code ->
  visible (concat (map value (s_tokens st))) = visible (take (s_position st) code) ->
  visible (concat (map value (s_tokens (step code st))))
  = visible (take (s_position (step code st)) code).
Proof.
  intros Hlt Hinv. unfold step.
  destruct (firstRule rules (drop (s_position st) code)) as [[ty matched]|] eqn:E.
  - pose proof (firstRule_never_comment _ _ _ E) as Hcomment.
    pose proof (firstRule_rules _ _ _ E) as [[_ Hpre] _].
    pose proof (take_advance _ _ _ Hpre) as Htake.
    assert (Hgoal :
      visible
        (concat
           (map value
              (if bool_decide (ty <> WHITESPACE) && bool_decide (ty <> COMMENT)
               then s_tokens st
                      ++ [mkToken ty matched (s_position st) (s_line st) (s_column st)]
               else s_tokens st)))
      = visible (take (s_position st + length matched) code)).
    { rewrite Htake, visible_app, <- Hinv.
      destruct (decide (ty = WHITESPACE)) as [->|Hw].
      - cbn. apply firstRule_whitespace in E. rewrite E, visible_takeWhile.
        by rewrite app_nil_r.
      - rewrite !bool_decide_eq_true_2 by done. cbn [andb].
        by rewrite visible_values_snoc. }
    by destruct (bool_decide (0 < newlines matched)).
  - destruct (drop (s_position st) code) as [|c rest] eqn:Hd.
    { apply (f_equal length) in Hd. rewrite length_drop in Hd. cbn in Hd. lia. }
    assert (Hpre : [c] `prefix_of` drop (s_position st) code).
    { rewrite Hd. apply prefix_cons, prefix_nil. }
    pose proof (take_advance _ _ _ Hpre) as Htake. cbn [length] in Htake.
    cbn [s_tokens s_position]. by rewrite Htake, visible_app, <- Hinv, visible_values_snoc.
Qed.

Lemma loop_visible (code : list N) (fuel : nat) (st final : Scan) :
  visible (concat (map value (s_tokens st))) = visible (take (s_position st) code) ->
  loop fuel code st = Some final ->
  visible (concat (map value (s_tokens final)))
  = visible (take (s_position final) code).
Proof.
  revert st. induction fuel as [|fuel IH]; intros st Hinv; cbn [loop].
  - case_bool_decide; [done|]. by intros [= <-].
  - case_bool_decide as Hlt; [|by intros [= <-]].
    apply IH. by apply step_visible.
Qed.

(** *** The run of the loop *)

Lemma scan_S (code : list N) (i : nat) : scan code (S i) = step code (scan code i).
Proof. reflexivity. Qed.

Lemma step_tokens_prefix (code : list N) (st : Scan) :
  s_tokens st `prefix_of` s_tokens (step code st).
Proof.
  unfold step. destruct (firstRule rules (drop (s_position st) code)) as [[ty matched]|].
  - destruct (bool_decide (0 < newlines matched));
      destruct (bool_decide (ty <> WHITESPACE) && bool_decide (ty <> COMMENT));
      cbn [s_tokens]; first [done | by apply prefix_app_r].
  - destruct (drop (s_position st) code); [done|]. cbn [s_tokens]. by apply prefix_app_r.
Qed.

Lemma scan_tokens_prefix (code : list N) (i n : nat) :
  i <= n -> s_tokens (scan code i) `prefix_of` s_tokens (scan code n).
Proof.
  induction 1 as [|n _ IH]; [done|].
  etrans; [exact IH|]. rewrite scan_S. apply step_tokens_prefix.
Qed.

Lemma stringRepetitions_le (quote : N) (body : list N) :
  stringRepetitions quote body <= length body.
Proof.
  assert (H : forall n text, length text <= n ->
                stringRepetitions quote text <= length text).
  { induction n as [|n IH]; intros [|c text] Hlen;
      cbn [stringRepetitions length] in *; try lia.
    destruct (N.eqb c quote); [lia|]. destruct (N.eqb c 92).
    - destruct text as [|e text]; [lia|]. destruct (isLineTerminator e); [lia|].
      cbn [length] in *. specialize (IH text ltac:(lia)). lia.
    - specialize (IH text ltac:(lia)). lia. }
  by apply (H (length body)).
Qed.

Lemma stringDepth_le (input : list N) : stringDepth input <= length input.
Proof.
  destruct input as [|q body]; [done|]. cbn [stringDepth length].
  destruct (_ || _); [|lia]. pose proof (stringRepetitions_le q body). lia.
Qed.

Lemma overflows_depth (stack : nat) (slice : list N) :
  stringDepth slice <= stack -> overflows stack slice = false.
Proof.
  intros H. unfold overflows, matchStringOn. destruct (matchKeyword slice); [done|].
  destruct (matchNumber slice); [done|]. by rewrite bool_decide_eq_false_2 by lia.
Qed.

(** The loop entered after [i] iterations goes on to a state [scan code n]
    at the end of the input, a step forward every time; on an engine that
    no search overflows it returns the tokens of that state, and it throws
    when a search overflows. *)
Lemma loop_scan (stack : nat) (code : list N) (fuel i : nat) :
  s_position (scan code i) <= length code ->
  length code - s_position (scan code i) <= fuel ->
  exists n,
    i <= n
    /\ loop fuel code (scan code i) = Some (scan code n)
    /\ s_position (scan code n) = length code
    /\ (forall j, i <= j < n ->
          s_position (scan code j) < s_position (scan code (S j)) <= length code)
    /\ ((forall j, i <= j < n ->
           overflows stack (drop (s_position (scan code j)) code) = false) ->
        loopOn stack fuel code (scan code i) = Some (Returned (s_tokens (scan code n))))
    /\ (forall j, i <= j < n ->
          overflows stack (drop (s_position (scan code j)) code) = true ->
          loopOn stack fuel code (scan code i) = Some RangeError).
Proof.
  revert i. induction fuel as [|fuel IH]; intros i Hle Hfuel.
  - exists i. cbn [loop loopOn]. rewrite bool_decide_eq_false_2 by lia.
    split; [done|]. split; [done|]. split; [lia|]. split; [lia|]. split; [done|lia].
  - cbn [loop loopOn]. case_bool_decide as Hlt.
    + pose proof (step_advances code (scan code i) Hlt) as Hstep.
      rewrite <- scan_S in Hstep |- *.
      destruct (IH (S i)) as (n & Hn & Hloop & Hpos & Hsteps & Hok & Hthrow); [lia..|].
      exists n. split; [lia|]. split; [done|]. split; [done|]. split; [|split].
      * intros j Hj. destruct (decide (j = i)) as [->|Hne]; [done|]. apply Hsteps. lia.
      * intros Hnone. rewrite (Hnone i) by lia. apply Hok. intros j Hj. apply Hnone. lia.
      * intros j Hj Hover.
        destruct (overflows stack (drop (s_position (scan code i)) code)) eqn:E; [done|].
        apply (Hthrow j); [|done]. destruct (decide (j = i)) as [->|Hne]; [congruence|lia].
    + exists i. split; [done|]. split; [done|]. split; [lia|]. split; [lia|].
      split; [done|lia].
Qed.

Lemma scan_position_ge (code : list N) (n i : nat) :
  (forall j, j < n ->
     s_position (scan code j) < s_position (scan code (S j)) <= length code) ->
  i <= n -> i <= s_position (scan code i).
Proof.
  intros Hsteps. induction i as [|i IH]; intros Hi; [lia|].
  specialize (Hsteps i ltac:(lia)). lia.
Qed.

Lemma scan_emitted (code : list N) (n : nat) :
  (forall j, j < n -> s_position (scan code j) < length code) ->
  Forall (emitted code) (s_tokens (scan code n)).
Proof.
  induction n as [|n IH]; intros H; [by constructor|].
  rewrite scan_S. apply step_emitted; [apply H; lia|]. apply IH. intros j Hj. apply H. lia.
Qed.

Lemma scan_visible (code : list N) (n : nat) :
  (forall j, j < n -> s_position (scan code j) < length code) ->
  visible (concat (map value (s_tokens (scan code n))))
  = visible (take (s_position (scan code n)) code).
Proof.
  induction n as [|n IH]; intros H; [done|].
  rewrite scan_S. apply step_visible; [apply H; lia|]. apply IH. intros j Hj. apply H. lia.
Qed.

(** C6, amended.  On an engine with a backtracking stack of [stack]
    entries, [tokenize] goes through the states [scan code 0], [scan code 1]
    and so on to a state [scan code n] with [n] at most the length of the
    input, each iteration moving the position on by at least one code unit
    and the last one reaching the end of the input.  When every string
    literal that the loop meets stays within the stack, as all do in an
    input no longer than the stack, the call returns the tokens of that
    state and does not throw; when a rule search overflows the stack the
    call throws.  Where no rule matches, the iteration emits the code unit
    at the position as an [UNKNOWN] token and moves on by one.  Every token carries the text of
    the input at its position, and the tokens hold every code unit of the
    input that is not white space.  The empty input gives the empty token
    list. *)
Theorem tokenize_total (stack : nat) (code : list N) :
  exists n,
    n <= length code
    /\ s_position (scan code n) = length code
    /\ (forall i, i < n ->
          s_position (scan code i) < s_position (scan code (S i)) <= length code)
    /\ tokenize code = Some (s_tokens (scan code n))
    /\ ((forall i, i < n ->
           stringDepth (drop (s_position (scan code i)) code) <= stack) ->
        tokenizeOn stack code = Some (Returned (s_tokens (scan code n))))
    /\ (length code <= stack ->
        tokenizeOn stack code = Some (Returned (s_tokens (scan code n))))
    /\ (forall i, i < n ->
          overflows stack (drop (s_position (scan code i)) code) = true ->
          tokenizeOn stack code = Some RangeError)
    /\ (forall i, i < n ->
          firstRule rules (drop (s_position (scan code i)) code) = None ->
          exists unknownChar,
            code !! s_position (scan code i) = Some unknownChar
            /\ mkToken UNKNOWN [unknownChar] (s_position (scan code i))
                 (s_line (scan code i)) (s_column (scan code i))
               ∈ s_tokens (scan code n)
            /\ s_position (scan code (S i)) = s_position (scan code i) + 1)
    /\ Forall (emitted code) (s_tokens (scan code n))
    /\ visible (concat (map value (s_tokens (scan code n)))) = visible code
    /\ tokenize [] = Some []
    /\ tokenizeOn stack [] = Some (Returned []).
Proof.
  destruct (loop_scan stack code (length code) 0)
    as (n & _ & Hloop & Hpos & Hsteps & Hok & Hthrow); [cbn; lia..|].
  assert (Hsteps' : forall i, i < n ->
            s_position (scan code i) < s_position (scan code (S i)) <= length code).
  { intros i Hi. apply Hsteps. lia. }
  assert (Hin : forall j, j < n -> s_position (scan code j) < length code).
  { intros j Hj. specialize (Hsteps' j Hj). lia. }
  assert (Hdepth : (forall i, i < n ->
                      stringDepth (drop (s_position (scan code i)) code) <= stack) ->
                   tokenizeOn stack code = Some (Returned (s_tokens (scan code n)))).
  { intros Hd. apply Hok. intros j Hj. apply overflows_depth, Hd. lia. }
  exists n. split.
  { pose proof (scan_position_ge code n n Hsteps' ltac:(lia)). lia. }
  split; [done|]. split; [done|]. split.
  { unfold tokenize. change start with (scan code 0). by rewrite Hloop. }
  split; [done|]. split.
  { intros Hstack. apply Hdepth. intros i Hi.
    etrans; [apply stringDepth_le|]. rewrite length_drop. lia. }
  split.
  { intros i Hi Hover. apply (Hthrow i); [lia|done]. }
  split.
  { intros i Hi Hnone.
    destruct (step_unknown code (scan code i) (Hin i Hi) Hnone) as (c & Hc & Hstep).
    exists c. split; [done|]. split; [|by rewrite scan_S, Hstep].
    eapply elem_of_prefix; [|apply (scan_tokens_prefix code (S i) n); lia].
    rewrite scan_S, Hstep. cbn [s_tokens]. apply elem_of_app. right.
    by apply list_elem_of_singleton. }
  split; [by apply scan_emitted|]. split.
  { rewrite scan_visible by done. by rewrite Hpos, firstn_all. }
  done.
Qed.

Lemma stringRepetitions_letters (n : nat) (rest : list N) :
  stringRepetitions 34 (repeat 97%N n ++ 34%N :: rest) = n.
Proof.
  induction n as [|n IH]; [reflexivity|].
  cbn [repeat app stringRepetitions]. change (N.eqb 97 34) with false.
  change (N.eqb 97 92) with false. cbn iota. by rewrite IH.
Qed.

Lemma tokenizeOn_long_literal (stack : nat) :
  tokenizeOn stack (34%N :: repeat 97%N (S stack) ++ [34%N]) = Some RangeError.
Proof.
  unfold tokenizeOn. cbn [length loopOn start s_position].
  rewrite bool_decide_eq_true_2 by lia. rewrite drop_0.
  unfold overflows.
  assert (Hk : matchKeyword (34%N :: repeat 97%N (S stack) ++ [34%N]) = None)
    by reflexivity.
  assert (Hn : matchNumber (34%N :: repeat 97%N (S stack) ++ [34%N]) = None)
    by reflexivity.
  rewrite Hk, Hn. unfold matchStringOn. cbn [stringDepth].
  change (N.eqb 34 34) with true. cbn [orb].
  rewrite stringRepetitions_letters. by rewrite bool_decide_eq_true_2 by lia.
Qed.

(** C6, against the claim as written: a string literal of 4194305 letters
    between double quotes, on an engine whose stack holds 4194304 entries,
    makes [tokenize] throw. *)
Lemma tokenize_throws :
  tokenizeOn (4 * 1024 * 1024)
    (34%N :: repeat 97%N (S (4 * 1024 * 1024)) ++ [34%N])
  = Some RangeError.
Proof. exact (tokenizeOn_long_literal (4 * 1024 * 1024)). Qed.

Lemma tokenize_total_witness :
  tokenizeOn 16 (units "a # 'b'")
  = Some
      (Returned
         [mkToken IDENTIFIER (units "a") 0 1 1; mkToken UNKNOWN (units "#") 2 1 3;
          mkToken STRING (units "'b'") 4 1 5])
  /\ exists n,
       n <= length (units "a # 'b'")
       /\ tokenizeOn 16 (units "a # 'b'")
          = Some (Returned (s_tokens (scan (units "a # 'b'") n)))
       /\ (exists unknownChar,
             units "a # 'b'" !! s_position (scan (units "a # 'b'") 2)
             = Some unknownChar
             /\ mkToken UNKNOWN [unknownChar] (s_position (scan (units "a # 'b'") 2))
                  (s_line (scan (units "a # 'b'") 2))
                  (s_column (scan (units "a # 'b'") 2))
                ∈ s_tokens (scan (units "a # 'b'") n)
             /\ s_position (scan (units "a # 'b'") 3)
                = s_position (scan (units "a # 'b'") 2) + 1).
Proof.
  split; [by vm_compute|].
  destruct (tokenize_total 16 (units "a # 'b'"))
    as (n & Hn & Hpos & _ & _ & _ & Hstack & _ & Hunknown & _).
  exists n. split; [exact Hn|]. split; [apply Hstack; cbn; lia|].
  apply Hunknown; [|by vm_compute].
  clear - Hpos.
  destruct n as [|[|[|n]]]; [vm_compute in Hpos; discriminate Hpos..|clear; lia].
Defined.

(** More fuel changes nothing. *)
Lemma loop_fuel_irrelevant (code : list N) (fuel : nat) :
  length code <= fuel -> loop fuel code start = loop (length code) code start.
Proof.
  intros Hfuel.
  assert (Hmono : forall n st final,
            loop n code st = Some final -> loop (S n) code st = Some final).
  { induction n as [|n IH]; intros st final; cbn [loop].
    - case_bool_decide; [done|]. by intros ->.
    - case_bool_decide; [|by intros ->]. apply IH. }
  destruct (loop_terminates code (length code) start) as (final & Hloop & _);
    [cbn; lia..|].
  rewrite Hloop. clear -Hfuel Hloop Hmono.
  induction Hfuel as [|fuel _ IH]; [done|]. by apply Hmono.
Qed.

(** C7.  The operator rule does not take the longest operator: its
    alternation lists [==] before [===] and [!=] before [!==], so the
    three-character operators are never matched.  [tokenize] splits [===]
    into [==] and [=], and [!==] into [!=] and [=]; [=>], which no earlier
    alternative is a prefix of, comes out as one token. *)
Theorem tokenize_triple_equals_split :
  tokenize (units "===")
  = Some [ mkToken OPERATOR (units "==") 0 1 1; mkToken OPERATOR (units "=") 2 1 3 ]
  /\ tokenize (units "!==")
     = Some [ mkToken OPERATOR (units "!=") 0 1 1; mkToken OPERATOR (units "=") 2 1 3 ]
  /\ tokenize (units "=>") = Some [ mkToken OPERATOR (units "=>") 0 1 1 ].
Proof. by vm_compute. Qed.

(** No input makes the operator rule match more than two code units. *)
Lemma matchOperator_at_most_two (input value : list N) :
  matchOperator input = Some value -> length value <= 2.
Proof.
  unfold matchOperator, operators. cbn [firstLiteral]. cbv beta.
  repeat match goal with
         | |- context [startsWith ?p input && true] =>
             destruct (startsWith p input) eqn:?; cbn [andb]
         end;
    try (intros [= <-]; cbn; lia); try done.
  - match goal with
    | H : startsWith (units "===") input = true |- _ =>
        apply (startsWith_app (units "==") (units "=")) in H; congruence
    end.
  - match goal with
    | H : startsWith (units "!==") input = true |- _ =>
        apply (startsWith_app (units "!=") (units "=")) in H; congruence
    end.
Qed.

End TokenizerFacts.

(** ** The tokenizer: unreachable rule, positions and layout *)

Section TokenizerLayout.
Import Tokenizer.
Local Open Scope nat_scope.

(* ---------- comment rule ---------- *)

Lemma tokenize_loop (code : list N) (tokens : list Token) :
  tokenize code = Some tokens ->
  exists final,
    loop (length code) code start = Some final
    /\ s_tokens final = tokens /\ s_position final = length code.
Proof.
  unfold tokenize. destruct (loop (length code) code start) as [final|] eqn:E; [|done].
  intros [= <-]. exists final.
  destruct (loop_terminates code (length code) start) as (final' & Hloop & Hpos);
    [cbn; lia..|].
  assert (final' = final) as -> by congruence. done.
Qed.

(** X1.  The [COMMENT] rule never fires: whatever its pattern matches
    starts with a slash, which the [OPERATOR] rule, tried before it, matches
    as well; so no rule search ever answers [COMMENT]. *)
Theorem comment_rule_unreachable (slice : list N) :
  (forall value, matchComment slice = Some value ->
     exists operator, matchOperator slice = Some operator)
  /\ (forall ty value, firstRule rules slice = Some (ty, value) -> ty <> COMMENT).
Proof.
  split.
  - apply matchComment_operator.
  - apply firstRule_never_comment.
Qed.

Lemma comment_rule_unreachable_witness :
  exists operator, matchOperator (units "// x") = Some operator.
Proof.
  apply (proj1 (comment_rule_unreachable (units "// x")) (units "// x")).
  reflexivity.
Defined.

Lemma newlines_app (a b : list N) : newlines (a ++ b) = newlines a + newlines b.
Proof. unfold newlines. by rewrite filter_app, length_app. Qed.

Lemma newlines_cons (c : N) (l : list N) :
  newlines (c :: l) = (if N.eqb c 10 then 1 else 0) + newlines l.
Proof.
  unfold newlines. rewrite filter_cons.
  destruct (N.eqb_spec c 10) as [->|Hne].
  - by rewrite decide_True.
  - by rewrite decide_False.
Qed.

Lemma lastLineLength_app (a b : list N) (n : nat) :
  lastLineLength (a ++ b) n = lastLineLength b (lastLineLength a n).
Proof.
  revert n. induction a as [|c a IH]; intros n; cbn; [done|].
  destruct (N.eqb c 10); apply IH.
Qed.

Lemma lastLineLength_flat (b : list N) (n : nat) :
  newlines b = 0 -> lastLineLength b n = n + length b.
Proof.
  revert n. induction b as [|c b IH]; intros n; cbn [lastLineLength length]; [lia|].
  rewrite newlines_cons. destruct (N.eqb c 10); [done|].
  intros H. rewrite IH by done. lia.
Qed.

Lemma lastLineLength_broken (b : list N) (n m : nat) :
  0 < newlines b -> lastLineLength b n = lastLineLength b m.
Proof.
  revert n m. induction b as [|c b IH]; intros n m; cbn [lastLineLength].
  - cbn. lia.
  - rewrite newlines_cons. destruct (N.eqb c 10) eqn:E.
    + done.
    + intros H. by apply IH.
Qed.

Lemma firstRule_none_whitespace (slice : list N) :
  firstRule rules slice = None -> matchWhitespace slice = None.
Proof.
  unfold rules. cbn [firstRule].
  destruct (matchKeyword slice); [done|].
  destruct (matchNumber slice); [done|].
  destruct (matchString slice); [done|].
  destruct (matchIdentifier slice); [done|].
  destruct (matchOperator slice); [done|].
  destruct (matchDelimiter slice); [done|].
  by destruct (matchWhitespace slice).
Qed.

Lemma lastLineLength_snoc (l : list N) (c : N) (n : nat) :
  lastLineLength (l ++ [c]) n = if N.eqb c 10 then 0 else S (lastLineLength l n).
Proof. rewrite lastLineLength_app. cbn. by destruct (N.eqb c 10). Qed.

Lemma lastLineLength_takeWhile (l : list N) :
  lastLineLength l 0
  = length (takeWhile (fun c => negb (N.eqb c 10)) (rev l)).
Proof.
  induction l as [|c l IH] using rev_ind; [done|].
  rewrite lastLineLength_snoc, rev_unit. cbn [takeWhile].
  destruct (N.eqb c 10); cbn; [done|by rewrite IH].
Qed.

Lemma located_source (code : list N) (position line column : nat) :
  located code position line column
  <-> line = 1 + newlines (take position code)
      /\ column = 1 + lastLineLength (take position code) 0.
Proof. unfold located. by rewrite lastLineLength_takeWhile. Qed.

Lemma step_located (code : list N) (st : Scan) :
  s_position st < length code ->
  located code (s_position st) (s_line st) (s_column st) ->
  located code (s_position (step code st)) (s_line (step code st))
    (s_column (step code st)).
Proof.
  intros Hlt Hloc. apply located_source in Hloc as [Hline Hcol].
  apply located_source. unfold step.
  destruct (firstRule rules (drop (s_position st) code)) as [[ty value]|] eqn:E.
  - apply firstRule_rules in E as [[_ Hpre] _].
    pose proof (take_advance _ _ _ Hpre) as Htake.
    case_bool_decide as Hnl; cbn [s_position s_line s_column];
      rewrite Htake, newlines_app, lastLineLength_app.
    + split; [lia|]. rewrite (lastLineLength_broken value (lastLineLength (take _ code) 0) 0) by done. lia.
    + split; [lia|]. rewrite lastLineLength_flat by lia. lia.
  - destruct (drop (s_position st) code) as [|c rest] eqn:Hd.
    { apply (f_equal length) in Hd. rewrite length_drop in Hd. cbn in Hd. lia. }
    assert (Hc : N.eqb c 10 = false).
    { destruct (N.eqb_spec c 10) as [->|]; [|done].
      by apply firstRule_none_whitespace in E. }
    assert (Hpre : [c] `prefix_of` drop (s_position st) code).
    { rewrite Hd. apply prefix_cons, prefix_nil. }
    pose proof (take_advance _ _ _ Hpre) as Htake. cbn [length] in Htake.
    cbn [s_position s_line s_column].
    rewrite Htake, newlines_app, lastLineLength_app, newlines_cons, Hc.
    cbn [lastLineLength]. rewrite Hc. cbn. split; lia.
Qed.

Lemma step_tokens_located (code : list N) (st : Scan) :
  s_position st < length code ->
  located code (s_position st) (s_line st) (s_column st) ->
  Forall (fun t => located code (position t) (line t) (column t)) (s_tokens st) ->
  Forall (fun t => located code (position t) (line t) (column t))
    (s_tokens (step code st)).
Proof.
  intros Hlt Hloc Hall. unfold step.
  destruct (firstRule rules (drop (s_position st) code)) as [[ty value]|].
  - destruct (bool_decide (0 < newlines value));
      destruct (bool_decide (ty <> WHITESPACE) && bool_decide (ty <> COMMENT));
      cbn [s_tokens]; try done;
      apply Forall_app; (split; [done|]); by (constructor; [|constructor]).
  - destruct (drop (s_position st) code); [done|]. cbn [s_tokens].
    apply Forall_app. split; [done|]. by (constructor; [|constructor]).
Qed.

Lemma loop_located (code : list N) (fuel : nat) (st final : Scan) :
  located code (s_position st) (s_line st) (s_column st) ->
  Forall (fun t => located code (position t) (line t) (column t)) (s_tokens st) ->
  loop fuel code st = Some final ->
  Forall (fun t => located code (position t) (line t) (column t)) (s_tokens final).
Proof.
  revert st. induction fuel as [|fuel IH]; intros st Hloc Hall; cbn [loop].
  - case_bool_decide; [done|]. by intros [= <-].
  - case_bool_decide as Hlt; [|by intros [= <-]].
    apply IH; [by apply step_located|by apply step_tokens_located].
Qed.

(** X2.  The line and the column that [tokenize] records in a token are
    those of its position: one more than the number of line feeds before
    it, and one more than the number of code units since the last of them. *)
Theorem tokenize_lines_and_columns (code : list N) (tokens : list Token) :
  tokenize code = Some tokens ->
  Forall (fun t => located code (position t) (line t) (column t)) tokens.
Proof.
  intros H. apply tokenize_loop in H as (final & Hloop & <- & _).
  apply (loop_located code (length code) start); [|done|done].
  by split.
Qed.

Lemma tokenize_lines_and_columns_witness :
  Forall
    (fun t => located (units "a" ++ 10%N :: units " b") (position t) (line t) (column t))
    [mkToken IDENTIFIER (units "a") 0 1 1; mkToken IDENTIFIER (units "b") 3 2 2].
Proof. apply tokenize_lines_and_columns. reflexivity. Defined.

Lemma laidOut_weaken tokens p q : laidOut tokens p -> p <= q -> laidOut tokens q.
Proof.
  intros (H1 & H2 & H3) Hpq. split; [done|]. split; [|lia].
  intros t Ht. destruct (H2 t Ht) as (? & ? & ? & ?).
  split; [done|]. split; [lia|done].
Qed.

Lemma laidOut_snoc tokens t p q :
  laidOut tokens p ->
  p <= position t -> 1 <= length (value t) -> position t + length (value t) <= q ->
  type t <> WHITESPACE -> type t <> COMMENT ->
  p < q ->
  laidOut (tokens ++ [t]) q.
Proof.
  intros (H1 & H2 & H3) Hp Hne Hq Hw Hc Hpq. split; [|split].
  - intros i j ti tj Hi Hj Hij.
    apply lookup_app_Some in Hj as [Hj|[Hlen Hj]].
    + apply lookup_app_Some in Hi as [Hi|[Hlen' _]]; [by eapply H1|].
      apply lookup_lt_Some in Hj. lia.
    + apply list_lookup_singleton_Some in Hj as [Hj0 <-].
      apply lookup_app_Some in Hi as [Hi|[Hlen' Hi]];
        [|apply list_lookup_singleton_Some in Hi as [Hi0 _]; lia].
      destruct (H2 ti) as (_ & Hend & _); [by eapply list_elem_of_lookup_2|]. lia.
  - intros t' Ht'. apply elem_of_app in Ht' as [Ht'|Ht'].
    + destruct (H2 t' Ht') as (? & ? & ? & ?).
      split; [done|]. split; [lia|done].
    + apply list_elem_of_singleton in Ht' as ->. done.
  - rewrite length_app. cbn. lia.
Qed.

Lemma step_laidOut (code : list N) (st : Scan) :
  s_position st < length code ->
  laidOut (s_tokens st) (s_position st) ->
  laidOut (s_tokens (step code st)) (s_position (step code st)).
Proof.
  intros Hlt Hlaid. unfold step.
  destruct (firstRule rules (drop (s_position st) code)) as [[ty matched]|] eqn:E.
  - apply firstRule_rules in E as [Hc _]. apply consumes_length in Hc.
    assert (Hgoal :
      laidOut
        (if bool_decide (ty <> WHITESPACE) && bool_decide (ty <> COMMENT)
         then s_tokens st
                ++ [mkToken ty matched (s_position st) (s_line st) (s_column st)]
         else s_tokens st)
        (s_position st + length matched)).
    { destruct (decide (ty = WHITESPACE)) as [->|Hw];
        [cbn; eapply laidOut_weaken; [done|lia]|].
      destruct (decide (ty = COMMENT)) as [->|Hcm];
        [cbn; eapply laidOut_weaken; [done|lia]|].
      rewrite !bool_decide_eq_true_2 by done. cbn [andb].
      eapply laidOut_snoc; [done|..]; cbn [position value type]; done || lia. }
    by destruct (bool_decide (0 < newlines matched)).
  - destruct (drop (s_position st) code); [done|]. cbn [s_tokens s_position].
    eapply laidOut_snoc; [done|..]; cbn [position value type length]; done || lia.
Qed.

Lemma loop_laidOut (code : list N) (fuel : nat) (st final : Scan) :
  laidOut (s_tokens st) (s_position st) ->
  loop fuel code st = Some final ->
  laidOut (s_tokens final) (s_position final).
Proof.
  revert st. induction fuel as [|fuel IH]; intros st Hl; cbn [loop].
  - case_bool_decide; [done|]. by intros [= <-].
  - case_bool_decide as Hlt; [|by intros [= <-]].
    apply IH. by apply step_laidOut.
Qed.

(** X3.  The tokens that [tokenize] returns lie side by side in the input,
    in the order of the list: a token ends before the next one starts, none
    is empty, none reaches past the end of the input, none is white space or
    a comment, and there are at most as many tokens as code units. *)
Theorem tokenize_layout (code : list N) (tokens : list Token) :
  tokenize code = Some tokens -> laidOut tokens (length code).
Proof.
  intros H. apply tokenize_loop in H as (final & Hloop & <- & <-).
  apply (loop_laidOut code (length code) start); [|done].
  split; [|split]; cbn.
  - intros i j ti tj Hi. by rewrite lookup_nil in Hi.
  - intros t Ht. by apply elem_of_nil in Ht.
  - lia.
Qed.

Lemma tokenize_layout_witness :
  laidOut
    [mkToken IDENTIFIER (units "a") 0 1 1; mkToken OPERATOR (units "=") 2 1 3;
     mkToken NUMBER (units "1") 4 1 5]
    (length (units "a = 1")).
Proof. apply tokenize_layout. reflexivity. Defined.

Lemma tokenize_visible (code : list N) (tokens : list Token) :
  tokenize code = Some tokens ->
  visible (concat (map value tokens)) = visible code.
Proof.
  intros H. apply tokenize_loop in H as (final & Hloop & <- & Hpos).
  rewrite (loop_visible code (length code) start final); [|done|done].
  by rewrite Hpos, firstn_all.
Qed.

Lemma dropWhile_head (f : N -> bool) (input : list N) (c : N) (rest : list N) :
  dropWhile f input = c :: rest -> f c = false.
Proof.
  induction input as [|d input IH]; cbn [dropWhile]; [done|].
  destruct (f d) eqn:E; [exact IH|]. by intros [= <- _].
Qed.

Lemma trim_visible (input : list N) : trim input <> [] -> visible (trim input) <> [].
Proof.
  unfold trim. destruct (dropWhile isSpace (rev (dropWhile isSpace input)))
    as [|c rest] eqn:E; [done|].
  intros _. apply dropWhile_head in E. cbn [rev]. rewrite visible_app.
  unfold visible at 2. rewrite filter_cons, decide_True by done.
  intros H. by apply app_eq_nil in H as [_ H].
Qed.

Lemma tokenize_returns (code : list N) : exists tokens, tokenize code = Some tokens.
Proof.
  destruct (loop_terminates code (length code) start) as (final & Hloop & _);
    [cbn; lia..|].
  exists (s_tokens final). unfold tokenize. by rewrite Hloop.
Qed.

Lemma tokenize_count (code : list N) (tokens : list Token) :
  tokenize code = Some tokens -> visible code <> [] ->
  1 <= length tokens <= length code.
Proof.
  intros H Hv. split.
  - pose proof (tokenize_visible code tokens H) as Hvis.
    destruct tokens; [by rewrite <- Hvis in Hv|cbn; lia].
  - apply tokenize_loop in H as (final & Hloop & <- & <-).
    apply (loop_laidOut code (length code) start); [|done].
    split; [|split]; cbn.
    + intros i j ti tj Hi. by rewrite lookup_nil in Hi.
    + intros t Ht. by apply elem_of_nil in Ht.
    + lia.
Qed.

End TokenizerLayout.

(** ** Bracket validation *)

Section Validation.
Import Tokenizer.
Local Open Scope nat_scope.

Lemma opening_not_closing token : isOpening token = true -> isClosing token = false.
Proof.
  unfold isOpening, isClosing. destruct (bool_decide (type token = DELIMITER)); [|done].
  cbn. repeat case_bool_decide; try done.
  all: exfalso;
    match goal with
    | H1 : value ?t = _, H2 : value ?t = _ |- _ =>
        rewrite H1 in H2; vm_compute in H2; discriminate
    end.
Qed.

Lemma validateLoop_app (u w : list Token) (i : nat) (st : Validation) :
  validateLoop (u ++ w) i st = validateLoop w (i + length u) (validateLoop u i st).
Proof.
  revert i st. induction u as [|t u IH]; intros i st; cbn [validateLoop app length].
  - by rewrite Nat.add_0_r.
  - rewrite IH. f_equal. lia.
Qed.

Lemma validateStep_errors index token st :
  exists more, v_errors (validateStep index token st) = v_errors st ++ more.
Proof.
  unfold validateStep.
  destruct (isOpening token); [|destruct (isClosing token);
    [destruct (v_stack st); [|case_bool_decide]|]];
    case_bool_decide; cbn [v_errors]; eauto using app_nil_r.
  all: by exists [].
Qed.

Lemma validateLoop_errors tokens index st :
  exists more, v_errors (validateLoop tokens index st) = v_errors st ++ more.
Proof.
  revert index st. induction tokens as [|t tokens IH]; intros index st; cbn.
  - exists []. by rewrite app_nil_r.
  - destruct (IH (S index) (validateStep index t st)) as [m1 ->].
    destruct (validateStep_errors index t st) as [m2 ->].
    exists (m2 ++ m1). by rewrite app_assoc.
Qed.

(** Errors and stack after a step, whatever the warnings. *)
Lemma validateStep_other index token st :
  isOpening token = false -> isClosing token = false ->
  v_errors (validateStep index token st) = v_errors st
  /\ v_stack (validateStep index token st) = v_stack st.
Proof. intros Ho Hc. unfold validateStep. rewrite Ho, Hc. by case_bool_decide. Qed.

Lemma validateStep_open index token st :
  isOpening token = true ->
  v_errors (validateStep index token st) = v_errors st
  /\ v_stack (validateStep index token st)
     = mkOpenBracket (value token) index (line token) (column token) :: v_stack st.
Proof. intros Ho. unfold validateStep. rewrite Ho. by case_bool_decide. Qed.

Lemma validateStep_close index token st bracket rest :
  isOpening token = false -> isClosing token = true ->
  v_stack st = bracket :: rest ->
  bracketPairs (b_type bracket) = Some (value token) ->
  v_errors (validateStep index token st) = v_errors st
  /\ v_stack (validateStep index token st) = rest.
Proof.
  intros Ho Hc Hs Hp. unfold validateStep. rewrite Ho, Hc, Hs.
  rewrite (bool_decide_eq_false_2 (bracketPairs (b_type bracket) <> Some (value token)))
    by (intros H; by apply H).
  by case_bool_decide.
Qed.

(** A balanced list leaves the errors and the stack as they were. *)
Lemma balanced_neutral tokens :
  balanced tokens ->
  forall index st,
    v_errors (validateLoop tokens index st) = v_errors st
    /\ v_stack (validateLoop tokens index st) = v_stack st.
Proof.
  induction 1 as [|token rest Ho Hc _ IH|opener closer inner Ho Hc Hp _ IH
                  |left right _ IHl _ IHr]; intros index st.
  - done.
  - cbn [validateLoop]. destruct (IH (S index) (validateStep index token st)) as [-> ->].
    by apply validateStep_other.
  - cbn [validateLoop]. rewrite validateLoop_app. cbn [validateLoop].
    set (st1 := validateStep index opener st).
    destruct (validateStep_open index opener st Ho) as [He Hs]. fold st1 in He, Hs.
    destruct (IH (S index) st1) as [He2 Hs2].
    set (st2 := validateLoop inner (S index) st1) in *.
    assert (Hco : isOpening closer = false).
    { destruct (isOpening closer) eqn:E; [|done].
      apply opening_not_closing in E. congruence. }
    destruct (validateStep_close (S index + length inner) closer st2 _ _ Hco Hc
                ltac:(by rewrite Hs2, Hs) Hp) as [-> ->].
    by rewrite He2.
  - rewrite validateLoop_app. destruct (IHr (index + length left)
      (validateLoop left index st)) as [-> ->]. apply IHl.
Qed.

Lemma pending_balanced stack read more :
  pending stack read -> balanced more -> pending stack (read ++ more).
Proof.
  intros Hp Hb. destruct Hp as [read Hr|stack read bracket opener inner Hp Ho Ht Hi].
  - apply pending_nil. by apply balanced_app.
  - rewrite <- app_assoc. cbn. apply pending_open; try done. by apply balanced_app.
Qed.

Lemma balanced_single token :
  isOpening token = false -> isClosing token = false -> balanced [token].
Proof. intros. apply balanced_other; try done. apply balanced_nil. Qed.

Lemma validateStep_pending index token st read :
  v_errors st = [] -> pending (v_stack st) read ->
  v_errors (validateStep index token st) = [] ->
  pending (v_stack (validateStep index token st)) (read ++ [token]).
Proof.
  intros He Hp. destruct (isOpening token) eqn:Ho.
  - destruct (validateStep_open index token st Ho) as [-> ->]. intros _.
    apply pending_open; try done. apply balanced_nil.
  - destruct (isClosing token) eqn:Hc.
    + unfold validateStep. rewrite Ho, Hc.
      destruct (v_stack st) as [|bracket stack] eqn:Hst.
      { case_bool_decide; cbn [v_errors]; rewrite He; cbn; discriminate. }
      inversion Hp as [|stack' read' bracket' opener inner Hp' Hop Ht Hi]; subst.
      destruct (decide (bracketPairs (b_type bracket) = Some (value token)))
        as [Hm|Hm].
      * rewrite (bool_decide_eq_false_2
                   (bracketPairs (b_type bracket) <> Some (value token)))
          by (intros H; by apply H).
        intros _.
        assert (Hgoal : pending stack ((read' ++ opener :: inner) ++ [token])).
        { rewrite <- app_assoc. cbn. apply pending_balanced; [done|].
          apply balanced_wrap; try done. by rewrite <- Ht. }
        by case_bool_decide.
      * rewrite (bool_decide_eq_true_2
                   (bracketPairs (b_type bracket) <> Some (value token))) by done.
        case_bool_decide; cbn [v_errors]; rewrite He; cbn; discriminate.
    + destruct (validateStep_other index token st Ho Hc) as [-> ->]. intros _.
      apply pending_balanced; [done|]. by apply balanced_single.
Qed.

Lemma validateLoop_pending tokens index st read :
  v_errors st = [] -> pending (v_stack st) read ->
  v_errors (validateLoop tokens index st) = [] ->
  pending (v_stack (validateLoop tokens index st)) (read ++ tokens).
Proof.
  revert index st read. induction tokens as [|t tokens IH]; intros index st read He Hp.
  - cbn. by rewrite app_nil_r.
  - cbn [validateLoop]. intros Hfinal.
    assert (He1 : v_errors (validateStep index t st) = []).
    { destruct (validateLoop_errors tokens (S index) (validateStep index t st))
        as [more Hm]. rewrite Hfinal in Hm. symmetry in Hm.
      by apply app_eq_nil in Hm as [? _]. }
    replace (read ++ t :: tokens) with ((read ++ [t]) ++ tokens)
      by (by rewrite <- app_assoc).
    apply IH; [done| |done]. by apply validateStep_pending.
Qed.

(** X4.  [validateTokens] answers [isValid] exactly for the token lists
    whose round, square and curly brackets are balanced: every closing
    bracket closes the last bracket still open and is of its kind, and no
    bracket stays open. *)
Theorem validateTokens_balanced (tokens : list Token) :
  isValid (validateTokens tokens) = true <-> balanced tokens.
Proof.
  unfold validateTokens. cbn [isValid]. rewrite Nat.eqb_eq, length_zero_iff_nil.
  set (final := validateLoop tokens 0 _). split.
  - intros H. apply app_eq_nil in H as [He Hs].
    apply map_eq_nil in Hs. apply (f_equal (@rev _)) in Hs.
    rewrite rev_involutive in Hs. cbn in Hs.
    pose proof (validateLoop_pending tokens 0 (mkValidation [] [] []) []
                  eq_refl (pending_nil [] balanced_nil) He) as Hp.
    fold final in Hp. rewrite Hs in Hp. cbn in Hp. by inversion Hp.
  - intros Hb.
    destruct (balanced_neutral tokens Hb 0 (mkValidation [] [] [])) as [He Hs].
    fold final in He, Hs. by rewrite He, Hs.
Qed.

Lemma validateTokens_balanced_witness :
  balanced
    [mkToken DELIMITER (units "(") 0 1 1; mkToken IDENTIFIER (units "a") 1 1 2;
     mkToken DELIMITER (units ")") 2 1 3].
Proof. apply validateTokens_balanced. reflexivity. Defined.

Lemma validateStep_warnings index token st :
  v_warnings (validateStep index token st)
  = v_warnings st
      ++ (if bool_decide (type token = UNKNOWN)
          then [mkIssue UnknownToken (line token) (column token)] else []).
Proof.
  unfold validateStep.
  destruct (isOpening token); [|destruct (isClosing token);
    [destruct (v_stack st); [|case_bool_decide]|]];
    case_bool_decide; cbn [v_warnings]; by rewrite ?app_nil_r.
Qed.

(** X5.  The warnings of [validateTokens] are one [UnknownToken] per
    [UNKNOWN] token, in the order of the tokens and with the line and the
    column of each; brackets add no warning. *)
Theorem validateTokens_warnings (tokens : list Token) :
  warnings (validateTokens tokens)
  = map (fun t => mkIssue UnknownToken (line t) (column t))
        (filter (fun t => type t = UNKNOWN) tokens).
Proof.
  unfold validateTokens. cbn [warnings].
  assert (H : forall index st,
            v_warnings (validateLoop tokens index st)
            = v_warnings st
                ++ map (fun t => mkIssue UnknownToken (line t) (column t))
                     (filter (fun t => type t = UNKNOWN) tokens)).
  { induction tokens as [|t tokens IH]; intros index st; cbn [validateLoop].
    - by rewrite app_nil_r.
    - rewrite IH, validateStep_warnings, filter_cons.
      case_bool_decide as Hu.
      + rewrite decide_True by done. by rewrite <- app_assoc.
      + rewrite decide_False by done. by rewrite app_nil_r. }
  by rewrite H.
Qed.

End Validation.

(** ** Complexity *)

Section Complexity.
Import Tokenizer.
Local Open Scope Qc_scope.

Lemma of_Z_add (a b : Z) : Decimal.of_Z (a + b) = Decimal.of_Z a + Decimal.of_Z b.
Proof.
  apply Qc_is_canon. unfold Decimal.of_Z. cbn [this Q2Qc Qcplus].
  rewrite !Qred_correct. rewrite inject_Z_plus. reflexivity.
Qed.

Lemma weight_double (ty : TokenType) :
  weight ty = Decimal.of_Z (doubleWeight ty) / Decimal.new 2.
Proof. destruct ty; apply Qc_is_canon; by vm_compute. Qed.

Lemma complexity_fold (tokens : list Token) (acc : Qc) :
  fold_left (fun complexity token => complexity + weight (type token)) tokens acc
  = acc + Decimal.of_Z (foldr Z.add 0%Z (map (fun t => doubleWeight (type t)) tokens))
          / Decimal.new 2.
Proof.
  revert acc. induction tokens as [|t tokens IH]; intros acc; cbn [fold_left map foldr].
  - change (Decimal.of_Z 0) with 0. unfold Qcdiv. ring.
  - rewrite IH, weight_double, of_Z_add. unfold Qcdiv. ring.
Qed.

Lemma of_Z_lt_inv (a b : Z) : Decimal.of_Z a < Decimal.of_Z b -> (a < b)%Z.
Proof.
  intros H. destruct (Z.lt_ge_cases a b) as [|Hge]; [done|].
  apply of_Z_le in Hge. by apply Qclt_not_le in H.
Qed.

Lemma round_half_integer (k : Z) :
  round (Decimal.of_Z k / Decimal.new 2 * Decimal.new 10) = (5 * k)%Z.
Proof.
  unfold round.
  replace (Decimal.of_Z k / Decimal.new 2 * Decimal.new 10 + Decimal.new 0.5)
    with (Decimal.of_Z (5 * k) + Decimal.new 0.5).
  2:{ rewrite of_Z_mul. unfold Qcdiv.
      replace (Decimal.of_Z 5) with (/ Decimal.new 2 * Decimal.new 10)
        by (apply Qc_is_canon; by vm_compute).
      ring. }
  set (x := Decimal.of_Z (5 * k) + Decimal.new 0.5).
  pose proof (of_Z_floor_le x) as Hlo. pose proof (lt_of_Z_floor_succ x) as Hhi.
  assert (H1 : Decimal.of_Z (5 * k) <= x).
  { unfold x. rewrite <- (Qcplus_0_r (Decimal.of_Z (5 * k))) at 1.
    apply Qcplus_le_mono_l. qc_decide. }
  assert (H2 : x < Decimal.of_Z (5 * k + 1)).
  { unfold x. rewrite of_Z_add. apply Qcplus_lt_mono_l. qc_decide. }
  pose proof (of_Z_lt_inv _ _ (Qcle_lt_trans _ _ _ Hlo H2)).
  pose proof (of_Z_lt_inv _ _ (Qcle_lt_trans _ _ _ H1 Hhi)).
  lia.
Qed.

(** X6.  The rounding of [calculateComplexity] to one decimal never changes
    the value: every weight is a multiple of one half, so the score is the
    plain sum of the weights.  Hence the score of two token lists in a row
    is the sum of their scores, and it lies between one half and three
    times the number of tokens. *)
Theorem calculateComplexity_exact (tokens more : list Token) :
  calculateComplexity tokens = complexitySum tokens
  /\ calculateComplexity (tokens ++ more)
     = calculateComplexity tokens + calculateComplexity more
  /\ Decimal.new 0.5 * Decimal.of_Z (Z.of_nat (length tokens))
     <= calculateComplexity tokens
  /\ calculateComplexity tokens
     <= Decimal.new 3 * Decimal.of_Z (Z.of_nat (length tokens)).
Proof.
  assert (Hexact : forall l, calculateComplexity l = complexitySum l).
  { intros l. unfold calculateComplexity, complexitySum.
    rewrite complexity_fold. change (Decimal.new 0) with 0. rewrite Qcplus_0_l.
    rewrite round_half_integer, of_Z_mul. unfold Qcdiv.
    replace (Decimal.of_Z 5) with (/ Decimal.new 2 * Decimal.new 10)
      by (apply Qc_is_canon; by vm_compute).
    field. split; intros H; by vm_compute in H. }
  split; [apply Hexact|]. split.
  - rewrite !Hexact. unfold complexitySum. rewrite fold_left_app.
    rewrite (complexity_fold more). rewrite (complexity_fold more (Decimal.new 0)).
    change (Decimal.new 0) with 0. ring.
  - rewrite Hexact. unfold complexitySum.
    assert (Hb : forall l acc,
              acc + Decimal.new 0.5 * Decimal.of_Z (Z.of_nat (length l))
              <= fold_left (fun c t => c + weight (type t)) l acc
              /\ fold_left (fun c t => c + weight (type t)) l acc
                 <= acc + Decimal.new 3 * Decimal.of_Z (Z.of_nat (length l))).
    { induction l as [|t l IH]; intros acc; cbn [fold_left length].
      - change (Decimal.of_Z (Z.of_nat 0)) with 0. rewrite !Qcmult_0_r, Qcplus_0_r.
        split; apply Qcle_refl.
      - destruct (IH (acc + weight (type t))) as [Hlo Hhi].
        rewrite Nat2Z.inj_succ. unfold Z.succ. rewrite of_Z_add.
        change (Decimal.of_Z 1) with 1.
        assert (Hw : Decimal.new 0.5 <= weight (type t) <= Decimal.new 3)
          by (destruct (type t); split; qc_decide).
        destruct Hw as [Hw1 Hw2]. split.
        + eapply Qcle_trans; [|exact Hlo].
          replace (acc + Decimal.new 0.5 * (Decimal.of_Z (Z.of_nat (length l)) + 1))
            with (acc + Decimal.new 0.5
                  + Decimal.new 0.5 * Decimal.of_Z (Z.of_nat (length l))) by ring.
          apply Qcplus_le_mono_r. by apply Qcplus_le_mono_l.
        + eapply Qcle_trans; [exact Hhi|].
          replace (acc + Decimal.new 3 * (Decimal.of_Z (Z.of_nat (length l)) + 1))
            with (acc + Decimal.new 3
                  + Decimal.new 3 * Decimal.of_Z (Z.of_nat (length l))) by ring.
          apply Qcplus_le_mono_r. by apply Qcplus_le_mono_l. }
    destruct (Hb tokens (Decimal.new 0)) as [Hlo Hhi].
    change (Decimal.new 0) with 0 in *. rewrite Qcplus_0_l in Hlo, Hhi. done.
Qed.

End Complexity.

Section RoundingError.
Local Open Scope Q_scope.

(** Rounding to three or more digits moves a positive value by at most one
    part in a hundred. *)
Lemma roundPositive_near (sd : Z) (x : Q) :
  (3 <= sd)%Z -> 0 < x ->
  x * (99 # 100) <= Decimal.roundPositive sd x
  /\ Decimal.roundPositive sd x <= x * (101 # 100).
Proof.
  intros Hsd Hx. destruct (exponent_spec x Hx) as [Hlo Hhi].
  unfold Decimal.roundPositive. cbv zeta. set (e := Decimal.exponent x) in *.
  set (ulp := 10 ^ (e + 1 - sd)).
  assert (Hu : 0 < ulp) by apply ten_pos.
  assert (Hsmall : ulp * 100 <= x).
  { assert (H1 : ulp <= 10 ^ (e - 2)) by (apply ten_le; lia).
    pose proof (ten_add (e - 2) 2) as E. replace (e - 2 + 2)%Z with e in E by lia.
    assert (E2 : 10 ^ 2 == 100) by reflexivity. rewrite E2 in E.
    pose proof (ten_pos (e - 2)). nra. }
  pose proof (Qfloor_le (x / ulp + (1 # 2))) as Hf1.
  pose proof (Qlt_floor (x / ulp + (1 # 2))) as Hf2.
  set (c := Qfloor _) in *.
  rewrite inject_Z_plus in Hf2. change (inject_Z 1) with 1 in Hf2.
  assert (Hdiv : x / ulp * ulp == x) by (field; lra).
  set (y := x / ulp) in *.
  assert (H1 : inject_Z c * ulp <= (y + (1 # 2)) * ulp)
    by (apply Qmult_le_compat_r; lra).
  assert (H2 : (y - (1 # 2)) * ulp <= inject_Z c * ulp)
    by (apply Qmult_le_compat_r; lra).
  split; nra.
Qed.

Lemma roundQ_near (x : Q) :
  0 < x ->
  x * (99 # 100) <= Decimal.roundQ Decimal.precision x
  /\ Decimal.roundQ Decimal.precision x <= x * (101 # 100).
Proof.
  intros Hx. rewrite roundQ_pos by done. by apply roundPositive_near.
Qed.

End RoundingError.

Section RoundingErrorQc.
Local Open Scope Qc_scope.

Lemma round_near (x : Qc) :
  0 < x ->
  x * Decimal.new (99 # 100) <= Decimal.round x
  /\ Decimal.round x <= x * Decimal.new (101 # 100).
Proof.
  intros Hx. unfold Qcle, Decimal.new. cbn [this Qcmult Q2Qc].
  rewrite !Qred_correct, !this_round. by apply roundQ_near.
Qed.

Lemma round_pos (x : Qc) : 0 < x -> 0 < Decimal.round x.
Proof.
  intros Hx. destruct (round_near x Hx) as [H _].
  eapply Qclt_le_trans; [|exact H]. apply Qcmult_pos_pos; [done|].
  apply (bool_decide_unpack _). vm_compute. exact I.
Qed.

End RoundingErrorQc.

(** ** The economy: multipliers, prices, the tick *)

Section Economy.
Local Open Scope Qc_scope.

Lemma Qcmult_ge_1 (x y : Qc) : 1 <= x -> 1 <= y -> 1 <= x * y.
Proof.
  intros Hx Hy. apply Qcle_trans with (x * 1).
  - by rewrite Qcmult_1_r.
  - apply Qcmult_le_mono_nonneg_l; [|done].
    apply Qcle_trans with 1; [qc_decide|done].
Qed.

Lemma Qcpower_ge_1 (x : Qc) (n : nat) : 1 <= x -> 1 <= x ^ n.
Proof.
  intros Hx. induction n as [|n IH]; cbn [Qcpower]; [apply Qcle_refl|].
  by apply Qcmult_ge_1.
Qed.

Lemma pow_ge_1 (x : Qc) (n : Z) : 1 <= x -> (0 < n)%Z -> 1 <= Decimal.pow x n.
Proof.
  intros Hx Hn. destruct n as [|p|p]; [lia| |lia]. cbn. by apply Qcpower_ge_1.
Qed.

Lemma getPrestigeMultiplier_ge_1 (resource : Resource) (s : GameState.t) :
  1 <= GameState.getPrestigeMultiplier resource s.
Proof.
  unfold GameState.getPrestigeMultiplier.
  set (base := if bool_decide _ then _ else _).
  assert (Hbase : 1 <= base).
  { unfold base. case_bool_decide; [|apply Qcle_refl].
    unfold Decimal.mul. rewrite Qcmult_1_l. apply pow_ge_1; [qc_decide|done]. }
  clearbody base. revert base Hbase.
  induction (GameState.prestigeUpgrades s) as [|[k upgrade] table IH];
    intros base Hbase; cbn [fold_left]; [done|].
  apply IH. cbn [snd].
  destruct (bool_decide (0 < pu_level upgrade)%Z) eqn:E; cbn [andb]; [|done].
  destruct (pu_unlocked upgrade); [|done].
  apply bool_decide_eq_true_1 in E.
  apply Qcmult_ge_1; [done|]. apply pow_ge_1; [qc_decide|done].
Qed.

(** X7.  A prestige reset is carried out exactly when the weighted total
    of the four stage resources is 1000 or more, and then it pays at least
    one compiler point; below 1000 the call changes nothing. *)
Theorem doPrestige_available (s : GameState.t) :
  ((GameState.doPrestige s).1 = true <-> Decimal.new 1000 <= GameState.totalResources s)
  /\ ((GameState.doPrestige s).1 = false -> (GameState.doPrestige s).2 = s)
  /\ ((GameState.doPrestige s).1 = true -> 1 <= GameState.calculatePrestigeGain s).
Proof.
  assert (Hgain : Decimal.new 1000 <= GameState.totalResources s ->
                  1 <= GameState.calculatePrestigeGain s).
  { intros H. destruct (calculatePrestigeGain_positive s H) as (_ & n & Hn & ->).
    change 1 with (Decimal.of_Z 1). by apply of_Z_le. }
  assert (Hiff : (GameState.doPrestige s).1 = true
                 <-> Decimal.new 1000 <= GameState.totalResources s).
  { rewrite <- doPrestige_succeeds. split.
    - intros Hpos. apply Qcnot_lt_le. intros Hlt.
      unfold GameState.calculatePrestigeGain, Decimal.lt in Hpos.
      rewrite bool_decide_eq_true_2 in Hpos by done. by vm_compute in Hpos.
    - intros H. apply Qclt_le_trans with 1; [qc_decide|by apply Hgain]. }
  split; [exact Hiff|]. split.
  - unfold GameState.doPrestige. by destruct (Decimal.lte _ _).
  - intros H. by apply Hgain, Hiff.
Qed.

Lemma doPrestige_available_witness :
  Decimal.new 1000 <= GameState.totalResources Samples.rich
  /\ 1 <= GameState.calculatePrestigeGain Samples.rich.
Proof.
  split.
  - apply (proj1 (proj1 (doPrestige_available Samples.rich))). reflexivity.
  - apply (proj2 (proj2 (doPrestige_available Samples.rich))). reflexivity.
Defined.

Lemma catalogue_positive (upgradeKey : string) (upgradeData : UpgradeData) :
  GameState.upgradeDataOf upgradeKey = Some upgradeData ->
  0 < baseCost upgradeData /\ 1 < growth upgradeData /\ 0 < baseOutput upgradeData.
Proof.
  unfold GameState.upgradeDataOf, UPGRADE_DATA, STAGE3_UPGRADES. cbn [assoc].
  repeat case_decide; intros [= <-]; repeat split; qc_decide.
Qed.

Lemma Qcpower_pos_strict (x : Qc) (n : nat) : 0 < x -> 0 < x ^ n.
Proof.
  intros Hx. induction n as [|n IH]; cbn [Qcpower]; [qc_decide|].
  by apply Qcmult_pos_pos.
Qed.

Lemma Qcinv_pos (x : Qc) : 0 < x -> 0 < / x.
Proof.
  intros Hx. destruct (Qclt_le_dec 0 (/ x)) as [|Hle]; [done|]. exfalso.
  assert (H1 : x * / x = 1) by (apply Qcmult_inv_r; intros ->; by apply Qclt_not_eq in Hx).
  assert (H2 : x * / x <= x * 0) by (apply Qcmult_le_mono_nonneg_l; [by apply Qclt_le_weak|done]).
  rewrite H1, Qcmult_0_r in H2. by vm_compute in H2.
Qed.

Lemma pow_pos (x : Qc) (n : Z) : 0 < x -> 0 < Decimal.pow x n.
Proof.
  intros Hx. destruct n as [|p|p]; cbn.
  - qc_decide.
  - by apply Qcpower_pos_strict.
  - by apply Qcinv_pos, Qcpower_pos_strict.
Qed.

Lemma costAtLevel_pos (d : UpgradeData) (level : Z) :
  0 < baseCost d -> 0 < growth d -> 0 < GameState.costAtLevel d level.
Proof.
  intros Hb Hg. unfold GameState.costAtLevel, Decimal.mul.
  apply round_pos, Qcmult_pos_pos; [done|]. by apply round_pos, pow_pos.
Qed.

Lemma round_0 : Decimal.round (Decimal.new 0) = Decimal.new 0.
Proof. apply Qc_is_canon. by vm_compute. Qed.

(** The running total of the cost loop is a rounded value. *)
Lemma costLoop_rounded (d : UpgradeData) (L : Z) (n : nat) (i : Z) (acc : Qc) :
  Decimal.round acc = acc ->
  Decimal.round (GameState.costLoop d L n i acc) = GameState.costLoop d L n i acc.
Proof.
  revert i acc. induction n as [|n IH]; intros i acc Hacc; cbn [GameState.costLoop];
    [done|].
  apply IH, round_idem.
Qed.

Lemma costLoop_ge (d : UpgradeData) (L : Z) (n : nat) (i : Z) (acc : Qc) :
  0 < baseCost d -> 0 < growth d -> Decimal.round acc = acc ->
  acc <= GameState.costLoop d L n i acc.
Proof.
  intros Hb Hg. revert i acc.
  induction n as [|n IH]; intros i acc Hacc; cbn [GameState.costLoop].
  - apply Qcle_refl.
  - eapply Qcle_trans; [|apply IH, round_idem].
    rewrite <- Hacc at 1. apply round_mono. unfold Decimal.add.
    rewrite <- (Qcplus_0_r acc) at 1. apply Qcplus_le_mono_l.
    by apply Qclt_le_weak, costAtLevel_pos.
Qed.

Lemma bulkCost_mono (d : UpgradeData) (L a b : Z) :
  0 < baseCost d -> 0 < growth d -> (0 <= a)%Z -> (0 <= b)%Z ->
  GameState.bulkCost d L a <= GameState.bulkCost d L (a + b).
Proof.
  intros Hb Hg Ha Hbn. unfold GameState.bulkCost.
  rewrite Z2Nat.inj_add by lia. rewrite costLoop_app.
  apply costLoop_ge; [done..|]. apply costLoop_rounded, round_0.
Qed.

(** X8.  Who can pay for a + b levels of an upgrade can pay for a levels:
    every level has a positive price, so the total of the cost loop grows
    with the quantity. *)
Theorem canBuyUpgrade_fewer (upgradeKey : string) (a b : Z) (s : GameState.t) :
  (0 <= a)%Z -> (0 <= b)%Z ->
  GameState.canBuyUpgrade upgradeKey (a + b) s = true ->
  GameState.canBuyUpgrade upgradeKey a s = true.
Proof.
  intros Ha Hb. unfold GameState.canBuyUpgrade.
  destruct (GameState.upgradeDataOf upgradeKey) as [d|] eqn:Hd; [|done].
  destruct (catalogue_positive _ _ Hd) as (Hbase & Hgrowth & _).
  destruct (match unlockThreshold d with Some _ => _ | None => _ end); [done|].
  unfold Decimal.gte. rewrite !bool_decide_eq_true. intros H.
  eapply Qcle_trans; [|exact H]. apply bulkCost_mono; try done.
  apply Qclt_trans with 1; [qc_decide|done].
Qed.

Lemma canBuyUpgrade_fewer_witness :
  GameState.canBuyUpgrade "auto-tokenizer-1" 2 Samples.rich = true.
Proof.
  apply (canBuyUpgrade_fewer "auto-tokenizer-1" 2 3 Samples.rich); [lia|lia|].
  reflexivity.
Defined.

Lemma pow_add_nonneg (x : Qc) (a b : Z) :
  (0 <= a)%Z -> (0 <= b)%Z ->
  Decimal.pow x (a + b) = Decimal.pow x a * Decimal.pow x b.
Proof.
  intros Ha Hb.
  assert (H : forall n : Z, (0 <= n)%Z -> Decimal.pow x n = x ^ Z.to_nat n).
  { intros [|p|p] Hn; [done|done|lia]. }
  rewrite !H by lia. rewrite Z2Nat.inj_add by lia.
  induction (Z.to_nat a) as [|n IH]; cbn [Nat.add Qcpower]; [ring|].
  rewrite IH. ring.
Qed.

Lemma Qcpower_gt_1 (x : Qc) (n : nat) : 1 < x -> (0 < n)%nat -> 1 < x ^ n.
Proof.
  intros Hx Hn. destruct n as [|n]; [lia|]. clear Hn.
  induction n as [|n IH]; cbn [Qcpower] in *.
  - by rewrite Qcmult_1_r.
  - apply Qclt_trans with (x * 1); [by rewrite Qcmult_1_r|].
    apply Qcmult_lt_mono_pos_l; [|done]. apply Qclt_trans with 1; [qc_decide|done].
Qed.

Lemma buyUpgrade_effect (upgradeKey : string) (amount : Z) (s s' : GameState.t) :
  GameState.buyUpgrade upgradeKey amount s = (true, s') ->
  exists d,
    GameState.upgradeDataOf upgradeKey = Some d
    /\ GameState.levelOf upgradeKey s' = (GameState.levelOf upgradeKey s + amount)%Z
    /\ GameState.bulkCost d (GameState.levelOf upgradeKey s) amount
       <= GameState.get (GameState.costResourceOf d) (GameState.resources s)
    /\ GameState.resources s'
       = GameState.set (GameState.costResourceOf d)
           (GameState.get (GameState.costResourceOf d) (GameState.resources s)
            - GameState.bulkCost d (GameState.levelOf upgradeKey s) amount)
           (GameState.resources s)
    /\ GameState.stage3 s' = GameState.stage3 s
    /\ GameState.codeGenerator s' = GameState.codeGenerator s.
Proof.
  unfold GameState.buyUpgrade.
  destruct (GameState.canBuyUpgrade upgradeKey amount s) eqn:Hcan; [|done].
  cbn [negb]. unfold GameState.canBuyUpgrade in Hcan.
  destruct (GameState.upgradeDataOf upgradeKey) as [d|]; [|done].
  intros [= <-]. exists d. split; [done|]. split.
  { unfold GameState.levelOf. cbn [GameState.upgrades]. by rewrite lookup_insert_eq. }
  split; [|done].
  destruct (match unlockThreshold d with Some _ => _ | None => _ end); [done|].
  unfold Decimal.gte in Hcan. by apply bool_decide_eq_true_1 in Hcan.
Qed.

Lemma catalogue_growth (upgradeKey : string) (upgradeData : UpgradeData) :
  GameState.upgradeDataOf upgradeKey = Some upgradeData ->
  Decimal.new (11 # 10) <= growth upgradeData.
Proof.
  unfold GameState.upgradeDataOf, UPGRADE_DATA, STAGE3_UPGRADES. cbn [assoc].
  repeat case_decide; intros [= <-]; qc_decide.
Qed.

Lemma pow_ge_self (x : Qc) (n : Z) : 1 <= x -> (1 <= n)%Z -> x <= Decimal.pow x n.
Proof.
  intros Hx Hn. destruct n as [|p|p]; [lia| |lia]. cbn [Decimal.pow].
  destruct (Pos2Nat.is_succ p) as [k ->]. cbn [Qcpower].
  rewrite <- (Qcmult_1_r x) at 1. apply Qcmult_le_mono_nonneg_l.
  - apply Qcle_trans with 1; [|done]. qc_decide.
  - by apply Qcpower_ge_1.
Qed.

(** Two prices a factor of 1.1 apart stay apart when each power and each
    product is rounded to within one part in a hundred. *)
Lemma rounded_prices_apart (b g P P' rp rp' c c' : Q) :
  (0 < b -> 0 < P -> (11 # 10) <= g -> g * P <= P' ->
   rp <= P * (101 # 100) -> P' * (99 # 100) <= rp' ->
   c <= b * rp * (101 # 100) -> b * rp' * (99 # 100) <= c' -> c < c')%Q.
Proof.
  intros Hb HP Hg HP' Hrp Hrp' Hc Hc'.
  assert (H0 : (0 < b * P)%Q) by nra.
  assert (H1 : (b * rp <= b * P * (101 # 100))%Q) by nra.
  assert (H2 : (b * P' * (99 # 100) <= b * rp')%Q) by nra.
  assert (H3 : (b * P * (11 # 10) <= b * P')%Q) by nra.
  lra.
Qed.

(** X9.  Every purchase of at least one level makes the next level of that
    upgrade strictly dearer, the rounding of the prices notwithstanding. *)
Theorem buyUpgrade_raises_cost (upgradeKey : string) (amount : Z) (s s' : GameState.t) :
  (0 <= GameState.levelOf upgradeKey s)%Z -> (1 <= amount)%Z ->
  GameState.buyUpgrade upgradeKey amount s = (true, s') ->
  GameState.getUpgradeCost upgradeKey s < GameState.getUpgradeCost upgradeKey s'.
Proof.
  intros Hlevel Hamount Hbuy.
  destruct (buyUpgrade_effect upgradeKey amount s s' Hbuy) as (d & Hd & Hl & _).
  destruct (catalogue_positive _ _ Hd) as (Hbase & Hgrowth & _).
  pose proof (catalogue_growth _ _ Hd) as Hg.
  unfold GameState.getUpgradeCost. rewrite Hd, Hl.
  unfold GameState.costAtLevel, Decimal.mul.
  assert (Hg0 : 0 < growth d) by (apply Qclt_trans with 1; [qc_decide|done]).
  set (P := Decimal.pow (growth d) (GameState.levelOf upgradeKey s)).
  set (P' := Decimal.pow (growth d) (GameState.levelOf upgradeKey s + amount)).
  assert (HP : 0 < P) by (by apply pow_pos).
  assert (HP' : growth d * P <= P').
  { unfold P', P. rewrite pow_add_nonneg by lia. rewrite Qcmult_comm.
    apply Qcmult_le_mono_nonneg_l; [by apply Qclt_le_weak|].
    apply pow_ge_self; [by apply Qclt_le_weak|done]. }
  assert (HP0 : 0 < P') by (by apply pow_pos).
  destruct (round_near P HP) as [_ H1]. destruct (round_near P' HP0) as [H2 _].
  destruct (round_near (baseCost d * Decimal.round P)) as [_ H3];
    [by apply Qcmult_pos_pos, round_pos|].
  destruct (round_near (baseCost d * Decimal.round P')) as [H4 _];
    [by apply Qcmult_pos_pos, round_pos|].
  revert Hbase HP Hg HP' H1 H2 H3 H4. unfold Qclt, Qcle, Decimal.new.
  cbn [this Qcmult Q2Qc]. rewrite !Qred_correct. apply rounded_prices_apart.
Qed.

Lemma buyUpgrade_raises_cost_witness :
  GameState.getUpgradeCost "auto-tokenizer-1" Samples.rich
  < GameState.getUpgradeCost "auto-tokenizer-1"
      (GameState.buyUpgrade "auto-tokenizer-1" 3 Samples.rich).2.
Proof.
  apply (buyUpgrade_raises_cost "auto-tokenizer-1" 3 Samples.rich).
  - vm_compute. discriminate.
  - lia.
  - reflexivity.
Defined.

Lemma solvent_set (name : Resource) (v : Qc) (rs : GameState.Resources) :
  solvent rs -> 0 <= v -> solvent (GameState.set name v rs).
Proof.
  intros Hs Hv other. destruct (decide (name = other)) as [<-|Hne].
  - by rewrite get_set_same.
  - rewrite get_set_other by done. apply Hs.
Qed.

Lemma sub_nonneg (x y : Qc) : y <= x -> 0 <= x - y.
Proof. intros H. by apply Qcle_minus_iff in H. Qed.

Lemma calculateProduction_frame (now : Z) (s : GameState.t) :
  exists g o, (GameState.calculateProduction now s).2 = GameState.withStage3Modules g o s.
Proof.
  unfold GameState.calculateProduction.
  destruct (GameState.unlocked (GameState.stage3 s)).
  - unfold GameState.calculateStage3Production.
    destruct (Decimal.gt (GameState.r_astNodes _) 0);
      [destruct (CodeGenerator.generateCode _ _) as [amount g]|];
      (destruct (Decimal.gt (GameState.r_generatedCode _) 0);
       [destruct (CodeOptimizer.optimize _ _ _) as [optimized o]|]);
      cbn [snd]; eauto.
  - exists (GameState.codeGenerator s), (GameState.codeOptimizer s). by destruct s.
Qed.

Lemma applyProduction_solvent (deltaTime : Qc) (name : Resource) (v : Qc)
    (rs : GameState.Resources) :
  0 <= deltaTime -> solvent rs -> solvent (Game.applyProduction deltaTime name v rs).
Proof.
  intros Hdt Hs. unfold Game.applyProduction, Decimal.gt.
  case_bool_decide as Hv; [|done]. apply solvent_set; [done|].
  apply Qcplus_nonneg_nonneg; [apply Hs|].
  apply Qcmult_nonneg_nonneg; [by apply Qclt_le_weak|done].
Qed.

Lemma applyProduction_compilerPoints (deltaTime : Qc) (name : Resource) (v : Qc)
    (rs : GameState.Resources) :
  name <> compilerPoints ->
  GameState.r_compilerPoints (Game.applyProduction deltaTime name v rs)
  = GameState.r_compilerPoints rs.
Proof.
  intros Hn. unfold Game.applyProduction. destruct (Decimal.gt v 0); [|done].
  by destruct name.
Qed.

Lemma handleConverterConsumption_frame (deltaTime : Qc) (s : GameState.t) :
  let s' := Game.handleConverterConsumption deltaTime s in
  (solvent (GameState.resources s) -> solvent (GameState.resources s'))
  /\ GameState.r_compilerPoints (GameState.resources s')
     = GameState.r_compilerPoints (GameState.resources s)
  /\ GameState.r_astNodes (GameState.resources s')
     = GameState.r_astNodes (GameState.resources s)
  /\ s' = GameState.withResources (GameState.resources s') s.
Proof.
  cbv zeta. rewrite handleConverterConsumption_unfold. unfold Game.consumptionStep.
  cbn [fst snd type costResource baseOutput].
  destruct (_ && _); [|by destruct s].
  unfold Decimal.gte. case_bool_decide as Hd; [|by destruct s].
  cbn [GameState.resources GameState.withResources GameState.get].
  split; [|done]. intros Hs. apply (solvent_set tokens); [done|].
  apply sub_nonneg. exact Hd.
Qed.

Lemma checkStage3Unlock_updateStats (deltaTime : Qc) (s : GameState.t) :
  let s' := GameState.checkStage3Unlock (GameState.updateStats deltaTime s) in
  GameState.resources s' = GameState.resources s
  /\ GameState.upgrades s' = GameState.upgrades s
  /\ GameState.prestige s' = GameState.prestige s
  /\ GameState.unlocked (GameState.stage3 s')
     = GameState.unlocked (GameState.stage3 s)
       || Decimal.gte (GameState.r_astNodes (GameState.resources s)) (Decimal.new 1000)
  /\ GameState.totalPlayTime (GameState.stats s')
     = GameState.totalPlayTime (GameState.stats s) + deltaTime.
Proof.
  cbv zeta. unfold GameState.checkStage3Unlock, GameState.updateStats.
  destruct s as [rs ups pr st3 ? ? ? ? sts ? ? ? ?].
  cbn [GameState.stage3 GameState.resources GameState.upgrades GameState.prestige
       GameState.stats].
  destruct (GameState.unlocked st3) eqn:Hu; cbn [negb andb orb].
  - cbn -[Qcplus Decimal.gte]. by rewrite Hu.
  - destruct (Decimal.gte rs.(GameState.r_astNodes) (Decimal.new 1000)) eqn:Hg;
      cbn -[Qcplus Decimal.gte]; by rewrite ?Hu, ?Hg.
Qed.

(** X10.  One tick of the engine with a time step that is not negative
    leaves no balance below zero if none was; it changes no upgrade level,
    nothing of the prestige record and no compiler point; stage 3 is open
    afterwards exactly if it was open or the AST nodes have reached 1000. *)
Theorem updateGameState_frame (now : Z) (deltaTime : Qc) (s : GameState.t) :
  let s' := Game.updateGameState now deltaTime s in
  (0 <= deltaTime -> solvent (GameState.resources s) ->
   solvent (GameState.resources s'))
  /\ GameState.upgrades s' = GameState.upgrades s
  /\ GameState.prestige s' = GameState.prestige s
  /\ GameState.r_compilerPoints (GameState.resources s')
     = GameState.r_compilerPoints (GameState.resources s)
  /\ GameState.unlocked (GameState.stage3 s')
     = GameState.unlocked (GameState.stage3 s)
       || Decimal.gte (GameState.r_astNodes (GameState.resources s')) (Decimal.new 1000).
Proof.
  cbv zeta. unfold Game.updateGameState.
  destruct (GameState.calculateProduction now s) as [production s1] eqn:Hp.
  destruct (calculateProduction_frame now s) as (g & o & Hs1).
  rewrite Hp in Hs1. cbn [snd] in Hs1. subst s1.
  cbn [GameState.resources GameState.withStage3Modules].
  set (rs := Game.applyProduction deltaTime optimizedCode _ _).
  set (s2 := GameState.withResources rs _).
  destruct (handleConverterConsumption_frame deltaTime s2) as (Hsol & Hcp & Hast & Hs3).
  set (s3 := Game.handleConverterConsumption deltaTime s2) in *.
  destruct (checkStage3Unlock_updateStats deltaTime s3) as (-> & -> & -> & -> & _).
  assert (Hup : GameState.upgrades s3 = GameState.upgrades s) by (by rewrite Hs3).
  assert (Hpr : GameState.prestige s3 = GameState.prestige s) by (by rewrite Hs3).
  assert (Hst : GameState.stage3 s3 = GameState.stage3 s) by (by rewrite Hs3).
  rewrite Hup, Hpr, Hst.
  split; [|split; [done|split; [done|split; [|done]]]].
  - intros Hdt Hs. apply Hsol. unfold s2. cbn [GameState.resources GameState.withResources].
    unfold rs. by repeat apply applyProduction_solvent.
  - rewrite Hcp. unfold s2. cbn [GameState.resources GameState.withResources].
    unfold rs. by rewrite !applyProduction_compilerPoints by done.
Qed.

Lemma updateGameState_frame_witness :
  solvent (GameState.resources (Game.updateGameState 0 1 Samples.fed)).
Proof.
  apply (proj1 (updateGameState_frame 0 1 Samples.fed)).
  - qc_decide.
  - intros name. destruct name; qc_decide.
Defined.

Lemma getManualTokenMultiplier_closed (s : GameState.t) :
  Game.getManualTokenMultiplier s
  = (if bool_decide (0 < GameState.levelOf "token-speed" s)%Z
     then 1 + Decimal.new 0.1 * Decimal.of_Z (GameState.levelOf "token-speed" s)
     else 1)
    * GameState.getPrestigeMultiplier tokens s.
Proof.
  unfold Game.getManualTokenMultiplier, UPGRADE_DATA. cbn [fold_left fst snd type baseOutput].
  rewrite (bool_decide_eq_true_2 (manual = manual) eq_refl), andb_true_r.
  rewrite !(bool_decide_eq_false_2 (generator = manual)) by done.
  rewrite (bool_decide_eq_false_2 (converter = manual)) by done.
  rewrite !andb_false_r. reflexivity.
Qed.

Lemma levelBonus_ge_1 (level : Z) :
  1 <= (if bool_decide (0 < level)%Z
        then 1 + Decimal.new 0.1 * Decimal.of_Z level else 1).
Proof.
  case_bool_decide as H; [|apply Qcle_refl].
  rewrite <- (Qcplus_0_r 1) at 1. apply Qcplus_le_mono_l.
  apply Qcmult_nonneg_nonneg; [qc_decide|].
  change 0 with (Decimal.of_Z 0). apply of_Z_le. lia.
Qed.

Lemma getManualTokenMultiplier_ge_1 (s : GameState.t) :
  1 <= Game.getManualTokenMultiplier s.
Proof.
  rewrite getManualTokenMultiplier_closed.
  apply Qcmult_ge_1; [apply levelBonus_ge_1|apply getPrestigeMultiplier_ge_1].
Qed.

(** X11.  The multiplier of a manual analysis is the prestige multiplier,
    times one plus a tenth per level of the upgrade token-speed, the only
    manual upgrade of the catalogue; it is never below one. *)
Theorem getManualTokenMultiplier_bonus (s : GameState.t) :
  Game.getManualTokenMultiplier s
  = (if bool_decide (0 < GameState.levelOf "token-speed" s)%Z
     then 1 + Decimal.new 0.1 * Decimal.of_Z (GameState.levelOf "token-speed" s)
     else 1)
    * GameState.getPrestigeMultiplier tokens s
  /\ 1 <= Game.getManualTokenMultiplier s.
Proof.
  split; [apply getManualTokenMultiplier_closed|apply getManualTokenMultiplier_ge_1].
Qed.

(** X12.  The prestige multiplier is never below one, and a prestige reset
    doubles it. *)
Theorem getPrestigeMultiplier_doubles (resource : Resource) (s : GameState.t) :
  1 <= GameState.getPrestigeMultiplier resource s
  /\ ((0 <= GameState.level (GameState.prestige s))%Z ->
      (GameState.doPrestige s).1 = true ->
      GameState.getPrestigeMultiplier resource (GameState.doPrestige s).2
      = Decimal.new 2 * GameState.getPrestigeMultiplier resource s).
Proof.
  split; [apply getPrestigeMultiplier_ge_1|].
  intros Hlevel. unfold GameState.doPrestige.
  destruct (Decimal.lte _ _); [done|]. intros _. cbn [snd].
  unfold GameState.getPrestigeMultiplier.
  cbn [GameState.prestige GameState.prestigeUpgrades GameState.level].
  set (f := fun (multiplier : Qc) (kv : string * PrestigeUpgrade) => _).
  assert (Hscale : forall table c base,
            fold_left f table (c * base) = c * fold_left f table base).
  { induction table as [|kv table IH]; intros c base; cbn [fold_left]; [done|].
    rewrite <- IH. f_equal. unfold f.
    destruct (_ && _); [|done]. unfold Decimal.mul. ring. }
  rewrite <- Hscale. f_equal.
  rewrite bool_decide_eq_true_2 by lia.
  unfold Decimal.mul. rewrite Qcmult_1_l.
  rewrite pow_add_nonneg by lia.
  case_bool_decide as Hpos.
  - rewrite Qcmult_1_l. change (Decimal.pow (Decimal.new 2) 1) with (Decimal.new 2).
    ring.
  - assert (GameState.level (GameState.prestige s) = 0%Z) as -> by lia.
    apply Qc_is_canon. by vm_compute.
Qed.

Lemma getPrestigeMultiplier_doubles_witness :
  GameState.getPrestigeMultiplier tokens (GameState.doPrestige Samples.rich).2
  = Decimal.new 2 * GameState.getPrestigeMultiplier tokens Samples.rich.
Proof.
  apply (proj2 (getPrestigeMultiplier_doubles tokens Samples.rich)).
  - vm_compute. discriminate.
  - reflexivity.
Defined.

(** X13.  A manual analysis of a text that is blank changes nothing.  Of
    any other text it counts the tokens of the trimmed text, at least one
    and at most one per code unit, adds that number times the manual
    multiplier to the tokens, hence at least one token, and counts one
    click. *)
Theorem runLexicalAnalysis_gain (input : list N) (s : GameState.t) :
  let s' := GameActions.runLexicalAnalysis input s in
  (Tokenizer.trim input = [] -> s' = s)
  /\ (Tokenizer.trim input <> [] ->
      exists emittedTokens,
        Tokenizer.tokenize (Tokenizer.trim input) = Some emittedTokens
        /\ (1 <= length emittedTokens <= length (Tokenizer.trim input))%nat
        /\ GameState.resources s'
           = GameState.set tokens
               (GameState.r_tokens (GameState.resources s)
                + Decimal.of_Z (Z.of_nat (length emittedTokens))
                  * Game.getManualTokenMultiplier s)
               (GameState.resources s)
        /\ GameState.r_tokens (GameState.resources s) + 1
           <= GameState.r_tokens (GameState.resources s')
        /\ GameState.clickCount (GameState.stats s')
           = (GameState.clickCount (GameState.stats s) + 1)%Z).
Proof.
  cbv zeta. unfold GameActions.runLexicalAnalysis. split.
  - by intros ->.
  - intros Hne.
    destruct (tokenize_returns (Tokenizer.trim input)) as [emittedTokens Htok].
    pose proof (tokenize_count _ _ Htok (trim_visible input Hne)) as Hcount.
    exists emittedTokens. rewrite Htok.
    destruct (Tokenizer.trim input) as [|c rest] eqn:Etrim; [done|].
    cbn [GameState.resources GameState.stats GameState.clickCount].
    split; [done|]. split; [done|]. split; [done|]. split; [|done].
    cbn [GameState.set GameState.r_tokens]. unfold Decimal.add, Decimal.mul.
    apply Qcplus_le_mono_l. apply Qcmult_ge_1; [|apply getManualTokenMultiplier_ge_1].
    change 1 with (Decimal.of_Z 1). apply of_Z_le. lia.
Qed.

Lemma runLexicalAnalysis_gain_witness :
  exists emittedTokens,
    Tokenizer.tokenize (Tokenizer.trim (Tokenizer.units " x = 1 ")) = Some emittedTokens
    /\ (1 <= length emittedTokens
        <= length (Tokenizer.trim (Tokenizer.units " x = 1 ")))%nat
    /\ GameState.resources
         (GameActions.runLexicalAnalysis (Tokenizer.units " x = 1 ") Samples.poor)
       = GameState.set tokens
           (GameState.r_tokens (GameState.resources Samples.poor)
            + Decimal.of_Z (Z.of_nat (length emittedTokens))
              * Game.getManualTokenMultiplier Samples.poor)
           (GameState.resources Samples.poor)
    /\ GameState.r_tokens (GameState.resources Samples.poor) + 1
       <= GameState.r_tokens
            (GameState.resources
               (GameActions.runLexicalAnalysis (Tokenizer.units " x = 1 ") Samples.poor))
    /\ GameState.clickCount
         (GameState.stats
            (GameActions.runLexicalAnalysis (Tokenizer.units " x = 1 ") Samples.poor))
       = (GameState.clickCount (GameState.stats Samples.poor) + 1)%Z.
Proof.
  apply (proj2 (runLexicalAnalysis_gain (Tokenizer.units " x = 1 ") Samples.poor)).
  vm_compute. discriminate.
Defined.

End Economy.

(** ** The code optimizer *)

Section Optimizer.
Local Open Scope Qc_scope.

Lemma techniques_positive (key : string) (tech : OptimizationTech) :
  assoc key OPTIMIZATION_TECHS = Some tech ->
  (1 <= maxLevel tech)%Z /\ 0 < ot_baseCost tech /\ 1 < ot_growth tech
  /\ 0 < efficiency tech.
Proof.
  unfold OPTIMIZATION_TECHS. cbn [assoc].
  repeat case_decide; intros [= <-]; (split; [cbn; lia|]); repeat split; qc_decide.
Qed.

Lemma one_plus_nonneg (x : Qc) : 0 <= x -> 1 <= 1 + x.
Proof.
  intros H. rewrite <- (Qcplus_0_r 1) at 1. by apply Qcplus_le_mono_l.
Qed.

Lemma getOptimizationMultiplier_ge_1 (o : CodeOptimizer.t) :
  1 <= CodeOptimizer.getOptimizationMultiplier o.
Proof.
  unfold CodeOptimizer.getOptimizationMultiplier.
  apply (map_fold_weak_ind (fun r _ => 1 <= r)); [apply Qcle_refl|].
  intros key optimization m r _ Hr. case_bool_decide as Hlevel; [|done].
  destruct (assoc key OPTIMIZATION_TECHS) as [tech|] eqn:E; [|done].
  destruct (techniques_positive key tech E) as (_ & _ & _ & He).
  apply Qcmult_ge_1; [done|]. apply one_plus_nonneg.
  apply Qcmult_nonneg_nonneg; [by apply Qclt_le_weak|].
  change 0 with (Decimal.of_Z 0). apply of_Z_le. lia.
Qed.

(** X14.  Optimizing never shrinks the code: the multiplier of the
    optimizer is at least one whatever the levels are, so a positive amount
    of generated code comes back at least as large; an amount that is not
    positive gives zero and leaves the optimizer as it is. *)
Theorem optimize_never_shrinks (now : Z) (generatedCode : Decimal)
    (o : CodeOptimizer.t) :
  1 <= CodeOptimizer.getOptimizationMultiplier o
  /\ (0 < generatedCode ->
      (CodeOptimizer.optimize now generatedCode o).1
      = generatedCode * CodeOptimizer.getOptimizationMultiplier o
      /\ generatedCode <= (CodeOptimizer.optimize now generatedCode o).1)
  /\ (generatedCode <= 0 ->
      CodeOptimizer.optimize now generatedCode o = (Decimal.new 0, o)).
Proof.
  split; [apply getOptimizationMultiplier_ge_1|].
  unfold CodeOptimizer.optimize, Decimal.lte. split.
  - intros Hpos. rewrite bool_decide_eq_false_2 by (by apply Qclt_not_le).
    cbn [fst]. split; [done|]. unfold Decimal.mul.
    rewrite <- (Qcmult_1_r generatedCode) at 1.
    apply Qcmult_le_mono_nonneg_l; [by apply Qclt_le_weak|].
    apply getOptimizationMultiplier_ge_1.
  - intros Hle. by rewrite bool_decide_eq_true_2.
Qed.

Lemma optimize_never_shrinks_witness :
  (CodeOptimizer.optimize 0 (Decimal.new 100) CodeOptimizer.init).1
  = Decimal.new 100 * CodeOptimizer.getOptimizationMultiplier CodeOptimizer.init
  /\ Decimal.new 100 <= (CodeOptimizer.optimize 0 (Decimal.new 100) CodeOptimizer.init).1.
Proof.
  apply (proj1 (proj2 (optimize_never_shrinks 0 (Decimal.new 100) CodeOptimizer.init))).
  qc_decide.
Defined.

Lemma upgradeOptimization_effect (techKey : string) (balance : Decimal)
    (o : CodeOptimizer.t) :
  (CodeOptimizer.canUpgradeOptimization techKey balance o = false
   /\ CodeOptimizer.upgradeOptimization techKey balance o = (false, balance, o))
  \/ (exists tech optimization,
        assoc techKey OPTIMIZATION_TECHS = Some tech
        /\ CodeOptimizer.optimizations o !! techKey = Some optimization
        /\ (CodeOptimizer.level optimization < maxLevel tech)%Z
        /\ CodeOptimizer.cost optimization <= balance
        /\ CodeOptimizer.upgradeOptimization techKey balance o
           = (true, balance - CodeOptimizer.cost optimization,
              CodeOptimizer.mk
                (<[techKey :=
                     CodeOptimizer.mkOptimization
                       (CodeOptimizer.level optimization + 1)
                       (ot_baseCost tech
                        * Decimal.pow (ot_growth tech)
                            (CodeOptimizer.level optimization + 1))
                       (CodeOptimizer.totalApplications optimization)
                       (CodeOptimizer.effectiveness optimization)]>
                   (CodeOptimizer.optimizations o))
                (CodeOptimizer.optimizationHistory o)
                (CodeOptimizer.totalOptimizationScore o))).
Proof.
  unfold CodeOptimizer.upgradeOptimization.
  destruct (CodeOptimizer.canUpgradeOptimization techKey balance o) eqn:Hcan;
    cbn [negb]; [right|by left].
  unfold CodeOptimizer.canUpgradeOptimization in Hcan.
  destruct (assoc techKey OPTIMIZATION_TECHS) as [tech|]; [|done].
  destruct (CodeOptimizer.optimizations o !! techKey) as [optimization|]; [|done].
  case_bool_decide as Hmax; [done|].
  unfold Decimal.gte in Hcan. apply bool_decide_eq_true_1 in Hcan.
  exists tech, optimization. repeat split; try done. lia.
Qed.

(** X15.  An upgrade of an optimization technique is all or nothing.  It is
    refused, with the balance and the optimizer unchanged, unless the
    technique is in the catalogue, below its maximum level and its price is
    covered; when it goes through, the balance goes down by exactly the
    price, to a value that is not negative when the price is not, the level
    goes up by one and stays within the maximum, the next price is the base
    cost times the growth to the power of the new level, and no other
    technique changes. *)
Theorem upgradeOptimization_atomic (techKey : string) (balance : Decimal)
    (o : CodeOptimizer.t) (success : bool) (balance' : Decimal)
    (o' : CodeOptimizer.t) :
  CodeOptimizer.upgradeOptimization techKey balance o = (success, balance', o') ->
  (success = false -> balance' = balance /\ o' = o)
  /\ (success = true ->
      exists tech before after,
        assoc techKey OPTIMIZATION_TECHS = Some tech
        /\ CodeOptimizer.optimizations o !! techKey = Some before
        /\ CodeOptimizer.optimizations o' !! techKey = Some after
        /\ CodeOptimizer.cost before <= balance
        /\ balance' = balance - CodeOptimizer.cost before
        /\ CodeOptimizer.level after = (CodeOptimizer.level before + 1)%Z
        /\ (CodeOptimizer.level after <= maxLevel tech)%Z
        /\ CodeOptimizer.cost after
           = ot_baseCost tech * Decimal.pow (ot_growth tech) (CodeOptimizer.level after)
        /\ (forall other, other <> techKey ->
              CodeOptimizer.optimizations o' !! other
              = CodeOptimizer.optimizations o !! other)).
Proof.
  intros H.
  destruct (upgradeOptimization_effect techKey balance o)
    as [[_ Hfail]|(tech & before & Ht & Hb & Hlevel & Hcost & Hok)].
  - rewrite Hfail in H. injection H as <- <- <-. by split.
  - rewrite Hok in H. injection H as <- <- <-. split; [done|]. intros _.
    exists tech, before. eexists. split; [done|]. split; [done|].
    cbn [CodeOptimizer.optimizations]. split; [apply lookup_insert_eq|].
    cbn [CodeOptimizer.level CodeOptimizer.cost].
    repeat split; try done; [lia|].
    intros other Hne. by rewrite lookup_insert_ne.
Qed.

Lemma upgradeOptimization_atomic_witness :
  exists tech before after,
    assoc "loopOptimization" OPTIMIZATION_TECHS = Some tech
    /\ CodeOptimizer.optimizations CodeOptimizer.init !! "loopOptimization"
       = Some before
    /\ CodeOptimizer.optimizations
         (CodeOptimizer.upgradeOptimization "loopOptimization" (Decimal.new 500)
            CodeOptimizer.init).2 !! "loopOptimization" = Some after
    /\ CodeOptimizer.cost before <= Decimal.new 500
    /\ (CodeOptimizer.upgradeOptimization "loopOptimization" (Decimal.new 500)
          CodeOptimizer.init).1.2
       = Decimal.new 500 - CodeOptimizer.cost before
    /\ CodeOptimizer.level after = (CodeOptimizer.level before + 1)%Z
    /\ (CodeOptimizer.level after <= maxLevel tech)%Z
    /\ CodeOptimizer.cost after
       = ot_baseCost tech * Decimal.pow (ot_growth tech) (CodeOptimizer.level after)
    /\ (forall other, other <> "loopOptimization" ->
          CodeOptimizer.optimizations
            (CodeOptimizer.upgradeOptimization "loopOptimization" (Decimal.new 500)
               CodeOptimizer.init).2 !! other
          = CodeOptimizer.optimizations CodeOptimizer.init !! other).
Proof.
  apply (proj2
           (upgradeOptimization_atomic "loopOptimization" (Decimal.new 500)
              CodeOptimizer.init true
              (CodeOptimizer.upgradeOptimization "loopOptimization" (Decimal.new 500)
                 CodeOptimizer.init).1.2
              (CodeOptimizer.upgradeOptimization "loopOptimization" (Decimal.new 500)
                 CodeOptimizer.init).2
              eq_refl)).
  reflexivity.
Defined.

Lemma tenth_div (level : Z) : CodeOptimizer.tenth level = (level / 10)%Z.
Proof.
  unfold CodeOptimizer.tenth.
  assert (H : (this (Decimal.of_Z level) * this (Decimal.new 0.1) == level # 10)%Q).
  { unfold Decimal.of_Z, Decimal.new. cbn [this Q2Qc].
    rewrite !Qred_correct. unfold Qeq. cbn. lia. }
  apply (Qfloor_comp _ _ H).
Qed.

Lemma list_to_map_catalogue {A B : Type} (f : string * A -> B)
    (catalogue : list (string * A)) (key : string) (v : B) :
  (list_to_map (map (fun kv => (kv.1, f kv)) catalogue) : gmap string B) !! key = Some v ->
  exists a, assoc key catalogue = Some a /\ v = f (key, a).
Proof.
  induction catalogue as [|[k a] catalogue IH]; cbn [map assoc fst].
  - by rewrite list_to_map_nil, lookup_empty.
  - rewrite list_to_map_cons. destruct (decide (key = k)) as [->|Hne].
    + rewrite lookup_insert_eq. intros [= <-]. exists a.
      by rewrite decide_True.
    + rewrite lookup_insert_ne by done. intros H. apply IH in H as (a' & Ha & ->).
      exists a'. by rewrite decide_False.
Qed.

Lemma boundedLevels_init : boundedLevels CodeOptimizer.init.
Proof.
  intros key optimization H. unfold CodeOptimizer.init in H.
  cbn [CodeOptimizer.optimizations] in H.
  apply (list_to_map_catalogue
           (fun kv => CodeOptimizer.mkOptimization 0 (ot_baseCost kv.2) 0 0)) in H
    as (tech & Ht & ->).
  exists tech. split; [done|]. cbn [CodeOptimizer.level].
  destruct (techniques_positive key tech Ht) as (? & _). lia.
Qed.

Lemma boundedLevels_upgradeOptimization (techKey : string) (balance : Decimal)
    (o : CodeOptimizer.t) :
  boundedLevels o ->
  boundedLevels (CodeOptimizer.upgradeOptimization techKey balance o).2.
Proof.
  intros Hb.
  destruct (upgradeOptimization_effect techKey balance o)
    as [[_ ->]|(tech & before & Ht & Hbefore & Hlevel & _ & ->)]; [done|].
  cbn [snd]. intros key optimization. cbn [CodeOptimizer.optimizations].
  destruct (decide (key = techKey)) as [->|Hne].
  - rewrite lookup_insert_eq. intros [= <-]. exists tech. split; [done|].
    cbn [CodeOptimizer.level]. destruct (Hb _ _ Hbefore) as (tech' & Ht' & Hl).
    lia.
  - rewrite lookup_insert_ne by done. apply Hb.
Qed.

Lemma boundedLevels_optimize (now : Z) (generatedCode : Decimal) (o : CodeOptimizer.t) :
  boundedLevels o -> boundedLevels (CodeOptimizer.optimize now generatedCode o).2.
Proof.
  intros Hb. unfold CodeOptimizer.optimize. destruct (Decimal.lte _ _); [done|].
  cbn [snd]. intros key optimization.
  unfold CodeOptimizer.updateTechStats, CodeOptimizer.recordOptimization.
  cbn [CodeOptimizer.optimizations]. rewrite map_lookup_imap.
  destruct (CodeOptimizer.optimizations o !! key) as [before|] eqn:E; [|done].
  cbn [mbind option_bind]. destruct (Hb _ _ E) as (tech & Ht & Hl). rewrite Ht.
  intros [= <-]. exists tech. split; [done|]. by case_bool_decide.
Qed.

Lemma boundedLevels_resetOptimizer (keepSomeProgress : bool) (o : CodeOptimizer.t) :
  boundedLevels o -> boundedLevels (CodeOptimizer.resetOptimizer keepSomeProgress o).
Proof.
  intros Hb key optimization. unfold CodeOptimizer.resetOptimizer.
  cbn [CodeOptimizer.optimizations]. rewrite map_lookup_imap.
  destruct (CodeOptimizer.optimizations o !! key) as [before|] eqn:E; [|done].
  cbn [mbind option_bind]. destruct (Hb _ _ E) as (tech & Ht & Hl). rewrite Ht.
  intros [= <-].
  exists tech. split; [done|]. cbn [CodeOptimizer.level].
  destruct keepSomeProgress; [|lia]. rewrite tenth_div.
  pose proof (Z.div_pos (CodeOptimizer.level before) 10).
  pose proof (Z.div_le_upper_bound (CodeOptimizer.level before) 10
                (CodeOptimizer.level before)).
  lia.
Qed.

(** X16.  The levels of the optimizer stay in range: in a new optimizer
    every technique is one of the catalogue at a level between zero and its
    maximum, and an upgrade, an optimization run and a reset, with or
    without kept progress, keep it so. *)
Theorem boundedLevels_kept (o : CodeOptimizer.t) :
  boundedLevels CodeOptimizer.init
  /\ (boundedLevels o ->
      (forall techKey balance,
         boundedLevels (CodeOptimizer.upgradeOptimization techKey balance o).2)
      /\ (forall now generatedCode,
            boundedLevels (CodeOptimizer.optimize now generatedCode o).2)
      /\ (forall keepSomeProgress,
            boundedLevels (CodeOptimizer.resetOptimizer keepSomeProgress o))).
Proof.
  split; [apply boundedLevels_init|]. intros Hb. split; [|split].
  - intros techKey balance. by apply boundedLevels_upgradeOptimization.
  - intros now generatedCode. by apply boundedLevels_optimize.
  - intros keepSomeProgress. by apply boundedLevels_resetOptimizer.
Qed.

Lemma boundedLevels_kept_witness :
  boundedLevels
    (CodeOptimizer.upgradeOptimization "loopOptimization" (Decimal.new 500)
       CodeOptimizer.init).2.
Proof.
  exact (proj1
           (proj2 (boundedLevels_kept CodeOptimizer.init)
              (proj1 (boundedLevels_kept CodeOptimizer.init)))
           "loopOptimization" (Decimal.new 500)).
Defined.

End Optimizer.
